(** * ScrollySystem: the trigger-resolution engine and its diagnostics

    A shallow embedding of the [ScrollySystem] class (src/scrolltering.js):
    the instance fields become a record, every method becomes a function on
    that record (or on the record together with the host's timer table and
    effect log), and the host page (DOM queries, layout, clock) is an
    explicit argument of the methods that consult it.  A call that can throw
    returns how it completed together with the world it left. *)

From Stdlib Require Import QArith Lqa.
From stdpp Require Import gmap strings list fin_maps pretty.

Local Open Scope Z_scope.

(** ** Host values *)

(** A DOM element is an opaque handle compared by identity. *)
Definition Element := nat.

(** JavaScript numbers that carry fractions (viewport coordinates, threshold
    ratios, the performance score) are rationals: every finite double is one,
    and [<], [===] and [-] on the values met here are exact. *)
Definition Qlt_bool (a b : Q) : bool := negb (Qle_bool b a).

(** [Math.max(a, b)] *)
Definition Math_max (a b : Q) : Q := if Qle_bool a b then b else a.

(** ** Completions *)

(** How a call completes: normally with a value, or by throwing. *)
Inductive Completion (A : Type) :=
| Normal (a : A)
| Throw (error : string).
Arguments Normal {A} a.
Arguments Throw {A} error.

Global Instance Completion_ret : MRet Completion := λ A a, Normal a.

Global Instance Completion_bind : MBind Completion :=
  λ A B f m, match m with
             | Normal a => f a
             | Throw error => Throw error
             end.

Global Instance Completion_fmap : FMap Completion :=
  λ A B f m, match m with
             | Normal a => Normal (f a)
             | Throw error => Throw error
             end.

(** Whether the call returned. *)
Definition returns {A} (c : Completion A) : bool :=
  match c with
  | Normal _ => true
  | Throw _ => false
  end.

(** ** A JavaScript [Map], in insertion order

    [Map.prototype.set] overwrites the value of a key already present and
    keeps its position, and appends a new key at the end; iteration
    ([entries()]) follows that order. *)
Section JSMap.
Context {K V : Type} `{EqDecision K}.

Fixpoint Map_set (k : K) (v : V) (m : list (K * V)) : list (K * V) :=
  match m with
  | [] => [(k, v)]
  | (k', v') :: rest =>
      if decide (k' = k) then (k, v) :: rest else (k', v') :: Map_set k v rest
  end.

Fixpoint Map_delete (k : K) (m : list (K * V)) : list (K * V) :=
  match m with
  | [] => []
  | (k', v') :: rest =>
      if decide (k' = k) then Map_delete k rest else (k', v') :: Map_delete k rest
  end.
End JSMap.

(** [Array.prototype.reduce] without an initial value, on a non-empty array
    given as head and tail. *)
Definition reduce {A} (f : A → A → A) (first : A) (rest : list A) : A :=
  fold_left f rest first.

(** ** Configuration *)

(** The payload of a change notification. *)
Record Detail := {
  current : option string;
  previous : option string;
  d_timestamp : Z;
  d_instanceId : string
}.

(** The [onChange] callback is code of the page: called with the payload it
    returns or throws.  What else it does is outside the model; it is taken
    not to call the methods of the instance it is registered with. *)
Definition Callback := Detail → Completion unit.

(** [threshold] is a number or an array of numbers. *)
Inductive Threshold :=
| Scalar (t : Q)
| Ratios (ts : list Q).

Record Config := {
  selector : string;
  triggerAttribute : string;
  threshold : Threshold;
  rootMargin : string;
  debounceDelay : Z;            (* a whole number of milliseconds *)
  onChange : option Callback;   (* [Some] when [typeof onChange === 'function'] *)
  debug : bool
}.

(** The constructor's [options] argument: every key may be absent. *)
Record Options := {
  opt_selector : option string;
  opt_triggerAttribute : option string;
  opt_threshold : option Threshold;
  opt_rootMargin : option string;
  opt_debounceDelay : option Z;
  opt_onChange : option Callback;
  opt_debug : option bool
}.

Definition no_options : Options :=
  {| opt_selector := None; opt_triggerAttribute := None; opt_threshold := None;
     opt_rootMargin := None; opt_debounceDelay := None; opt_onChange := None;
     opt_debug := None |}.

(** [{ selector: '[data-trigger]', ..., ...options }] *)
Definition merge_config (o : Options) : Config :=
  {| selector := default "[data-trigger]" (opt_selector o);
     triggerAttribute := default "data-trigger" (opt_triggerAttribute o);
     threshold := default (Scalar 0) (opt_threshold o);
     rootMargin := default "0px" (opt_rootMargin o);
     debounceDelay := default 10 (opt_debounceDelay o);
     onChange := opt_onChange o;
     debug := default false (opt_debug o) |}.

(** ** The host page, as the methods query it *)

Record ComputedStyle := {
  display : string;
  visibility : string;
  position : string;
  overflow : string
}.

Record Page := {
  loading : bool;                                   (* document.readyState === 'loading' *)
  querySelectorAll : string → Completion (list Element);
      (* document.querySelectorAll(selector): the matches in document order,
         or the SyntaxError for a selector the host cannot parse *)
  getAttribute : Element → string → option string;
  rectTop : Element → Q;                            (* getBoundingClientRect().top *)
  offsetHeight : Element → Z;
  getComputedStyle : Element → ComputedStyle;
  innerHeight : Z;
  hasBody : bool;                                   (* document.body !== null *)
  bodyScrollHeight : Z;                             (* read only when the body exists *)
  htmlScrollHeight : Z;
  bodyStyle : ComputedStyle;                        (* read only when the body exists *)
  htmlStyle : ComputedStyle;
  viewportMeta : bool;                              (* a meta[name="viewport"] exists *)
  hasIntersectionObserver : bool;                   (* window.IntersectionObserver *)
  acceptsObserverOptions : Threshold → string → bool;
      (* whether [new IntersectionObserver(cb, {threshold, rootMargin})]
         completes normally in this host *)
  randomSuffix : string                             (* Math.random().toString(36).substr(2, 9) *)
}.

(** ** Diagnostics data *)

(** The human-readable [message] and [suggestion] texts of an issue are not
    modelled; [type], [severity] and [element] are. *)
Record Issue := {
  type : string;
  severity : string;
  element : option Element
}.

Record Summary := {
  totalElements : nat;
  problematicElements : nat;
  performanceScore : Q;
  timestamp : Z
}.

Record Report := {
  status : string;
  issues : list Issue;
  summary : Summary
}.

(** ** Instance state *)

(** An [IntersectionObserver]: the targets it currently watches. *)
Record IntersectionObserver := { targets : gset Element }.

Record ScrollySystem := {
  config : Config;
  observer : option IntersectionObserver;
  visibleElements : list (Element * option string);
  currentTriggerId : option string;
  lastValidTriggerId : option string;
  _debounceTimer : option nat;
  instanceId : string;
  _diagnosticCache : gmap string Report
}.

Definition set_observer (o : option IntersectionObserver) (s : ScrollySystem) :=
  {| config := config s; observer := o; visibleElements := visibleElements s;
     currentTriggerId := currentTriggerId s; lastValidTriggerId := lastValidTriggerId s;
     _debounceTimer := _debounceTimer s; instanceId := instanceId s;
     _diagnosticCache := _diagnosticCache s |}.

Definition set_visibleElements (m : list (Element * option string)) (s : ScrollySystem) :=
  {| config := config s; observer := observer s; visibleElements := m;
     currentTriggerId := currentTriggerId s; lastValidTriggerId := lastValidTriggerId s;
     _debounceTimer := _debounceTimer s; instanceId := instanceId s;
     _diagnosticCache := _diagnosticCache s |}.

Definition set_currentTriggerId (i : option string) (s : ScrollySystem) :=
  {| config := config s; observer := observer s; visibleElements := visibleElements s;
     currentTriggerId := i; lastValidTriggerId := lastValidTriggerId s;
     _debounceTimer := _debounceTimer s; instanceId := instanceId s;
     _diagnosticCache := _diagnosticCache s |}.

Definition set_lastValidTriggerId (i : option string) (s : ScrollySystem) :=
  {| config := config s; observer := observer s; visibleElements := visibleElements s;
     currentTriggerId := currentTriggerId s; lastValidTriggerId := i;
     _debounceTimer := _debounceTimer s; instanceId := instanceId s;
     _diagnosticCache := _diagnosticCache s |}.

Definition set_debounceTimer (t : option nat) (s : ScrollySystem) :=
  {| config := config s; observer := observer s; visibleElements := visibleElements s;
     currentTriggerId := currentTriggerId s; lastValidTriggerId := lastValidTriggerId s;
     _debounceTimer := t; instanceId := instanceId s;
     _diagnosticCache := _diagnosticCache s |}.

Definition set_diagnosticCache (c : gmap string Report) (s : ScrollySystem) :=
  {| config := config s; observer := observer s; visibleElements := visibleElements s;
     currentTriggerId := currentTriggerId s; lastValidTriggerId := lastValidTriggerId s;
     _debounceTimer := _debounceTimer s; instanceId := instanceId s;
     _diagnosticCache := c |}.

(** ** The host's mutable side: clock, timers, observable effects *)

(** What a pending [setTimeout] callback of this class does when it runs. *)
Inductive Task :=
| DebouncedUpdate                       (* () => func.apply(this, args) *)
| EvictDiagnostic (cacheKey : string).  (* () => this._diagnosticCache.delete(cacheKey) *)

Record Timer := { tid : nat; due : Z; task : Task }.

Inductive Effect :=
| OnChangeCall (d : Detail)       (* this.config.onChange(detail) *)
| DispatchEvent (d : Detail)      (* window.dispatchEvent(new CustomEvent('scrollTrigger', {detail})) *)
| ConsoleReport (r : Report).     (* _outputDiagnosticResults(result) *)

(** One execution of [updateCurrentTrigger]: when it ran and the Visible Set
    it read.  Kept by the host model as a trace; the program does not read it. *)
Record Pass := { pass_time : Z; pass_visible : list (Element * option string) }.

Record World := {
  this : ScrollySystem;
  clock : Z;                      (* Date.now(), in milliseconds *)
  timers : list Timer;            (* pending timeouts, oldest first *)
  nextTimerId : nat;
  domReadyListener : bool;        (* the DOMContentLoaded listener of init() is registered;
                                     nothing removes it *)
  effects : list Effect;          (* oldest first *)
  passes : list Pass              (* oldest first *)
}.

Definition with_this (f : ScrollySystem → ScrollySystem) (w : World) : World :=
  {| this := f (this w); clock := clock w; timers := timers w;
     nextTimerId := nextTimerId w; domReadyListener := domReadyListener w;
     effects := effects w; passes := passes w |}.

Definition set_clock (t : Z) (w : World) : World :=
  {| this := this w; clock := t; timers := timers w;
     nextTimerId := nextTimerId w; domReadyListener := domReadyListener w;
     effects := effects w; passes := passes w |}.

Definition set_timers (l : list Timer) (w : World) : World :=
  {| this := this w; clock := clock w; timers := l;
     nextTimerId := nextTimerId w; domReadyListener := domReadyListener w;
     effects := effects w; passes := passes w |}.

Definition set_nextTimerId (n : nat) (w : World) : World :=
  {| this := this w; clock := clock w; timers := timers w;
     nextTimerId := n; domReadyListener := domReadyListener w;
     effects := effects w; passes := passes w |}.

Definition set_domReadyListener (b : bool) (w : World) : World :=
  {| this := this w; clock := clock w; timers := timers w;
     nextTimerId := nextTimerId w; domReadyListener := b;
     effects := effects w; passes := passes w |}.

Definition emit (e : Effect) (w : World) : World :=
  {| this := this w; clock := clock w; timers := timers w;
     nextTimerId := nextTimerId w; domReadyListener := domReadyListener w;
     effects := effects w ++ [e]; passes := passes w |}.

Definition record_pass (w : World) : World :=
  {| this := this w; clock := clock w; timers := timers w;
     nextTimerId := nextTimerId w; domReadyListener := domReadyListener w;
     effects := effects w;
     passes := passes w ++ [{| pass_time := clock w;
                               pass_visible := visibleElements (this w) |}] |}.

(** A call on the instance: how it completes and the world it leaves.  What
    a call has changed before it throws stays changed. *)
Definition Call (A : Type) : Type := World → Completion A * World.

(** The host takes the delay of a timer as a 32-bit signed integer (a Web
    IDL [long]): an integer outside of [-2^31, 2^31) wraps around modulo
    2^32. *)
Definition to_long (n : Z) : Z := (n + 2147483648) mod 4294967296 - 2147483648.
Arguments to_long : simpl never.

(** [setTimeout(task, wait)]: the delay is converted to a [long], and a
    negative delay counts as zero; returns the new id. *)
Definition setTimeout (k : Task) (wait : Z) (w : World) : nat * World :=
  let id := nextTimerId w in
  (id, set_nextTimerId (S id)
         (set_timers (timers w ++ [{| tid := id; due := clock w + Z.max 0 (to_long wait);
                                      task := k |}]) w)).

(** [clearTimeout(id)]: [null] and ids that are not pending are ignored. *)
Definition clearTimeout (id : option nat) (w : World) : World :=
  match id with
  | None => w
  | Some i => set_timers (filter (λ tm, tid tm ≠ i) (timers w)) w
  end.

(** ** The change notifier *)

(** [emitTriggerChange(currentId, previousId)]: the callback is called
    first; when it throws, nothing catches the exception and the event is
    not dispatched.  [window.dispatchEvent] itself returns whatever the
    listeners of the event do. *)
Definition emitTriggerChange (currentId previousId : option string) : Call unit :=
  λ w,
  let detail := {| current := currentId; previous := previousId;
                   d_timestamp := clock w; d_instanceId := instanceId (this w) |} in
  match onChange (config (this w)) with
  | Some callback =>
      let w1 := emit (OnChangeCall detail) w in
      match callback detail with
      | Normal _ => (Normal (), emit (DispatchEvent detail) w1)
      | Throw error => (Throw error, w1)
      end
  | None => (Normal (), emit (DispatchEvent detail) w)
  end.

(** [setCurrentTrigger(triggerId)] *)
Definition setCurrentTrigger (triggerId : option string) : Call unit :=
  λ w,
  if decide (currentTriggerId (this w) ≠ triggerId) then
    let previousTriggerId := currentTriggerId (this w) in
    emitTriggerChange triggerId previousTriggerId
      (with_this (set_currentTriggerId triggerId) w)
  else (Normal (), w).

(** ** The resolver *)

(** The callback of the [reduce] in [updateCurrentTrigger]. *)
Definition higher (page : Page) (prev curr : Element * option string)
  : Element * option string :=
  if Qlt_bool (rectTop page curr.1) (rectTop page prev.1) then curr else prev.

(** [updateCurrentTrigger()] *)
Definition updateCurrentTrigger (page : Page) : Call unit :=
  λ w,
  match visibleElements (this w) with
  | first :: rest =>
      let topEntry := reduce (higher page) first rest in
      let triggerId := topEntry.2 in
      setCurrentTrigger triggerId (with_this (set_lastValidTriggerId triggerId) w)
  | [] =>
      match lastValidTriggerId (this w) with
      | Some id => setCurrentTrigger (Some id) w
      | None => (Normal (), w)
      end
  end.

(** [getCurrentTriggerId()] *)
Definition getCurrentTriggerId (w : World) : option string :=
  currentTriggerId (this w).

(** ** The debounce scheduler *)

(** The function returned by [debounce(() => this.updateCurrentTrigger(), wait)],
    called: the pending timer is cleared and a new one is started. *)
Definition debouncedUpdate (w : World) : World :=
  let w1 := clearTimeout (_debounceTimer (this w)) w in
  let '(id, w2) := setTimeout DebouncedUpdate (debounceDelay (config (this w))) w1 in
  with_this (set_debounceTimer (Some id)) w2.

(** ** Visibility-event intake *)

Record IOEntry := { target : Element; isIntersecting : bool }.

(** The body of [entries.forEach(entry => ...)] in the observer's callback. *)
Definition intake (page : Page) (s : ScrollySystem) (entry : IOEntry) : ScrollySystem :=
  let element := target entry in
  let triggerId := getAttribute page element (triggerAttribute (config s)) in
  if isIntersecting entry
  then set_visibleElements (Map_set element triggerId (visibleElements s)) s
  else set_visibleElements (Map_delete element (visibleElements s)) s.

(** The callback given to [new IntersectionObserver] in [setupObserver]. *)
Definition observerCallback (page : Page) (entries : list IOEntry) (w : World) : World :=
  debouncedUpdate (with_this (λ s, foldl (intake page) s entries) w).

(** ** Lifecycle *)

(** A resolution pass as the host sees it: [updateCurrentTrigger()] runs, and
    the trace of passes is extended. *)
Definition resolutionPass (page : Page) : Call unit :=
  λ w, updateCurrentTrigger page (record_pass w).

(** [setupObserver()]: the host's constructor may throw, and so may the
    query for the targets, after the new observer has been stored; nothing
    in the class catches either. *)
Definition setupObserver (page : Page) : Call unit :=
  λ w,
  let cfg := config (this w) in
  if negb (hasIntersectionObserver page) then (Throw "ReferenceError", w)
  else if negb (acceptsObserverOptions page (threshold cfg) (rootMargin cfg))
  then (Throw "IntersectionObserver", w)
  else
    let w1 := with_this (set_observer (Some {| targets := ∅ |})) w in
    match querySelectorAll page (selector cfg) with
    | Normal targets =>
        (Normal (), with_this (set_observer (Some {| targets := list_to_set targets |})) w1)
    | Throw error => (Throw error, w1)
    end.

(** [setup()] *)
Definition setup (page : Page) : Call unit :=
  λ w,
  match setupObserver page w with
  | (Normal _, w1) => resolutionPass page w1
  | (Throw error, w1) => (Throw error, w1)
  end.

(** [init()] *)
Definition init (page : Page) : Call unit :=
  λ w,
  if loading page then (Normal (), set_domReadyListener true w)
  else setup page w.

(** The fields as the constructor sets them before it calls [init()], at
    host time [now]. *)
Definition fresh (page : Page) (now : Z) (options : Options) : World :=
  {| this := {| config := merge_config options;
                observer := None;
                visibleElements := [];
                currentTriggerId := None;
                lastValidTriggerId := None;
                _debounceTimer := None;
                instanceId := "scrolly-" +:+ pretty now +:+ "-" +:+ randomSuffix page;
                _diagnosticCache := ∅ |};
     clock := now; timers := []; nextTimerId := 1;
     domReadyListener := false; effects := []; passes := [] |}.

(** [new ScrollySystem(options)]: the instance, unless the constructor
    throws. *)
Definition new_ScrollySystem (page : Page) (now : Z) (options : Options)
  : Completion World :=
  match init page (fresh page now options) with
  | (Normal _, w) => Normal w
  | (Throw error, _) => Throw error
  end.

(** [observe(element)]; [element] may be [null]. *)
Definition observe (element : option Element) (s : ScrollySystem) : ScrollySystem :=
  match observer s, element with
  | Some o, Some e => set_observer (Some {| targets := {[e]} ∪ targets o |}) s
  | _, _ => s
  end.

(** [unobserve(element)] *)
Definition unobserve (element : option Element) (s : ScrollySystem) : ScrollySystem :=
  match observer s, element with
  | Some o, Some e =>
      set_visibleElements (Map_delete e (visibleElements s))
        (set_observer (Some {| targets := targets o ∖ {[e]} |}) s)
  | _, _ => s
  end.

(** [destroy()].  The timer id is tested for truthiness, the observer is
    disconnected and kept. *)
Definition destroy (w : World) : World :=
  let w1 := match _debounceTimer (this w) with
            | Some id => if decide (id = 0%nat) then w else clearTimeout (Some id) w
            | None => w
            end in
  let disconnect s := match observer s with
                      | Some _ => set_observer (Some {| targets := ∅ |}) s
                      | None => s
                      end in
  with_this (λ s, set_diagnosticCache ∅
                    (set_lastValidTriggerId None
                       (set_currentTriggerId None
                          (set_visibleElements [] (disconnect s))))) w1.

(** ** The diagnostics engine *)

Definition mkIssue (ty sev : string) (el : option Element) : Issue :=
  {| type := ty; severity := sev; element := el |}.

(** [!triggerId] *)
Definition falsy (a : option string) : bool :=
  match a with
  | None => true
  | Some v => bool_decide (v = "")
  end.

(** The body of [elements.forEach((element, index) => ...)] in
    [validateElements]; the accumulator is [issues] and the [triggerIds] set. *)
Definition validateElement (page : Page) (cfg : Config)
    (acc : list Issue * gset string) (el : Element) : list Issue * gset string :=
  let '(issues, triggerIds) := acc in
  let triggerId := getAttribute page el (triggerAttribute cfg) in
  let styles := getComputedStyle page el in
  let '(issues, triggerIds) :=
    if falsy triggerId then
      (issues ++ [mkIssue "missing_trigger_id" "error" (Some el)], triggerIds)
    else if bool_decide (default "" triggerId ∈ triggerIds) then
      (issues ++ [mkIssue "duplicate_trigger_id" "error" (Some el)], triggerIds)
    else (issues, {[default "" triggerId]} ∪ triggerIds) in
  let elementHeight := offsetHeight page el in
  let issues :=
    if Qlt_bool (inject_Z elementHeight) (inject_Z (innerHeight page) * (1 # 2))
    then issues ++ [mkIssue "insufficient_height" "warning" (Some el)]
    else issues in
  let issues :=
    if bool_decide (display styles = "none")
    then issues ++ [mkIssue "element_hidden" "error" (Some el)]
    else if bool_decide (visibility styles = "hidden")
    then issues ++ [mkIssue "element_visibility_hidden" "warning" (Some el)]
    else issues in
  let issues :=
    if bool_decide (position styles = "fixed")
    then issues ++ [mkIssue "fixed_position" "warning" (Some el)]
    else issues in
  (issues, triggerIds).

(** [validateElements()] *)
Definition validateElements (page : Page) (cfg : Config) : Completion (list Issue) :=
  elements ← querySelectorAll page (selector cfg);
  mret (if bool_decide (length elements = 0%nat)
        then [mkIssue "no_elements" "error" None]
        else (foldl (validateElement page cfg) ([], ∅) elements).1).

(** [checkPerformance()] *)
Definition checkPerformance (page : Page) (cfg : Config) : Completion (list Issue) :=
  elements ← querySelectorAll page (selector cfg);
  let issues := [] in
  let issues :=
    if bool_decide (50 < length elements)%nat
    then issues ++ [mkIssue "too_many_elements" "warning" None]
    else issues in
  let issues :=
    match threshold cfg with
    | Ratios ts =>
        if bool_decide (5 < length ts)%nat
        then issues ++ [mkIssue "complex_threshold" "warning" None]
        else issues
    | Scalar t =>
        if Qeq_bool t 1
        then issues ++ [mkIssue "high_threshold" "warning" None]
        else issues
    end in
  let issues :=
    if bool_decide (100 < debounceDelay cfg)
    then issues ++ [mkIssue "high_debounce" "info" None]
    else if bool_decide (debounceDelay cfg < 5)
    then issues ++ [mkIssue "low_debounce" "info" None]
    else issues in
  mret issues.

(** [_checkEnvironment()]: reading [document.body.scrollHeight] throws a
    TypeError when the document has no body (yet). *)
Definition _checkEnvironment (page : Page) : Completion (list Issue) :=
  if negb (hasBody page) then Throw "TypeError" else
  let issues := [] in
  let documentHeight := Z.max (bodyScrollHeight page) (htmlScrollHeight page) in
  let viewportHeight := innerHeight page in
  let issues :=
    if bool_decide (documentHeight ≤ viewportHeight)
    then issues ++ [mkIssue "no_scroll" "error" None]
    else issues in
  let issues :=
    if bool_decide (overflow (bodyStyle page) = "hidden")
       || bool_decide (overflow (htmlStyle page) = "hidden")
    then issues ++ [mkIssue "overflow_hidden" "error" None]
    else issues in
  let issues :=
    if negb (viewportMeta page)
    then issues ++ [mkIssue "no_viewport_meta" "warning" None]
    else issues in
  let issues :=
    if negb (hasIntersectionObserver page)
    then issues ++ [mkIssue "no_intersection_observer" "error" None]
    else issues in
  mret issues.

(** [issues.some(issue => issue.severity === sev)] *)
Definition some_severity (sev : string) (issues : list Issue) : bool :=
  existsb (λ issue, bool_decide (severity issue = sev)) issues.

(** [_determineStatus(issues)] *)
Definition _determineStatus (issues : list Issue) : string :=
  if some_severity "error" issues then "error"
  else if some_severity "warning" issues then "warning"
  else "ok".

(** [_countProblematicElements(issues)] *)
Definition _countProblematicElements (issues : list Issue) : nat :=
  let problematicElements : gset Element :=
    foldl (λ acc issue, match element issue with
                        | Some el => {[el]} ∪ acc
                        | None => acc
                        end) ∅ issues in
  size problematicElements.

(** The body of the [switch] in [_calculatePerformanceScore]. *)
Definition deduct (score : Q) (issue : Issue) : Q :=
  if bool_decide (severity issue = "error") then (score - 3)%Q
  else if bool_decide (severity issue = "warning") then (score - 1)%Q
  else if bool_decide (severity issue = "info") then (score - (1 # 2))%Q
  else score.

(** [_calculatePerformanceScore(issues)] *)
Definition _calculatePerformanceScore (issues : list Issue) : Q :=
  let score := foldl deduct 10%Q issues in
  Math_max 0 score.

(** [`diagnose_${verbose}`] *)
Definition cacheKeyOf (verbose : bool) : string :=
  "diagnose_" +:+ (if verbose then "true" else "false").

(** The queries and checks of [diagnose]: the elements and the issues, in
    the order of the calls.  Each of the four calls can throw, and none has
    changed anything by then. *)
Definition collectIssues (page : Page) (cfg : Config)
  : Completion (list Element * list Issue) :=
  elements ← querySelectorAll page (selector cfg);
  elementIssues ← validateElements page cfg;
  performanceIssues ← checkPerformance page cfg;
  environmentIssues ← _checkEnvironment page;
  mret (elements, elementIssues ++ performanceIssues ++ environmentIssues).

(** [diagnose(verbose)] *)
Definition diagnose (page : Page) (verbose : bool) : Call Report :=
  λ w,
  let cfg := config (this w) in
  let cacheKey := cacheKeyOf verbose in
  match _diagnosticCache (this w) !! cacheKey with
  | Some cached => (Normal cached, w)
  | None =>
      match collectIssues page cfg with
      | Throw error => (Throw error, w)
      | Normal (elements, issues) =>
          let result :=
            {| status := _determineStatus issues;
               issues := issues;
               summary := {| totalElements := length elements;
                             problematicElements := _countProblematicElements issues;
                             performanceScore := _calculatePerformanceScore issues;
                             timestamp := clock w |} |} in
          let w1 := if debug cfg || verbose then emit (ConsoleReport result) w else w in
          let w2 := with_this (λ s, set_diagnosticCache
                                      (<[cacheKey := result]> (_diagnosticCache s)) s) w1 in
          let '(_, w3) := setTimeout (EvictDiagnostic cacheKey) 5000 w2 in
          (Normal result, w3)
      end
  end.

(** ** The host's event loop *)

(** What a timer callback does when it runs.  An exception that leaves the
    callback is reported by the host; the instance stays as the callback
    left it. *)
Definition runTask (page : Page) (k : Task) (w : World) : World :=
  match k with
  | DebouncedUpdate => (resolutionPass page w).2
  | EvictDiagnostic cacheKey =>
      with_this (λ s, set_diagnosticCache (delete cacheKey (_diagnosticCache s)) s) w
  end.

(** The pending timer that is due first; among equal due times, the oldest. *)
Fixpoint earliest (l : list Timer) : option Timer :=
  match l with
  | [] => None
  | tm :: rest =>
      match earliest rest with
      | Some tm' => if bool_decide (due tm' < due tm) then Some tm' else Some tm
      | None => Some tm
      end
  end.

(** Run, in due order, the pending timers that are due at or before [limit].
    No task of this class starts a timer, so [fuel] = the number of pending
    timers is enough. *)
Fixpoint runDue (fuel : nat) (page : Page) (limit : Z) (w : World) : World :=
  match fuel with
  | O => w
  | S fuel' =>
      match earliest (timers w) with
      | Some tm =>
          if bool_decide (due tm ≤ limit) then
            let w1 := set_clock (Z.max (clock w) (due tm))
                        (set_timers (filter (λ x, tid x ≠ tid tm) (timers w)) w) in
            runDue fuel' page limit (runTask page (task tm) w1)
          else w
      | None => w
      end
  end.

(** Time passes until [t].  Timers due before [t] run; a timer due exactly at
    [t] runs now when [inclusive], and is left pending (to run after whatever
    the host does next at [t]) otherwise. *)
Definition advance (page : Page) (inclusive : bool) (t : Z) (w : World) : World :=
  let limit := if inclusive then t else t - 1 in
  let w1 := runDue (length (timers w)) page limit w in
  set_clock (Z.max (clock w1) t) w1.

(** What can happen to an instance.  [DOMContentLoaded] is the event
    reaching the document, whoever dispatches it.  [Intersections] is a
    batch delivered to the observer callback, by the observer in
    [this.observer] or by one that a later [setup()] replaced there without
    disconnecting it; whenever either exists, [this.observer] is set. *)
Inductive Event :=
| Advance (inclusive : bool) (t : Z)
| DOMContentLoaded
| Intersections (entries : list IOEntry)
| Call_observe (element : option Element)
| Call_unobserve (element : option Element)
| Call_getCurrentTriggerId
| Call_diagnose (verbose : bool)
| Call_destroy.

Definition step (w : World) (pe : Page * Event) : World :=
  let '(page, ev) := pe in
  match ev with
  | Advance inclusive t => advance page inclusive t w
  | DOMContentLoaded =>
      (* the listener [() => this.setup()]; the host reports what it throws *)
      if domReadyListener w then (setup page w).2 else w
  | Intersections entries =>
      match observer (this w) with
      | Some _ => observerCallback page entries w
      | None => w
      end
  | Call_observe el => with_this (observe el) w
  | Call_unobserve el => with_this (unobserve el) w
  | Call_getCurrentTriggerId => w
  | Call_diagnose verbose => (diagnose page verbose w).2
  | Call_destroy => destroy w
  end.

Definition run (trace : list (Page * Event)) (w : World) : World :=
  foldl step w trace.

(** ** Sample hosts used by the concrete checks below *)

Definition plainStyle : ComputedStyle :=
  {| display := "block"; visibility := "visible"; position := "static";
     overflow := "visible" |}.

(** A page with three sections: element 1 is "intro", element 2 is
    "section1", element 3 carries no trigger attribute; [tops] gives their
    viewport-relative top coordinates.  Every selector but the empty one
    parses, and matches the first two sections. *)
Definition samplePage (tops : Element → Q) : Page :=
  {| loading := false;
     querySelectorAll := λ sel, if decide (sel = "") then Throw "SyntaxError"
                                else Normal [1; 2]%nat;
     getAttribute := λ el _, match el with
                             | 1%nat => Some "intro"
                             | 2%nat => Some "section1"
                             | _ => None
                             end;
     rectTop := tops;
     offsetHeight := λ _, 900;
     getComputedStyle := λ _, plainStyle;
     innerHeight := 800;
     hasBody := true;
     bodyScrollHeight := 3000;
     htmlScrollHeight := 3000;
     bodyStyle := plainStyle;
     htmlStyle := plainStyle;
     viewportMeta := true;
     hasIntersectionObserver := true;
     acceptsObserverOptions := λ _ _, true;
     randomSuffix := "k3x9q2m1z" |}.

Definition topsA : Element → Q :=
  λ el, match el with 1%nat => 40%Q | 2%nat => (-15 # 2)%Q | _ => 40%Q end.

(** The instance built on the sample page at time 1000, with the defaults. *)
Definition sampleWorld : World :=
  match new_ScrollySystem (samplePage topsA) 1000 no_options with
  | Normal w => w
  | Throw _ =>
      {| this := {| config := merge_config no_options; observer := None;
                    visibleElements := []; currentTriggerId := None;
                    lastValidTriggerId := None; _debounceTimer := None;
                    instanceId := ""; _diagnosticCache := ∅ |};
         clock := 1000; timers := []; nextTimerId := 1;
         domReadyListener := false; effects := []; passes := [] |}
  end.

Definition enter (el : Element) : IOEntry := {| target := el; isIntersecting := true |}.
Definition leave (el : Element) : IOEntry := {| target := el; isIntersecting := false |}.

(** * Vocabulary of the properties, and sample data *)

(** ** Resolution and notification *)

(** The top coordinate of a Visible Set entry's element. *)
Definition top_of (page : Page) (entry : Element * option string) : Q :=
  rectTop page entry.1.

(** Both sample sections are visible, "intro" reported first; the timer of
    the batch has not fired yet. *)
Definition worldBoth : World :=
  run [(samplePage topsA, Intersections [enter 1%nat; enter 2%nat])] sampleWorld.

(** The payload of a change to [id] in world [w]. *)
Definition changeTo (id : option string) (w : World) : Detail :=
  {| current := id; previous := currentTriggerId (this w);
     d_timestamp := clock w; d_instanceId := instanceId (this w) |}.

(** The notifications a change to [id] produces in world [w]: the call of
    the callback, when one is configured, then the broadcast, unless the
    callback threw. *)
Definition notifications (id : option string) (w : World) : list Effect :=
  match onChange (config (this w)) with
  | Some callback =>
      OnChangeCall (changeTo id w)
      :: (if returns (callback (changeTo id w)) then [DispatchEvent (changeTo id w)] else [])
  | None => [DispatchEvent (changeTo id w)]
  end.

(** The payloads broadcast so far, oldest first. *)
Definition dispatched (log : list Effect) : list Detail :=
  omap (λ e, match e with DispatchEvent d => Some d | _ => None end) log.

(** The payloads the [onChange] callback was called with, oldest first. *)
Definition calledBack (log : list Effect) : list Detail :=
  omap (λ e, match e with OnChangeCall d => Some d | _ => None end) log.

(** C3 as the specification words it: a resolution to an identifier that
    differs from the current one is broadcast. *)
Definition broadcasts_every_change (id : option string) (w : World) : Prop :=
  currentTriggerId (this w) ≠ id →
  dispatched (effects (setCurrentTrigger id w).2)
  = dispatched (effects w) ++ [changeTo id w].

(** The options [o] with [onChange: callback]. *)
Definition with_onChange (callback : Callback) (o : Options) : Options :=
  {| opt_selector := opt_selector o; opt_triggerAttribute := opt_triggerAttribute o;
     opt_threshold := opt_threshold o; opt_rootMargin := opt_rootMargin o;
     opt_debounceDelay := opt_debounceDelay o; opt_onChange := Some callback;
     opt_debug := opt_debug o |}.

(** A callback that throws whenever "section1" becomes current, and the
    sample instance configured with it. *)
Definition failingCallback : Callback :=
  λ detail, if decide (current detail = Some "section1") then Throw "Error" else Normal ().

Definition worldFailing : World :=
  match new_ScrollySystem (samplePage topsA) 1000 (with_onChange failingCallback no_options) with
  | Normal w => w
  | Throw _ => sampleWorld
  end.

(** ** Diagnostics *)

(** How many issues carry the severity [sev]. *)
Definition count_severity (sev : string) (issues : list Issue) : nat :=
  length (filter (λ issue, severity issue = sev) issues).

(** A count as a rational. *)
Definition qn (n : nat) : Q := inject_Z (Z.of_nat n).

(** The page can be diagnosed: the selector parses and the document has a
    body. *)
Definition diagnosable (page : Page) (cfg : Config) : Prop :=
  returns (querySelectorAll page (selector cfg)) = true ∧ hasBody page = true.

(** Without a cached report, [diagnose] computes one from the page and the
    configuration alone, or throws. *)
Definition freshReport (page : Page) (cfg : Config) (now : Z) : Completion Report :=
  elements ← querySelectorAll page (selector cfg);
  elementIssues ← validateElements page cfg;
  performanceIssues ← checkPerformance page cfg;
  environmentIssues ← _checkEnvironment page;
  let issues := elementIssues ++ performanceIssues ++ environmentIssues in
  mret {| status := _determineStatus issues;
          issues := issues;
          summary := {| totalElements := length elements;
                        problematicElements := _countProblematicElements issues;
                        performanceScore := _calculatePerformanceScore issues;
                        timestamp := now |} |}.

(** The performance score [diagnose] reports, or the error it throws. *)
Definition diagnosedScore (page : Page) (verbose : bool) (w : World) : Completion Q :=
  report ← (diagnose page verbose w).1; mret (performanceScore (summary report)).

(** ** Lifecycle *)

(** "intro" has been resolved and emitted. *)
Definition worldIntro : World :=
  run [(samplePage topsA, Intersections [enter 1%nat]);
       (samplePage topsA, Advance true 1100)] sampleWorld.


(** The error that a public operation raises to its caller, if any: of the
    public operations only [diagnose] can throw. *)
Definition failure (page : Page) (w : World) (ev : Event) : option string :=
  match ev with
  | Call_diagnose verbose =>
      match (diagnose page verbose w).1 with
      | Throw error => Some error
      | Normal _ => None
      end
  | _ => None
  end.


(** C10 as the specification words it: [destroy()] is the one event that
    takes the current identifier from a value back to null. *)
Definition only_destroy_resets (w : World) (pe : Page * Event) : Prop :=
  getCurrentTriggerId w ≠ None → getCurrentTriggerId (step w pe) = None →
  pe.2 = Call_destroy.

(** C9 as the specification words it: [observe(e)] then [unobserve(e)]
    restores the Visible Set and the performance score. *)
Definition observe_unobserve_roundtrip
    (page : Page) (verbose : bool) (w : World) (el : option Element) : Prop :=
  let w' := step (step w (page, Call_observe el)) (page, Call_unobserve el) in
  visibleElements (this w') = visibleElements (this w)
  ∧ diagnosedScore page verbose w' = diagnosedScore page verbose w.

(** The options [o] with [debounceDelay: d]. *)
Definition with_debounceDelay (d : Z) (o : Options) : Options :=
  {| opt_selector := opt_selector o; opt_triggerAttribute := opt_triggerAttribute o;
     opt_threshold := opt_threshold o; opt_rootMargin := opt_rootMargin o;
     opt_debounceDelay := Some d; opt_onChange := opt_onChange o;
     opt_debug := opt_debug o |}.

(** C6 as the specification words it: construction with a negative
    [debounceDelay] fails. *)
Definition rejects_negative_delay (page : Page) (now : Z) (o : Options) : Prop :=
  ∀ d, opt_debounceDelay o = Some d → d < 0 →
       ∃ error, new_ScrollySystem page now o = Throw error.

(** The host can set the observer up: it has [IntersectionObserver], takes
    the threshold and the root margin, and parses the selector. *)
Definition hostSetsUp (page : Page) (cfg : Config) : bool :=
  hasIntersectionObserver page
  && acceptsObserverOptions page (threshold cfg) (rootMargin cfg)
  && returns (querySelectorAll page (selector cfg)).

(** ** Threshold warnings *)

(** The issues that concern the threshold configuration. *)
Definition isThresholdIssue (issue : Issue) : Prop :=
  type issue = "complex_threshold" ∨ type issue = "high_threshold".

Global Instance isThresholdIssue_dec issue : Decision (isThresholdIssue issue).
Proof. unfold isThresholdIssue. apply _. Defined.

(** The threshold-related issues of a report. *)
Definition thresholdWarnings (issues : list Issue) : list Issue :=
  filter isThresholdIssue issues.

(** The threshold values with repetitions removed. *)
Fixpoint distinctRatios (ts : list Q) : list Q :=
  match ts with
  | [] => []
  | t :: rest =>
      if existsb (Qeq_bool t) rest then distinctRatios rest
      else t :: distinctRatios rest
  end.

(** How many distinct values the threshold configuration contains. *)
Definition distinctCount (t : Threshold) : nat :=
  match t with
  | Scalar _ => 1
  | Ratios ts => length (distinctRatios ts)
  end.

(** C8 as the specification words it: the "complex" warning goes with more
    than 5 distinct threshold values, the "high" warning with a threshold of
    exactly 1.0. *)
Definition warns_as_specified (page : Page) (cfg : Config) : Prop :=
  ∀ performanceIssues, checkPerformance page cfg = Normal performanceIssues →
  (mkIssue "complex_threshold" "warning" None ∈ performanceIssues
   ↔ (5 < distinctCount (threshold cfg))%nat)
  ∧ (mkIssue "high_threshold" "warning" None ∈ performanceIssues
     ↔ ∃ t, threshold cfg = Scalar t ∧ (t == 1)%Q).

(** The configuration [cfg] with [threshold: t]. *)
Definition with_threshold (t : Threshold) (cfg : Config) : Config :=
  {| selector := selector cfg; triggerAttribute := triggerAttribute cfg;
     threshold := t; rootMargin := rootMargin cfg;
     debounceDelay := debounceDelay cfg; onChange := onChange cfg;
     debug := debug cfg |}.

(** What [checkPerformance] says about the threshold. *)
Definition expectedThresholdWarnings (t : Threshold) : list Issue :=
  match t with
  | Ratios ts =>
      if bool_decide (5 < length ts)%nat
      then [mkIssue "complex_threshold" "warning" None] else []
  | Scalar t =>
      if Qeq_bool t 1 then [mkIssue "high_threshold" "warning" None] else []
  end.

(** The sample instance, had it been configured with six equal ratios. *)
Definition worldSixRatios : World :=
  with_this (λ s, {| config := with_threshold (Ratios (replicate 6 (1 # 2)%Q)) (config s);
                     observer := observer s; visibleElements := visibleElements s;
                     currentTriggerId := currentTriggerId s;
                     lastValidTriggerId := lastValidTriggerId s;
                     _debounceTimer := _debounceTimer s; instanceId := instanceId s;
                     _diagnosticCache := _diagnosticCache s |}) sampleWorld.

(** ** Resolution passes along a run *)

(** A pass that read an empty, respectively a non-empty, Visible Set. *)
Definition emptyPass (p : Pass) : Prop := pass_visible p = [].
Definition visiblePass (p : Pass) : Prop := pass_visible p ≠ [].

(** Every entry the pass read carried an identifier (the element had the
    trigger attribute). *)
Definition taggedPass (p : Pass) : Prop :=
  Forall (λ entry : Element * option string, is_Some entry.2) (pass_visible p).

(** The invariant of the Resolution State along a run without teardown. *)
Definition sticky (w : World) : Prop :=
  lastValidTriggerId (this w) = currentTriggerId (this w)
  ∧ (Forall emptyPass (passes w) → currentTriggerId (this w) = None)
  ∧ (Forall taggedPass (passes w) → Exists visiblePass (passes w) →
     is_Some (currentTriggerId (this w))).

(** What [sticky] reads of a world. *)
Definition resolutionView (w : World) : option string * option string * list Pass :=
  (currentTriggerId (this w), lastValidTriggerId (this w), passes w).

(** C2 as the specification words it: once a resolution pass has read a
    non-empty Visible Set, the current identifier is not null. *)
Definition never_null_after_visible (w : World) : Prop :=
  Exists visiblePass (passes w) → getCurrentTriggerId w ≠ None.

(** "intro" is resolved; then element 3, which has no trigger attribute, is
    observed and becomes the only visible element. *)
Definition untaggedTrace : list (Page * Event) :=
  [(samplePage topsA, Intersections [enter 1%nat]);
   (samplePage topsA, Advance true 1100);
   (samplePage topsA, Call_observe (Some 3%nat));
   (samplePage topsA, Intersections [leave 1%nat; enter 3%nat]);
   (samplePage topsA, Advance true 1200)].

(** The scenario of the specification: "intro" becomes visible, then
    "section1" above it, then both leave. *)
Definition scenarioTrace : list (Page * Event) :=
  [(samplePage topsA, Intersections [enter 1%nat]);
   (samplePage topsA, Advance true 1100);
   (samplePage topsA, Intersections [enter 2%nat]);
   (samplePage topsA, Advance true 1200);
   (samplePage topsA, Intersections [leave 1%nat; leave 2%nat]);
   (samplePage topsA, Advance true 1300)].

(** ** Timers and batches *)

Global Instance Task_eq_dec : EqDecision Task.
Proof. solve_decision. Defined.

(** A pending timer of the debounce scheduler. *)
Definition isUpdate (tm : Timer) : Prop := task tm = DebouncedUpdate.

Global Instance isUpdate_dec tm : Decision (isUpdate tm).
Proof. unfold isUpdate. apply _. Defined.

(** The debounce timers that are pending. *)
Definition pendingUpdates (w : World) : list Timer := filter isUpdate (timers w).

(** When the resolution passes ran. *)
Definition passTimes (w : World) : list Z := pass_time <$> passes w.

(** The timer table is well formed: ids are unique and below the next id,
    and a pending debounce timer is the one [_debounceTimer] names. *)
Definition timersOk (w : World) : Prop :=
  NoDup (tid <$> timers w)
  ∧ Forall (λ tm, (tid tm < nextTimerId w)%nat) (timers w)
  ∧ Forall (λ tm, isUpdate tm → _debounceTimer (this w) = Some (tid tm)) (timers w).

(** A visibility-event batch as the host delivers it: at time [arrivesAt],
    after the timers due before then have run (and those due exactly then,
    when [timersFirst]), the observer's callback is called with [batch]. *)
Record Arrival := {
  arrivesAt : Z;
  timersFirst : bool;
  pageThen : Page;
  batch : list IOEntry
}.

(** The events of one arrival: time passes, then the callback runs. *)
Definition arrive (a : Arrival) : list (Page * Event) :=
  [(pageThen a, Advance (timersFirst a) (arrivesAt a));
   (pageThen a, Intersections (batch a))].

(** The events of a sequence of arrivals. *)
Definition deliver (arrivals : list Arrival) : list (Page * Event) :=
  concat (arrive <$> arrivals).

(** The batch [a] is delivered while the timer started at [t] is pending:
    less than [delay] after [t], or exactly [delay] after it when the host
    delivers the batch before it runs the timer due at that instant. *)
Definition arrivesBefore (delay t : Z) (a : Arrival) : Prop :=
  t ≤ arrivesAt a
  ∧ (arrivesAt a < t + delay ∨ (arrivesAt a = t + delay ∧ timersFirst a = false)).

(** The batch [a] is delivered after the timer started at [t] has run: more
    than [delay] after [t], or exactly [delay] after it when the host runs
    the due timer first. *)
Definition arrivesAfter (delay t : Z) (a : Arrival) : Prop :=
  t + delay < arrivesAt a ∨ (arrivesAt a = t + delay ∧ timersFirst a = true).

(** Each batch arrives while the timer of the previous one is pending. *)
Fixpoint near (delay t : Z) (arrivals : list Arrival) : Prop :=
  match arrivals with
  | [] => True
  | a :: rest => arrivesBefore delay t a ∧ near delay (arrivesAt a) rest
  end.

(** Each batch arrives after the timer of the previous one has run. *)
Fixpoint apart (delay t : Z) (arrivals : list Arrival) : Prop :=
  match arrivals with
  | [] => True
  | a :: rest => arrivesAfter delay t a ∧ apart delay (arrivesAt a) rest
  end.

(** Each batch arrives at most [delay] after the previous one. *)
Fixpoint within (delay t : Z) (ts : list Z) : Prop :=
  match ts with
  | [] => True
  | t' :: rest => t ≤ t' ≤ t + delay ∧ within delay t' rest
  end.

(** C4 as the specification words it, for batches in quick succession:
    they cause one resolution pass, [debounceDelay] ms after the last. *)
Definition coalesces (w0 : World) (first : Arrival) (rest : list Arrival)
    (pageEnd : Page) (tEnd : Z) : Prop :=
  let delay := debounceDelay (config (this w0)) in
  let tLast := default (arrivesAt first) (last (arrivesAt <$> rest)) in
  within delay (arrivesAt first) (arrivesAt <$> rest) → tLast + delay < tEnd →
  passTimes (run (deliver (first :: rest) ++ [(pageEnd, Advance true tEnd)]) w0)
  = passTimes w0 ++ [tLast + delay].

(** The delays the host's timers take as they are. *)
Definition timerDelay (d : Z) : Prop := 0 ≤ d < 2147483648.

(** A batch has been taken in at time [t]: its debounce timer is pending. *)
Definition armed (wait t : Z) (w : World) : Prop :=
  timersOk w ∧ is_Some (observer (this w))
  ∧ Z.max 0 (to_long (debounceDelay (config (this w)))) = wait
  ∧ clock w = t
  ∧ ∃ tm, pendingUpdates w = [tm] ∧ due tm = t + wait.

(** The times [t; t1; ...] without the last one. *)
Fixpoint allButLast (t : Z) (ts : list Z) : list Z :=
  match ts with
  | [] => []
  | t' :: rest => t :: allButLast t' rest
  end.

(** Three batches 7 ms apart, for the sample instance (debounce delay 10 ms,
    built at time 1000). *)
Definition burst : list Arrival :=
  [{| arrivesAt := 1005; timersFirst := true; pageThen := samplePage topsA;
      batch := [enter 1%nat] |};
   {| arrivesAt := 1012; timersFirst := false; pageThen := samplePage topsA;
      batch := [enter 2%nat] |};
   {| arrivesAt := 1019; timersFirst := true; pageThen := samplePage topsA;
      batch := [leave 1%nat] |}].

(** The sample instance, had it been configured with a debounce delay of
    2^31 ms, and two batches 5 ms apart. *)
Definition worldLongDelay : World :=
  match new_ScrollySystem (samplePage topsA) 1000
          (with_debounceDelay 2147483648 no_options) with
  | Normal w => w
  | Throw _ => sampleWorld
  end.

Definition twoBatches : list Arrival :=
  [{| arrivesAt := 1005; timersFirst := true; pageThen := samplePage topsA;
      batch := [enter 1%nat] |};
   {| arrivesAt := 1010; timersFirst := true; pageThen := samplePage topsA;
      batch := [enter 2%nat] |}].

(** The same three batches, 15 and 20 ms apart. *)
Definition spread : list Arrival :=
  [{| arrivesAt := 1005; timersFirst := true; pageThen := samplePage topsA;
      batch := [enter 1%nat] |};
   {| arrivesAt := 1020; timersFirst := false; pageThen := samplePage topsA;
      batch := [enter 2%nat] |};
   {| arrivesAt := 1040; timersFirst := true; pageThen := samplePage topsA;
      batch := [leave 1%nat] |}].

(** ** The Visible Set as a map *)

(** [Map.prototype.get], with [None] for an absent key. *)
Fixpoint Map_get {K V} `{EqDecision K} (k : K) (m : list (K * V)) : option V :=
  match m with
  | [] => None
  | (k', v) :: rest => if decide (k' = k) then Some v else Map_get k rest
  end.

(** What a batch says last about the element [e]: whether its last entry
    for [e] is intersecting; [None] when the batch has no entry for [e]. *)
Definition lastReport (e : Element) (entries : list IOEntry) : option bool :=
  isIntersecting <$> last (filter (λ entry, target entry = e) entries).

(** ** Coherence of a running instance *)

(** What every world reached from a construction satisfies, whatever
    happens to it ([destroy()] included). *)
Definition coherent (w : World) : Prop :=
  lastValidTriggerId (this w) = currentTriggerId (this w)
  ∧ NoDup (visibleElements (this w)).*1
  ∧ (observer (this w) = None →
     visibleElements (this w) = [] ∧ currentTriggerId (this w) = None)
  ∧ (0 < nextTimerId w)%nat
  ∧ _debounceTimer (this w) ≠ Some 0%nat.

(** ** Pages that differ in readiness only *)

Definition with_loading (b : bool) (p : Page) : Page :=
  {| loading := b;
     querySelectorAll := querySelectorAll p;
     getAttribute := getAttribute p;
     rectTop := rectTop p;
     offsetHeight := offsetHeight p;
     getComputedStyle := getComputedStyle p;
     innerHeight := innerHeight p;
     hasBody := hasBody p;
     bodyScrollHeight := bodyScrollHeight p;
     htmlScrollHeight := htmlScrollHeight p;
     bodyStyle := bodyStyle p;
     htmlStyle := htmlStyle p;
     viewportMeta := viewportMeta p;
     hasIntersectionObserver := hasIntersectionObserver p;
     acceptsObserverOptions := acceptsObserverOptions p;
     randomSuffix := randomSuffix p |}.

(** Nothing is tracked yet: [setup()] has not run. *)
Definition dormant (w : World) : Prop :=
  observer (this w) = None
  ∧ visibleElements (this w) = []
  ∧ currentTriggerId (this w) = None
  ∧ lastValidTriggerId (this w) = None
  ∧ dispatched (effects w) = []
  ∧ calledBack (effects w) = [].

(** The sample page while it is still loading, the instance built on it,
    and calls made before the page is ready. *)
Definition loadingPage : Page := with_loading true (samplePage topsA).

Definition loadingWorld : World :=
  match new_ScrollySystem loadingPage 1000 no_options with
  | Normal w => w
  | Throw _ => sampleWorld
  end.

Definition earlyCalls : list (Page * Event) :=
  [(loadingPage, Call_observe (Some 7%nat));
   (loadingPage, Advance true 1050);
   (loadingPage, Call_diagnose true);
   (loadingPage, Call_unobserve (Some 1%nat))].

(** Only time passes. *)
Definition isAdvance (pe : Page * Event) : Prop :=
  match pe.2 with
  | Advance _ _ => True
  | _ => False
  end.

(** ** Chains of notifications *)

(** The payloads form a chain from [prev]: each one is a real change, its
    [previous] is the identifier in force before it, and its [current] is
    the [previous] of the next one. *)
Fixpoint chained (prev : option string) (ds : list Detail) : Prop :=
  match ds with
  | [] => True
  | d :: rest => previous d = prev ∧ current d ≠ prev ∧ chained (current d) rest
  end.

(** The identifier in force after the notifications [ds], starting from [prev]. *)
Definition lastCurrent (prev : option string) (ds : list Detail) : option string :=
  foldl (λ _ d, current d) prev ds.

(** The changes of the current identifier that were notified: the calls of
    the callback when one is configured, the broadcasts otherwise. *)
Definition changes (w : World) : list Detail :=
  match onChange (config (this w)) with
  | Some _ => calledBack (effects w)
  | None => dispatched (effects w)
  end.

(** The broadcasts that go with the calls [ds] of the callback: those of
    the calls that returned. *)
Definition broadcastsOf (callback : option Callback) (ds : list Detail) : list Detail :=
  match callback with
  | Some f => filter (λ d, returns (f d) = true) ds
  | None => ds
  end.

(** The notified changes are a chain from null that ends at the current
    identifier; without a callback nothing is called, and with one the
    broadcasts are those of its calls that returned. *)
Definition notified (w : World) : Prop :=
  chained None (changes w)
  ∧ lastCurrent None (changes w) = currentTriggerId (this w)
  ∧ dispatched (effects w) = broadcastsOf (onChange (config (this w))) (changes w)
  ∧ (onChange (config (this w)) = None → calledBack (effects w) = []).

(** A destroyed instance left to itself: no debounce timer is pending and
    nothing is tracked. *)
Definition stopped (ps : list Pass) (es : list Effect) (w : World) : Prop :=
  pendingUpdates w = [] ∧ passes w = ps ∧ effects w = es
  ∧ visibleElements (this w) = [] ∧ currentTriggerId (this w) = None.

(** ** The host's discipline *)

(** The host reports an intersection only for an element the observer
    watches at that moment, and [DOMContentLoaded] does not reach the
    document again once the observer exists. *)
Definition reportsObserved (w : World) (ev : Event) : Prop :=
  match ev with
  | Intersections entries =>
      ∀ o, observer (this w) = Some o →
           Forall (λ entry, isIntersecting entry = true → target entry ∈ targets o) entries
  | DOMContentLoaded => observer (this w) = None
  | _ => True
  end.

(** It does so at every event of the trace. *)
Fixpoint hostDiscipline (trace : list (Page * Event)) (w : World) : Prop :=
  match trace with
  | [] => True
  | pe :: rest => reportsObserved w pe.2 ∧ hostDiscipline rest (step w pe)
  end.

(** Every element of the Visible Set is registered with the observer. *)
Definition visibleAreObserved (w : World) : Prop :=
  ∀ e, e ∈ (visibleElements (this w)).*1 →
       ∃ o, observer (this w) = Some o ∧ e ∈ targets o.

(** ** Conditions of the page that the diagnostics report as errors *)

(** Nothing matches the selector, the document is not taller than the
    viewport, the root or the body hides its overflow, or the host has no
    IntersectionObserver. *)
Definition unusablePage (page : Page) (cfg : Config) : Prop :=
  querySelectorAll page (selector cfg) = Normal []
  ∨ Z.max (bodyScrollHeight page) (htmlScrollHeight page) ≤ innerHeight page
  ∨ overflow (bodyStyle page) = "hidden"
  ∨ overflow (htmlStyle page) = "hidden"
  ∨ hasIntersectionObserver page = false.

(** A page on which nothing matches the default selector. *)
Definition emptyPage : Page :=
  {| loading := false;
     querySelectorAll := λ _, Normal [];
     getAttribute := λ _ _, None;
     rectTop := λ _, 0%Q;
     offsetHeight := λ _, 0;
     getComputedStyle := λ _, plainStyle;
     innerHeight := 800;
     hasBody := true;
     bodyScrollHeight := 3000;
     htmlScrollHeight := 3000;
     bodyStyle := plainStyle;
     htmlStyle := plainStyle;
     viewportMeta := true;
     hasIntersectionObserver := true;
     acceptsObserverOptions := λ _ _, true;
     randomSuffix := "k3x9q2m1z" |}.

(** ** Trigger identifiers as the diagnostics see them *)

(** The element's trigger identifier, when the attribute is present and
    not empty (the test [!triggerId] rejects both). *)
Definition triggerOf (page : Page) (cfg : Config) (el : Element) : option string :=
  match getAttribute page el (triggerAttribute cfg) with
  | Some id => if decide (id = "") then None else Some id
  | None => None
  end.

(** An issue about the identifier of an element. *)
Definition isIdIssue (issue : Issue) : Prop :=
  type issue = "missing_trigger_id" ∨ type issue = "duplicate_trigger_id".

(** A page whose three sections are "intro", "intro" again and one with an
    empty attribute. *)
Definition repeatedPage : Page :=
  {| loading := false;
     querySelectorAll := λ _, Normal [1; 2; 3]%nat;
     getAttribute := λ el _, match el with
                             | 1%nat | 2%nat => Some "intro"
                             | _ => Some ""
                             end;
     rectTop := λ _, 0%Q;
     offsetHeight := λ _, 900;
     getComputedStyle := λ _, plainStyle;
     innerHeight := 800;
     hasBody := true;
     bodyScrollHeight := 3000;
     htmlScrollHeight := 3000;
     bodyStyle := plainStyle;
     htmlStyle := plainStyle;
     viewportMeta := true;
     hasIntersectionObserver := true;
     acceptsObserverOptions := λ _ _, true;
     randomSuffix := "k3x9q2m1z" |}.

(** The sample page before its body has been parsed. *)
Definition headOnlyPage : Page :=
  {| loading := true;
     querySelectorAll := querySelectorAll (samplePage topsA);
     getAttribute := getAttribute (samplePage topsA);
     rectTop := topsA;
     offsetHeight := λ _, 900;
     getComputedStyle := λ _, plainStyle;
     innerHeight := 800;
     hasBody := false;
     bodyScrollHeight := 0;
     htmlScrollHeight := 0;
     bodyStyle := plainStyle;
     htmlStyle := plainStyle;
     viewportMeta := true;
     hasIntersectionObserver := true;
     acceptsObserverOptions := λ _ _, true;
     randomSuffix := "k3x9q2m1z" |}.

(** The options [o] with [selector: sel]. *)
Definition with_selector (sel : string) (o : Options) : Options :=
  {| opt_selector := Some sel; opt_triggerAttribute := opt_triggerAttribute o;
     opt_threshold := opt_threshold o; opt_rootMargin := opt_rootMargin o;
     opt_debounceDelay := opt_debounceDelay o; opt_onChange := opt_onChange o;
     opt_debug := opt_debug o |}.

(** ** What an event keeps of the current identifier *)

(** From [w] to [w']: passes were appended, the two identifiers are equal
    afterwards, and a current identifier is kept when the appended passes
    read tagged entries only. *)
Definition keptFrom (w w' : World) : Prop :=
  ∃ extra, passes w' = passes w ++ extra
           ∧ lastValidTriggerId (this w') = currentTriggerId (this w')
           ∧ (Forall taggedPass extra → is_Some (currentTriggerId (this w)) →
              is_Some (currentTriggerId (this w'))).

(** "intro" is current and the untagged element 3 is the only visible one,
    its resolution pass pending. *)
Definition worldUntaggedVisible : World := run (take 4 untaggedTrace) sampleWorld.

(** An instance with the empty selector: it can only be built while the
    page is loading, since on a ready page the constructor throws. *)
Definition worldEmptySelector : World :=
  match new_ScrollySystem loadingPage 1000 (with_selector "" no_options) with
  | Normal w => w
  | Throw _ => loadingWorld
  end.

(** * Properties *)

(** ** Rational comparisons *)

Lemma Qlt_bool_true (a b : Q) : Qlt_bool a b = true ↔ (a < b)%Q.
Proof.
  unfold Qlt_bool. rewrite negb_true_iff, <- not_true_iff_false, Qle_bool_iff.
  split; [apply Qnot_le_lt | apply Qlt_not_le].
Qed.

Lemma Qlt_bool_false (a b : Q) : Qlt_bool a b = false ↔ (b <= a)%Q.
Proof.
  unfold Qlt_bool. rewrite negb_false_iff. apply Qle_bool_iff.
Qed.

(** ** The notifier changes the current identifier and nothing else of the
       instance *)

Ltac unfold_notifier :=
  unfold setCurrentTrigger, emitTriggerChange, emit, with_this,
    set_currentTriggerId, set_lastValidTriggerId.

Lemma setCurrentTrigger_current id w :
  currentTriggerId (this (setCurrentTrigger id w).2) = id.
Proof.
  unfold_notifier. destruct (decide (currentTriggerId (this w) ≠ id)) as [Hne|Heq].
  - destruct (onChange _) as [callback|]; [|done]. by destruct (callback _).
  - by apply dec_stable in Heq.
Qed.

Lemma setCurrentTrigger_frame id w :
  let w' := (setCurrentTrigger id w).2 in
  visibleElements (this w') = visibleElements (this w) ∧
  lastValidTriggerId (this w') = lastValidTriggerId (this w) ∧
  observer (this w') = observer (this w) ∧
  config (this w') = config (this w) ∧
  _debounceTimer (this w') = _debounceTimer (this w) ∧
  _diagnosticCache (this w') = _diagnosticCache (this w) ∧
  timers w' = timers w ∧ clock w' = clock w ∧ passes w' = passes w ∧
  nextTimerId w' = nextTimerId w ∧ domReadyListener w' = domReadyListener w.
Proof.
  unfold_notifier. destruct (decide _); [|naive_solver].
  destruct (onChange _) as [callback|]; [|naive_solver].
  destruct (callback _); naive_solver.
Qed.

(** ** The resolver picks the first entry of least top coordinate *)

Section Resolver.
Variable page : Page.

Lemma higher_cases prev curr :
  (higher page prev curr = curr ∧ (top_of page curr < top_of page prev)%Q) ∨
  (higher page prev curr = prev ∧ (top_of page prev <= top_of page curr)%Q).
Proof.
  unfold higher, top_of.
  destruct (Qlt_bool (rectTop page curr.1) (rectTop page prev.1)) eqn:E.
  - left. by apply Qlt_bool_true in E.
  - right. by apply Qlt_bool_false in E.
Qed.

(** The result of the reduction sits at some position of the array; no
    entry has a smaller top, and every entry before it has a larger one. *)
Lemma reduce_higher first rest :
  ∃ i : nat,
    (first :: rest) !! i = Some (reduce (higher page) first rest) ∧
    (∀ j x, (first :: rest) !! j = Some x →
            (top_of page (reduce (higher page) first rest) <= top_of page x)%Q) ∧
    (∀ j x, (j < i)%nat → (first :: rest) !! j = Some x →
            (top_of page (reduce (higher page) first rest) < top_of page x)%Q).
Proof.
  unfold reduce. induction rest as [|y l IH] using rev_ind.
  - exists 0%nat. simpl. split; [done|]. split.
    + intros [|j] x Hx; simplify_eq/=. apply Qle_refl.
    + intros j x Hj. lia.
  - rewrite fold_left_app. simpl.
    destruct IH as (i & Hi & Hmin & Hfirst).
    set (acc := fold_left (higher page) l first) in *.
    assert (Hlen : length (first :: l) = S (length l)) by done.
    destruct (higher_cases acc y) as [[-> Hlt] | [-> Hle]].
    + exists (length (first :: l)). split; [|split].
      * change (first :: l ++ [y]) with ((first :: l) ++ [y]).
        rewrite lookup_app_r by lia. by rewrite Nat.sub_diag.
      * intros j x Hx. change (first :: l ++ [y]) with ((first :: l) ++ [y]) in Hx.
        apply lookup_app_Some in Hx as [Hx | [_ Hx]].
        -- apply Qlt_le_weak. eapply Qlt_le_trans; [exact Hlt | by eapply Hmin].
        -- apply list_lookup_singleton_Some in Hx as [_ <-]. apply Qle_refl.
      * intros j x Hj Hx. change (first :: l ++ [y]) with ((first :: l) ++ [y]) in Hx.
        rewrite lookup_app_l in Hx by done.
        eapply Qlt_le_trans; [exact Hlt | by eapply Hmin].
    + exists i. split; [|split].
      * change (first :: l ++ [y]) with ((first :: l) ++ [y]).
        apply lookup_app_l_Some, Hi.
      * intros j x Hx. change (first :: l ++ [y]) with ((first :: l) ++ [y]) in Hx.
        apply lookup_app_Some in Hx as [Hx | [_ Hx]]; [by eapply Hmin|].
        by apply list_lookup_singleton_Some in Hx as [_ <-].
      * intros j x Hj Hx. change (first :: l ++ [y]) with ((first :: l) ++ [y]) in Hx.
        apply lookup_lt_Some in Hi.
        rewrite lookup_app_l in Hx by lia. by eapply Hfirst.
Qed.

(** What a pass over a non-empty Visible Set leaves in the Resolution State. *)
Lemma updateCurrentTrigger_nonempty w first rest :
  visibleElements (this w) = first :: rest →
  let id := (reduce (higher page) first rest).2 in
  lastValidTriggerId (this (updateCurrentTrigger page w).2) = id ∧
  currentTriggerId (this (updateCurrentTrigger page w).2) = id.
Proof.
  intros Hvis. unfold updateCurrentTrigger. rewrite Hvis. simpl. split.
  - by rewrite (proj1 (proj2 (setCurrentTrigger_frame _ _))).
  - apply setCurrentTrigger_current.
Qed.

(** C1. For every non-empty Visible Set, the resolution pass
    ([updateCurrentTrigger]) selects an entry whose element's
    viewport-relative top coordinate is smallest: no visible entry has a
    smaller top, and every entry met earlier in iteration order has a
    strictly larger one, so among equal smallest tops the first-encountered
    entry wins.  The pass sets [lastValidTriggerId] to that entry's
    identifier and makes it the resolved (current) identifier; this is the
    state it leaves whether or not the [onChange] callback throws. *)
Theorem C1_resolution_selects_topmost w :
  visibleElements (this w) ≠ [] →
  ∃ (i : nat) (el : Element) (id : option string),
    visibleElements (this w) !! i = Some (el, id) ∧
    (∀ j el' id', visibleElements (this w) !! j = Some (el', id') →
                  (rectTop page el <= rectTop page el')%Q) ∧
    (∀ j el' id', (j < i)%nat → visibleElements (this w) !! j = Some (el', id') →
                  (rectTop page el < rectTop page el')%Q) ∧
    lastValidTriggerId (this (updateCurrentTrigger page w).2) = id ∧
    getCurrentTriggerId (updateCurrentTrigger page w).2 = id.
Proof.
  intros Hne. destruct (visibleElements (this w)) as [|first rest] eqn:Hvis; [done|].
  destruct (reduce_higher first rest) as (i & Hi & Hmin & Hfirst).
  destruct (updateCurrentTrigger_nonempty w first rest Hvis) as [Hlast Hcur].
  destruct (reduce (higher page) first rest) as [el id] eqn:Hred.
  exists i, el, id. split; [done|]. split; [|split; [|done]].
  - intros j el' id' Hj. exact (Hmin j (el', id') Hj).
  - intros j el' id' Hlt Hj. exact (Hfirst j (el', id') Hlt Hj).
Qed.
End Resolver.

Example worldBoth_visible :
  visibleElements (this worldBoth) = [(1%nat, Some "intro"); (2%nat, Some "section1")].
Proof. by vm_compute. Qed.

(** "section1" is higher (top -7.5 against 40): it is resolved. *)
Example resolve_higher_section :
  getCurrentTriggerId (updateCurrentTrigger (samplePage topsA) worldBoth).2
  = Some "section1".
Proof. by vm_compute. Qed.

(** With equal tops the entry met first, "intro", is resolved. *)
Example resolve_tie_first_wins :
  getCurrentTriggerId (updateCurrentTrigger (samplePage (λ _, 12%Q)) worldBoth).2
  = Some "intro".
Proof. by vm_compute. Qed.

Lemma C1_resolution_selects_topmost_witness :
  visibleElements (this worldBoth) ≠ [] ∧
  ∃ (i : nat) (el : Element) (id : option string),
    visibleElements (this worldBoth) !! i = Some (el, id) ∧
    (∀ j el' id', visibleElements (this worldBoth) !! j = Some (el', id') →
                  (rectTop (samplePage topsA) el <= rectTop (samplePage topsA) el')%Q) ∧
    (∀ j el' id', (j < i)%nat →
                  visibleElements (this worldBoth) !! j = Some (el', id') →
                  (rectTop (samplePage topsA) el < rectTop (samplePage topsA) el')%Q) ∧
    lastValidTriggerId (this (updateCurrentTrigger (samplePage topsA) worldBoth).2) = id ∧
    getCurrentTriggerId (updateCurrentTrigger (samplePage topsA) worldBoth).2 = id.
Proof.
  split.
  - vm_compute. discriminate.
  - apply (C1_resolution_selects_topmost (samplePage topsA) worldBoth).
    vm_compute. discriminate.
Defined.

(** ** The notifier fires once per change of identifier *)

Lemma setCurrentTrigger_effects id w :
  effects (setCurrentTrigger id w).2
  = effects w ++ (if decide (currentTriggerId (this w) = id) then []
                  else notifications id w).
Proof.
  unfold notifications, changeTo. unfold_notifier.
  destruct (decide (currentTriggerId (this w) ≠ id)) as [Hne|Heq].
  - rewrite decide_False by done. simpl.
    destruct (onChange (config (this w))) as [callback|]; simpl; [|done].
    destruct (callback _); simpl; by rewrite <- ?app_assoc.
  - apply dec_stable in Heq. rewrite decide_True by done. by rewrite app_nil_r.
Qed.

(** The notifier throws exactly what the callback throws. *)
Lemma setCurrentTrigger_completion id w error :
  (setCurrentTrigger id w).1 = Throw error
  ↔ currentTriggerId (this w) ≠ id
    ∧ ∃ callback, onChange (config (this w)) = Some callback
                  ∧ callback (changeTo id w) = Throw error.
Proof.
  unfold changeTo. unfold_notifier.
  destruct (decide (currentTriggerId (this w) ≠ id)) as [Hne|Heq]; simpl.
  - destruct (onChange (config (this w))) as [callback|] eqn:Hcb; simpl.
    + destruct (callback _) eqn:Hcall; simpl.
      * split; [done|]. intros (_ & f & [= <-] & Hf). congruence.
      * split.
        -- intros [= ->]. split; [done|]. by exists callback.
        -- intros (_ & f & [= <-] & Hf). congruence.
    + split; [done|]. by intros (_ & f & Hf & _).
  - split; [done|]. by intros [Hne _].
Qed.

(** Resolving to the current identifier returns and changes nothing. *)
Lemma setCurrentTrigger_same w :
  setCurrentTrigger (currentTriggerId (this w)) w = (Normal (), w).
Proof. unfold setCurrentTrigger. by rewrite decide_False by naive_solver. Qed.

(** Against C3 as worded: the callback is called before the broadcast and
    nothing catches what it throws; when it throws, the change is not
    broadcast. *)
Lemma C3_failing_callback_skips_broadcast :
  ¬ broadcasts_every_change (Some "section1") worldFailing.
Proof.
  intros Hclaim. assert (Hne : currentTriggerId (this worldFailing) ≠ Some "section1").
  { vm_compute. discriminate. }
  specialize (Hclaim Hne). vm_compute in Hclaim. discriminate Hclaim.
Qed.

(** C3, amended. For every resolved identifier [id], the notifier
    ([setCurrentTrigger], through [emitTriggerChange]) does nothing when [id]
    is the emitted [currentTriggerId]; when [id] differs, it calls the
    [onChange] callback, if one is configured, and then broadcasts the
    [scrollTrigger] event, unless the callback threw: the exception is not
    caught, the notifier throws it, and the broadcast of that change is
    skipped.  Resolving to the same identifier a second time in a row
    returns, changes nothing and emits nothing, so the two resolutions
    together produce the notification of the first and never a duplicate. *)
Theorem C3_notify_once_per_change (id : option string) (w : World) :
  effects (setCurrentTrigger id w).2
  = effects w ++ (if decide (currentTriggerId (this w) = id) then []
                  else notifications id w)
  ∧ (∀ error, (setCurrentTrigger id w).1 = Throw error
              ↔ currentTriggerId (this w) ≠ id
                ∧ ∃ callback, onChange (config (this w)) = Some callback
                              ∧ callback (changeTo id w) = Throw error)
  ∧ setCurrentTrigger id (setCurrentTrigger id w).2
    = (Normal (), (setCurrentTrigger id w).2).
Proof.
  split; [apply setCurrentTrigger_effects|].
  split; [intros error; apply setCurrentTrigger_completion|].
  rewrite <- (setCurrentTrigger_current id w) at 1. apply setCurrentTrigger_same.
Qed.

(** From no current identifier, resolving "intro" twice notifies once. *)
Example notify_intro_twice :
  effects (setCurrentTrigger (Some "intro")
             (setCurrentTrigger (Some "intro") sampleWorld).2).2
  = [DispatchEvent {| current := Some "intro"; previous := None;
                      d_timestamp := 1000;
                      d_instanceId := "scrolly-1000-k3x9q2m1z" |}].
Proof. by vm_compute. Qed.

(** With the failing callback, "intro" is passed to the callback and
    broadcast; "section1" is passed to the callback, which throws, and is
    not broadcast, though it is the current identifier afterwards. *)
Example failing_callback_loses_a_broadcast :
  let w := (setCurrentTrigger (Some "section1")
              (setCurrentTrigger (Some "intro") worldFailing).2) in
  w.1 = Throw "Error"
  ∧ getCurrentTriggerId w.2 = Some "section1"
  ∧ current <$> calledBack (effects w.2) = [Some "intro"; Some "section1"]
  ∧ current <$> dispatched (effects w.2) = [Some "intro"].
Proof. by vm_compute. Qed.

(** ** Status and performance score of a report *)

Lemma qn_S n : (qn (S n) == qn n + 1)%Q.
Proof. unfold qn. rewrite Nat2Z.inj_succ, <- Z.add_1_r, inject_Z_plus. reflexivity. Qed.

Lemma qn_nonneg n : (0 <= qn n)%Q.
Proof. unfold qn. change 0%Q with (inject_Z 0). rewrite <- Zle_Qle. lia. Qed.

Lemma some_severity_Exists sev issues :
  some_severity sev issues = true ↔ Exists (λ issue, severity issue = sev) issues.
Proof.
  unfold some_severity. rewrite existsb_exists, Exists_exists. split.
  - intros (x & Hin & Hx). exists x. apply list_elem_of_In in Hin.
    by apply bool_decide_eq_true in Hx.
  - intros (x & Hin & Hx). exists x. apply list_elem_of_In in Hin.
    by rewrite bool_decide_eq_true.
Qed.

Lemma count_severity_cons sev issue issues :
  count_severity sev (issue :: issues)
  = ((if decide (severity issue = sev) then 1 else 0) + count_severity sev issues)%nat.
Proof.
  unfold count_severity. rewrite filter_cons. by destruct (decide _).
Qed.

(** The running score after the loop, in closed form. *)
Lemma foldl_deduct issues : ∀ score,
  (foldl deduct score issues
   == score - 3 * qn (count_severity "error" issues)
            - qn (count_severity "warning" issues)
            - (1 # 2) * qn (count_severity "info" issues))%Q.
Proof.
  induction issues as [|issue issues IH]; intros score.
  - simpl. unfold count_severity, qn. simpl. ring.
  - simpl. rewrite IH, !count_severity_cons. unfold deduct.
    destruct (decide (severity issue = "error")) as [He|He].
    { rewrite bool_decide_eq_true_2 by done.
      rewrite !decide_False by congruence. simpl "+"%nat. rewrite qn_S. ring. }
    rewrite bool_decide_eq_false_2 by done.
    destruct (decide (severity issue = "warning")) as [Hw|Hw].
    { rewrite bool_decide_eq_true_2 by done.
      rewrite !decide_False by congruence. simpl "+"%nat. rewrite qn_S. ring. }
    rewrite bool_decide_eq_false_2 by done.
    destruct (decide (severity issue = "info")) as [Hi|Hi].
    { rewrite bool_decide_eq_true_2 by done. simpl "+"%nat. rewrite qn_S. ring. }
    rewrite bool_decide_eq_false_2 by done. simpl "+"%nat. ring.
Qed.

Lemma Math_max_Qeq a b b' : (b == b')%Q → (Math_max a b == Math_max a b')%Q.
Proof.
  intros Hb. unfold Math_max.
  destruct (Qle_bool a b) eqn:E1, (Qle_bool a b') eqn:E2; try done.
  - apply Qle_bool_iff in E1. rewrite Hb in E1. apply Qle_bool_iff in E1. congruence.
  - apply Qle_bool_iff in E2. rewrite <- Hb in E2. apply Qle_bool_iff in E2. congruence.
Qed.

Lemma Math_max_bounds a b hi : (a <= hi)%Q → (b <= hi)%Q →
  (a <= Math_max a b)%Q ∧ (Math_max a b <= hi)%Q.
Proof.
  intros Ha Hb. unfold Math_max. destruct (Qle_bool a b) eqn:E.
  - apply Qle_bool_iff in E. done.
  - split; [apply Qle_refl | done].
Qed.

(** C7. For every list of diagnostic issues, the derived status is 'error'
    if any issue has severity error, else 'warning' if any has severity
    warning, else 'ok'; and the performance score equals 10 minus 3 per error
    issue, 1 per warning issue and 0.5 per info issue, floored at 0, so it
    always lies in [0,10]. *)
Theorem C7_status_and_score (issues : list Issue) :
  _determineStatus issues
  = (if decide (Exists (λ issue, severity issue = "error") issues) then "error"
     else if decide (Exists (λ issue, severity issue = "warning") issues) then "warning"
     else "ok")
  ∧ (_calculatePerformanceScore issues
     == Math_max 0 (10 - 3 * qn (count_severity "error" issues)
                       - qn (count_severity "warning" issues)
                       - (1 # 2) * qn (count_severity "info" issues)))%Q
  ∧ (0 <= _calculatePerformanceScore issues)%Q
  ∧ (_calculatePerformanceScore issues <= 10)%Q.
Proof.
  split; [|split].
  - unfold _determineStatus.
    destruct (decide (Exists _ issues)) as [He|He].
    { apply some_severity_Exists in He. by rewrite He. }
    rewrite <- some_severity_Exists in He. apply not_true_is_false in He. rewrite He.
    destruct (decide (Exists _ issues)) as [Hw|Hw].
    { apply some_severity_Exists in Hw. by rewrite Hw. }
    rewrite <- some_severity_Exists in Hw. apply not_true_is_false in Hw. by rewrite Hw.
  - unfold _calculatePerformanceScore. apply Math_max_Qeq, foldl_deduct.
  - unfold _calculatePerformanceScore. apply (Math_max_bounds 0 _ 10); [done|].
    rewrite foldl_deduct.
    pose proof (qn_nonneg (count_severity "error" issues)) as H1.
    pose proof (qn_nonneg (count_severity "warning" issues)) as H2.
    pose proof (qn_nonneg (count_severity "info" issues)) as H3.
    set (a := qn _) in *. set (b := qn _) in *. set (c := qn _) in *.
    clearbody a b c. lra.
Qed.

Example score_of_mixed_issues :
  _determineStatus [mkIssue "no_viewport_meta" "warning" None;
                    mkIssue "low_debounce" "info" None;
                    mkIssue "element_hidden" "error" (Some 2%nat)] = "error"
  ∧ _calculatePerformanceScore [mkIssue "no_viewport_meta" "warning" None;
                                mkIssue "low_debounce" "info" None;
                                mkIssue "element_hidden" "error" (Some 2%nat)]
    = (11 # 2)%Q.
Proof. by vm_compute. Qed.

Example score_floor_at_zero :
  _calculatePerformanceScore (replicate 4 (mkIssue "element_hidden" "error" (Some 2%nat)))
  = 0%Q.
Proof. by vm_compute. Qed.

(** ** Public operations and teardown *)

Lemma Map_delete_absent {V} (k : Element) (m : list (Element * V)) :
  k ∉ m.*1 → Map_delete k m = m.
Proof.
  induction m as [|[k' v'] m IH]; [done|]. simpl. intros Hnotin.
  apply not_elem_of_cons in Hnotin as [Hne Hnotin].
  rewrite decide_False by done. by rewrite IH.
Qed.

Lemma with_this_fixed f w : f (this w) = this w → with_this f w = w.
Proof. destruct w. unfold with_this. simpl. by intros ->. Qed.

(** [observe] and [unobserve] touch the registrations, and [unobserve] the
    Visible Set; nothing else. *)
Lemma observe_frame el s :
  visibleElements (observe el s) = visibleElements s ∧
  config (observe el s) = config s ∧
  _diagnosticCache (observe el s) = _diagnosticCache s ∧
  currentTriggerId (observe el s) = currentTriggerId s ∧
  lastValidTriggerId (observe el s) = lastValidTriggerId s ∧
  _debounceTimer (observe el s) = _debounceTimer s.
Proof. unfold observe. by destruct (observer s), el. Qed.

Lemma unobserve_frame el s :
  (visibleElements (unobserve el s) = Map_delete (default 0%nat el) (visibleElements s)
   ∨ visibleElements (unobserve el s) = visibleElements s) ∧
  config (unobserve el s) = config s ∧
  _diagnosticCache (unobserve el s) = _diagnosticCache s ∧
  currentTriggerId (unobserve el s) = currentTriggerId s ∧
  lastValidTriggerId (unobserve el s) = lastValidTriggerId s ∧
  _debounceTimer (unobserve el s) = _debounceTimer s.
Proof. unfold unobserve. destruct (observer s), el; simpl; auto 10. Qed.

(** The instance that [destroy()] leaves. *)
Lemma destroy_this w :
  this (destroy w)
  = {| config := config (this w);
       observer := match observer (this w) with
                   | Some _ => Some {| targets := ∅ |}
                   | None => None
                   end;
       visibleElements := [];
       currentTriggerId := None;
       lastValidTriggerId := None;
       _debounceTimer := _debounceTimer (this w);
       instanceId := instanceId (this w);
       _diagnosticCache := ∅ |}.
Proof.
  unfold destroy.
  set (w1 := match _debounceTimer (this w) with Some _ => _ | None => _ end).
  assert (Hthis : this w1 = this w).
  { subst w1. destruct (_debounceTimer (this w)) as [id|]; [|done].
    by destruct (decide (id = 0%nat)). }
  unfold with_this. simpl. rewrite Hthis.
  destruct (observer (this w)) eqn:Hobs; [done|].
  unfold set_diagnosticCache, set_lastValidTriggerId, set_currentTriggerId,
    set_visibleElements. simpl. by rewrite Hobs.
Qed.

(** [diagnose] reads the tracked state and writes only the cache, the timer
    table and the console. *)
Lemma diagnose_frame page verbose w :
  let w' := (diagnose page verbose w).2 in
  observer (this w') = observer (this w) ∧
  visibleElements (this w') = visibleElements (this w) ∧
  currentTriggerId (this w') = currentTriggerId (this w) ∧
  lastValidTriggerId (this w') = lastValidTriggerId (this w) ∧
  config (this w') = config (this w) ∧
  _debounceTimer (this w') = _debounceTimer (this w) ∧
  passes w' = passes w ∧ clock w' = clock w.
Proof.
  unfold diagnose. destruct (_diagnosticCache (this w) !! cacheKeyOf verbose); [done|].
  destruct (collectIssues page (config (this w))) as [[elements issues]|]; [|done].
  simpl. by destruct (debug (config (this w)) || verbose).
Qed.

(** What [diagnose] computes when nothing is cached. *)
Lemma collectIssues_report page cfg now :
  freshReport page cfg now
  = '(elements, issues) ← collectIssues page cfg;
    mret {| status := _determineStatus issues;
            issues := issues;
            summary := {| totalElements := length elements;
                          problematicElements := _countProblematicElements issues;
                          performanceScore := _calculatePerformanceScore issues;
                          timestamp := now |} |}.
Proof.
  unfold freshReport, collectIssues.
  destruct (querySelectorAll page (selector cfg)); [|done]. simpl.
  destruct (validateElements page cfg); [|done]. simpl.
  destruct (checkPerformance page cfg); [|done]. simpl.
  by destruct (_checkEnvironment page).
Qed.

Lemma diagnose_result page verbose w :
  (diagnose page verbose w).1
  = match _diagnosticCache (this w) !! cacheKeyOf verbose with
    | Some cached => Normal cached
    | None => freshReport page (config (this w)) (clock w)
    end.
Proof.
  rewrite collectIssues_report. unfold diagnose.
  destruct (_diagnosticCache (this w) !! cacheKeyOf verbose); [done|].
  destruct (collectIssues page (config (this w))) as [[elements issues]|]; [|done].
  simpl. by destruct (debug (config (this w)) || verbose).
Qed.

(** A [diagnose] that throws has changed nothing. *)
Lemma diagnose_throws page verbose w error :
  (diagnose page verbose w).1 = Throw error → (diagnose page verbose w).2 = w.
Proof.
  unfold diagnose. destruct (_diagnosticCache (this w) !! cacheKeyOf verbose); [done|].
  destruct (collectIssues page (config (this w))) as [[elements issues]|]; [|done].
  simpl. by destruct (debug (config (this w)) || verbose).
Qed.

(** The parts of a computed report. *)
Lemma freshReport_Normal page cfg now report :
  freshReport page cfg now = Normal report →
  ∃ elements elementIssues performanceIssues environmentIssues,
    querySelectorAll page (selector cfg) = Normal elements
    ∧ validateElements page cfg = Normal elementIssues
    ∧ checkPerformance page cfg = Normal performanceIssues
    ∧ _checkEnvironment page = Normal environmentIssues
    ∧ report
      = let issues := elementIssues ++ performanceIssues ++ environmentIssues in
        {| status := _determineStatus issues;
           issues := issues;
           summary := {| totalElements := length elements;
                         problematicElements := _countProblematicElements issues;
                         performanceScore := _calculatePerformanceScore issues;
                         timestamp := now |} |}.
Proof.
  unfold freshReport.
  destruct (querySelectorAll page (selector cfg)) as [elements|]; [|done]. simpl.
  destruct (validateElements page cfg) as [elementIssues|]; [|done]. simpl.
  destruct (checkPerformance page cfg) as [performanceIssues|]; [|done]. simpl.
  destruct (_checkEnvironment page) as [environmentIssues|]; [|done]. simpl.
  intros [= <-]. by exists elements, elementIssues, performanceIssues, environmentIssues.
Qed.

(** The checks of the elements and of the configuration complete when the
    query does. *)
Lemma validateElements_returns page cfg :
  returns (validateElements page cfg) = returns (querySelectorAll page (selector cfg)).
Proof. unfold validateElements. by destruct (querySelectorAll page (selector cfg)). Qed.

Lemma checkPerformance_returns page cfg :
  returns (checkPerformance page cfg) = returns (querySelectorAll page (selector cfg)).
Proof. unfold checkPerformance. by destruct (querySelectorAll page (selector cfg)). Qed.

(** A report is computed exactly when the selector parses and the document
    has a body. *)
Lemma freshReport_returns page cfg now :
  returns (freshReport page cfg now) = true ↔ diagnosable page cfg.
Proof.
  unfold diagnosable, freshReport.
  pose proof (validateElements_returns page cfg) as Hv.
  pose proof (checkPerformance_returns page cfg) as Hp.
  destruct (querySelectorAll page (selector cfg)) as [elements|]; simpl in *;
    [|by split; [|intros []]].
  destruct (validateElements page cfg); [|done]. simpl.
  destruct (checkPerformance page cfg); [|done]. simpl.
  unfold _checkEnvironment. destruct (hasBody page); simpl; [done|].
  split; [done|]. by intros [].
Qed.

(** *** Operations after teardown *)



(** After teardown, on the sample page before its body is parsed,
    [diagnose()] throws. *)
Example diagnose_after_destroy_can_throw :
  failure headOnlyPage (destroy sampleWorld) (Call_diagnose false) = Some "TypeError".
Proof. by vm_compute. Qed.

(** *** observe followed by unobserve *)

(** Against C9 as worded: [unobserve(e)] evicts [e] from the Visible Set;
    when [e] was visible before [observe(e)], its entry is gone afterwards. *)
Lemma C9_roundtrip_evicts_visible_element :
  ¬ observe_unobserve_roundtrip (samplePage topsA) false worldBoth (Some 1%nat).
Proof.
  unfold observe_unobserve_roundtrip. intros [Hvis _].
  vm_compute in Hvis. discriminate Hvis.
Qed.

(** C9, amended. For every element [e] that is not in the Visible Set when
    [observe(e)] is called, [observe(e)] followed immediately by
    [unobserve(e)] leaves the Visible Set and the diagnostic performance
    score exactly as they were. *)
Theorem C9_roundtrip_when_not_visible
    (page : Page) (verbose : bool) (w : World) (e : Element) :
  e ∉ (visibleElements (this w)).*1 →
  observe_unobserve_roundtrip page verbose w (Some e).
Proof.
  intros Hnotin. unfold observe_unobserve_roundtrip. cbv zeta.
  set (w' := step (step w (page, Call_observe (Some e))) (page, Call_unobserve (Some e))).
  assert (Hthis : this w' = unobserve (Some e) (observe (Some e) (this w))) by done.
  assert (Hclock : clock w' = clock w) by done.
  destruct (observe_frame (Some e) (this w)) as (Hv1 & Hc1 & Hd1 & _).
  destruct (unobserve_frame (Some e) (observe (Some e) (this w))) as (Hv2 & Hc2 & Hd2 & _).
  assert (Hvis : visibleElements (this w') = visibleElements (this w)).
  { rewrite Hthis. destruct Hv2 as [-> | ->]; rewrite Hv1; [|done].
    by apply Map_delete_absent. }
  assert (Hcfg : config (this w') = config (this w)) by congruence.
  assert (Hcache : _diagnosticCache (this w') = _diagnosticCache (this w)) by congruence.
  split; [done|]. unfold diagnosedScore. by rewrite !diagnose_result, Hcfg, Hcache, Hclock.
Qed.

Lemma C9_roundtrip_when_not_visible_witness :
  (9%nat ∉ (visibleElements (this worldBoth)).*1)
  ∧ observe_unobserve_roundtrip (samplePage topsA) false worldBoth (Some 9%nat).
Proof.
  assert (H : 9%nat ∉ (visibleElements (this worldBoth)).*1).
  { vm_compute. intros Hin. repeat (apply elem_of_cons in Hin as [Hin|Hin]; [discriminate Hin|]).
    by apply elem_of_nil in Hin. }
  split; [exact H|].
  exact (C9_roundtrip_when_not_visible (samplePage topsA) false worldBoth 9%nat H).
Defined.

(** ** Construction *)

Lemma updateCurrentTrigger_frame page w :
  let w' := (updateCurrentTrigger page w).2 in
  visibleElements (this w') = visibleElements (this w) ∧
  observer (this w') = observer (this w) ∧
  config (this w') = config (this w) ∧
  _debounceTimer (this w') = _debounceTimer (this w) ∧
  _diagnosticCache (this w') = _diagnosticCache (this w) ∧
  timers w' = timers w ∧ clock w' = clock w ∧ passes w' = passes w ∧
  nextTimerId w' = nextTimerId w ∧ domReadyListener w' = domReadyListener w.
Proof.
  unfold updateCurrentTrigger.
  destruct (visibleElements (this w)) as [|first rest] eqn:Hvis.
  - destruct (lastValidTriggerId (this w)) as [id|]; [|simpl; by rewrite Hvis].
    destruct (setCurrentTrigger_frame (Some id) w)
      as (-> & _ & -> & -> & -> & -> & -> & -> & -> & -> & ->).
    by rewrite Hvis.
  - cbv zeta.
    destruct (setCurrentTrigger_frame (reduce (higher page) first rest).2
                (with_this (set_lastValidTriggerId (reduce (higher page) first rest).2) w))
      as (-> & _ & -> & -> & -> & -> & -> & -> & -> & -> & ->).
    by rewrite <- Hvis.
Qed.

(** A pass over an empty Visible Set with no last identifier returns and
    changes nothing. *)
Lemma updateCurrentTrigger_initial page w :
  visibleElements (this w) = [] → lastValidTriggerId (this w) = None →
  updateCurrentTrigger page w = (Normal (), w).
Proof. intros Hvis Hlast. unfold updateCurrentTrigger. by rewrite Hvis, Hlast. Qed.

(** What [setup()] does: when the host sets the observer up, a resolution
    pass follows; otherwise [setup()] throws, before the observer is created
    or, when it is the selector that does not parse, just after. *)
Lemma setup_cases page w :
  (hostSetsUp page (config (this w)) = true
   ∧ ∃ elements, querySelectorAll page (selector (config (this w))) = Normal elements
       ∧ setup page w
         = resolutionPass page
             (with_this (set_observer (Some {| targets := list_to_set elements |})) w))
  ∨ (hostSetsUp page (config (this w)) = false
     ∧ (∃ error, (setup page w).1 = Throw error)
     ∧ ((setup page w).2 = w
        ∨ (setup page w).2 = with_this (set_observer (Some {| targets := ∅ |})) w)).
Proof.
  unfold setup, setupObserver, hostSetsUp.
  destruct (hasIntersectionObserver page); simpl; [|right; eauto].
  destruct (acceptsObserverOptions page _ _); simpl; [|right; eauto].
  destruct (querySelectorAll page _) as [elements|error]; simpl; [|right; eauto].
  left. split; [done|]. by exists elements.
Qed.

(** Construction completes exactly when the page is still loading or the
    host sets the observer up. *)
(** The world a completed construction leaves: the listener is registered
    when the page is loading; otherwise the observer watches the matches of
    the selector and one resolution pass has run, over nothing. *)
Lemma new_ScrollySystem_Normal page now o w :
  new_ScrollySystem page now o = Normal w →
  (loading page = true ∧ w = set_domReadyListener true (fresh page now o))
  ∨ (loading page = false
     ∧ hostSetsUp page (merge_config o) = true
     ∧ ∃ elements,
         querySelectorAll page (selector (merge_config o)) = Normal elements
         ∧ w = record_pass (with_this (set_observer
                                         (Some {| targets := list_to_set elements |}))
                              (fresh page now o))).
Proof.
  unfold new_ScrollySystem, init. destruct (loading page).
  { intros [= <-]. by left. }
  destruct (setup_cases page (fresh page now o)) as [Hok|Hfail].
  - destruct Hok as (Hhost & elements & Hq & ->).
    unfold resolutionPass. rewrite updateCurrentTrigger_initial by done.
    intros [= <-]. right. split; [done|]. split; [done|]. by exists elements.
  - destruct Hfail as (_ & (error & Herr) & _).
    destruct (setup page _) as [c w']. simpl in Herr. by subst c.
Qed.

(** Construction completes exactly when the page is still loading or the
    host sets the observer up. *)
Lemma new_ScrollySystem_cases page now o :
  match new_ScrollySystem page now o with
  | Normal w => loading page || hostSetsUp page (merge_config o) = true
                ∧ config (this w) = merge_config o
  | Throw _ => loading page || hostSetsUp page (merge_config o) = false
  end.
Proof.
  unfold new_ScrollySystem, init. destruct (loading page); [done|]. simpl.
  destruct (setup_cases page (fresh page now o)) as [Hok|Hfail].
  - destruct Hok as (Hhost & elements & _ & ->).
    unfold resolutionPass. rewrite updateCurrentTrigger_initial by done. done.
  - destruct Hfail as (Hhost & (error & Herr) & _).
    destruct (setup page _) as [c w']. simpl in Herr. by subst c.
Qed.

(** Against C6 as worded: the constructor merges the options over the
    defaults and checks nothing; with [debounceDelay: -5] an instance is
    built. *)
Lemma C6_negative_delay_constructs :
  ¬ rejects_negative_delay (samplePage topsA) 1000 (with_debounceDelay (-5) no_options).
Proof.
  intros Hrej. destruct (Hrej (-5)) as [error Herr]; [done | lia |].
  vm_compute in Herr. discriminate Herr.
Qed.

(** C6, amended. Construction does not validate [debounceDelay]: for every
    configuration, including one with a negative [debounceDelay],
    construction completes exactly when the page is still loading or the
    host sets the observer up (it has [IntersectionObserver], takes the
    threshold and the root margin, and parses the selector), and throws
    otherwise; whether it completes does not depend on the
    [debounceDelay], and the instance it builds holds the options merged over
    the defaults, the given [debounceDelay] unchanged (neither rejected nor
    clamped). *)
Theorem C6_construction_keeps_delay (page : Page) (now : Z) (o : Options) :
  match new_ScrollySystem page now o with
  | Normal w =>
      (loading page = true ∨ hostSetsUp page (merge_config o) = true)
      ∧ config (this w) = merge_config o
      ∧ debounceDelay (config (this w)) = default 10 (opt_debounceDelay o)
  | Throw _ => loading page = false ∧ hostSetsUp page (merge_config o) = false
  end
  ∧ ∀ d, returns (new_ScrollySystem page now (with_debounceDelay d o))
         = returns (new_ScrollySystem page now o).
Proof.
  split.
  - pose proof (new_ScrollySystem_cases page now o) as Hnew.
    destruct (new_ScrollySystem page now o) as [w|error].
    + destruct Hnew as [Hhost Hcfg]. apply orb_true_iff in Hhost.
      split; [done|]. split; [done|]. by rewrite Hcfg.
    + by apply orb_false_iff in Hnew.
  - intros d.
    pose proof (new_ScrollySystem_cases page now o) as Hnew.
    pose proof (new_ScrollySystem_cases page now (with_debounceDelay d o)) as Hnew'.
    assert (Hsame : hostSetsUp page (merge_config (with_debounceDelay d o))
                    = hostSetsUp page (merge_config o)) by done.
    rewrite Hsame in Hnew'.
    destruct (new_ScrollySystem page now o), (new_ScrollySystem page now _);
      simpl; try done.
    + destruct Hnew as [Hnew _]. congruence.
    + destruct Hnew' as [Hnew' _]. congruence.
Qed.

Lemma C6_construction_keeps_delay_witness :
  match new_ScrollySystem (samplePage topsA) 1000 (with_debounceDelay (-5) no_options) with
  | Normal w =>
      (loading (samplePage topsA) = true
       ∨ hostSetsUp (samplePage topsA) (merge_config (with_debounceDelay (-5) no_options))
         = true)
      ∧ config (this w) = merge_config (with_debounceDelay (-5) no_options)
      ∧ debounceDelay (config (this w)) = -5
  | Throw _ => False
  end.
Proof.
  pose proof (proj1 (C6_construction_keeps_delay (samplePage topsA) 1000
                       (with_debounceDelay (-5) no_options))) as Hnew.
  exact Hnew.
Defined.

(** The negative delay is only reported, as an info issue, by the diagnostics. *)
Example negative_delay_is_diagnosed :
  checkPerformance (samplePage topsA) (merge_config (with_debounceDelay (-5) no_options))
  = Normal [mkIssue "low_debounce" "info" None].
Proof. by vm_compute. Qed.

(** What the constructor throws is what the host throws: here the
    SyntaxError for the empty selector. *)
Example empty_selector_throws :
  new_ScrollySystem (samplePage topsA) 1000 (with_selector "" no_options)
  = Throw "SyntaxError".
Proof. by vm_compute. Qed.

(** ** Threshold warnings *)

(** Against C8 as worded: [checkPerformance] tests the length of the array;
    six equal values (one distinct value) are reported as too complex. *)
Lemma C8_repeated_values_warn :
  ¬ warns_as_specified (samplePage topsA)
      (with_threshold (Ratios (replicate 6 (1 # 2)%Q)) (merge_config no_options)).
Proof.
  intros Hclaim.
  destruct (Hclaim [mkIssue "complex_threshold" "warning" None] eq_refl) as [Hcomplex _].
  apply proj1 in Hcomplex.
  assert (Hlt : (5 < 1)%nat); [|lia].
  apply Hcomplex. constructor.
Qed.

Lemma filter_none {A} (P : A → Prop) `{∀ x, Decision (P x)} (l : list A) :
  Forall (λ x, ¬ P x) l → filter P l = [].
Proof.
  induction 1 as [|x l Hx _ IH]; [done|]. by rewrite filter_cons_False.
Qed.

Lemma validateElement_no_threshold page cfg acc el :
  Forall (λ issue, ¬ isThresholdIssue issue) acc.1 →
  Forall (λ issue, ¬ isThresholdIssue issue) (validateElement page cfg acc el).1.
Proof.
  destruct acc as [issues ids]. simpl. intros Hacc. unfold validateElement.
  assert (Hnew : ∀ ty sev o, ty ≠ "complex_threshold" → ty ≠ "high_threshold" →
                 Forall (λ issue, ¬ isThresholdIssue issue) [mkIssue ty sev o]).
  { intros ty sev o H1 H2. constructor; [|done]. unfold isThresholdIssue. simpl. tauto. }
  repeat case_match; simplify_eq/=; rewrite ?Forall_app; repeat split;
    try exact Hacc; by apply Hnew.
Qed.

Lemma validateElements_no_threshold page cfg elementIssues :
  validateElements page cfg = Normal elementIssues →
  Forall (λ issue, ¬ isThresholdIssue issue) elementIssues.
Proof.
  unfold validateElements.
  destruct (querySelectorAll page (selector cfg)) as [elements|]; [|done]. simpl.
  intros [= <-]. case_bool_decide.
  - constructor; [|done]. unfold isThresholdIssue. simpl. intros [?|?]; done.
  - assert (Hgen : ∀ els acc, Forall (λ issue, ¬ isThresholdIssue issue) acc.1 →
        Forall (λ issue, ¬ isThresholdIssue issue) (foldl (validateElement page cfg) acc els).1).
    { induction els as [|el els IH]; intros acc Hacc; [done|].
      simpl. by apply IH, validateElement_no_threshold. }
    by apply Hgen.
Qed.

Lemma _checkEnvironment_no_threshold page environmentIssues :
  _checkEnvironment page = Normal environmentIssues →
  Forall (λ issue, ¬ isThresholdIssue issue) environmentIssues.
Proof.
  unfold _checkEnvironment. destruct (hasBody page); [|done]. simpl.
  intros [= <-].
  repeat case_match; simpl; repeat constructor;
    unfold isThresholdIssue; simpl; intros [?|?]; done.
Qed.

Lemma checkPerformance_threshold page cfg performanceIssues :
  checkPerformance page cfg = Normal performanceIssues →
  thresholdWarnings performanceIssues = expectedThresholdWarnings (threshold cfg).
Proof.
  unfold checkPerformance, expectedThresholdWarnings, thresholdWarnings.
  destruct (querySelectorAll page (selector cfg)) as [elements|]; [|done]. simpl.
  intros [= <-].
  destruct (threshold cfg) as [t|ts];
    repeat case_bool_decide; try lia; try destruct (Qeq_bool t 1); by vm_compute.
Qed.

(** C8, amended. A [diagnose()] that computes its report (nothing cached
    for its key) emits exactly one threshold-related warning,
    "complex_threshold", when the threshold is an array of more than 5
    entries, repeated values counted; exactly one, "high_threshold", when the
    threshold is the number 1.0; and none otherwise. *)
Theorem C8_threshold_warnings (page : Page) (verbose : bool) (w : World) (report : Report) :
  _diagnosticCache (this w) !! cacheKeyOf verbose = None →
  (diagnose page verbose w).1 = Normal report →
  thresholdWarnings (issues report)
  = expectedThresholdWarnings (threshold (config (this w))).
Proof.
  intros Hmiss. rewrite diagnose_result, Hmiss. intros Hreport.
  apply freshReport_Normal in Hreport
    as (elements & elementIssues & performanceIssues & environmentIssues
        & _ & Hel & Hperf & Henv & ->).
  simpl. unfold thresholdWarnings. rewrite !filter_app.
  rewrite (filter_none _ _ (validateElements_no_threshold page _ _ Hel)).
  rewrite (filter_none _ _ (_checkEnvironment_no_threshold page _ Henv)).
  rewrite app_nil_r. simpl. by eapply checkPerformance_threshold.
Qed.

Lemma C8_threshold_warnings_witness :
  ∃ report, (diagnose (samplePage topsA) false worldSixRatios).1 = Normal report
            ∧ thresholdWarnings (issues report)
              = [mkIssue "complex_threshold" "warning" None].
Proof.
  eexists. split; [reflexivity|].
  apply (C8_threshold_warnings (samplePage topsA) false worldSixRatios).
  - by vm_compute.
  - reflexivity.
Defined.

Example full_visibility_threshold_warns :
  checkPerformance (samplePage topsA) (with_threshold (Scalar 1) (merge_config no_options))
  = Normal [mkIssue "high_threshold" "warning" None].
Proof. by vm_compute. Qed.

Example one_element_array_does_not_warn :
  checkPerformance (samplePage topsA)
    (with_threshold (Ratios [1%Q]) (merge_config no_options)) = Normal [].
Proof. by vm_compute. Qed.

(** ** The sticky current identifier *)

Lemma sticky_view w w' : resolutionView w' = resolutionView w → sticky w → sticky w'.
Proof.
  unfold resolutionView, sticky. intros [= -> -> ->]. done.
Qed.

Lemma sticky_resolutionPass page w : sticky w → sticky (resolutionPass page w).2.
Proof.
  intros (Hlast & Hnull & Hsome). unfold resolutionPass.
  destruct (visibleElements (this w)) as [|first rest] eqn:Hvis.
  - (* nothing visible: the remembered identifier is the current one already *)
    assert (Hsame : updateCurrentTrigger page (record_pass w) = (Normal (), record_pass w)).
    { unfold updateCurrentTrigger. simpl. rewrite Hvis, Hlast.
      destruct (currentTriggerId (this w)) as [id|] eqn:Hcur; [|done].
      unfold setCurrentTrigger. simpl. rewrite Hcur. by rewrite decide_False by naive_solver. }
    rewrite Hsame. unfold sticky, record_pass. simpl. split; [done|]. split.
    + intros Hall. apply Forall_app in Hall as [Hall _]. auto.
    + intros Htag Hvisible. apply Forall_app in Htag as [Htag _].
      apply Exists_app in Hvisible as [Hvisible|Hvisible]; [auto|].
      apply Exists_cons in Hvisible as [Hvisible|Hvisible]; [|by apply Exists_nil in Hvisible].
      unfold visiblePass in Hvisible. simpl in Hvisible. by rewrite Hvis in Hvisible.
  - destruct (updateCurrentTrigger_nonempty page (record_pass w) first rest Hvis)
      as [Hl Hc].
    destruct (updateCurrentTrigger_frame page (record_pass w)) as (_ & _ & _ & _ & _ & _ & _ & Hp & _).
    unfold sticky. rewrite Hl, Hc, Hp. unfold record_pass. simpl. split; [done|]. split.
    + intros Hall. apply Forall_app in Hall as [_ Hall].
      apply Forall_cons in Hall as [Hempty _].
      unfold emptyPass in Hempty. simpl in Hempty. by rewrite Hvis in Hempty.
    + intros Htag _. apply Forall_app in Htag as [_ Htag].
      apply Forall_cons in Htag as [Htag _].
      unfold taggedPass in Htag. simpl in Htag. rewrite Hvis in Htag.
      destruct (reduce_higher page first rest) as (i & Hi & _).
      rewrite Forall_lookup in Htag. exact (Htag i _ Hi).
Qed.

Lemma sticky_runTask page k w : sticky w → sticky (runTask page k w).
Proof.
  destruct k; simpl; [apply sticky_resolutionPass|]. by apply sticky_view.
Qed.

Lemma sticky_runDue page limit fuel : ∀ w, sticky w → sticky (runDue fuel page limit w).
Proof.
  induction fuel as [|fuel IH]; intros w Hw; [done|]. simpl.
  destruct (earliest (timers w)) as [tm|]; [|done].
  case_bool_decide; [|done].
  apply IH, sticky_runTask. by eapply sticky_view; [|exact Hw].
Qed.

Lemma intake_resolution page entries : ∀ s,
  currentTriggerId (foldl (intake page) s entries) = currentTriggerId s
  ∧ lastValidTriggerId (foldl (intake page) s entries) = lastValidTriggerId s.
Proof.
  induction entries as [|entry entries IH]; intros s; [done|]. simpl.
  destruct (IH (intake page s entry)) as [-> ->].
  unfold intake. by destruct (isIntersecting entry).
Qed.

Lemma sticky_step page ev w :
  ev ≠ Call_destroy → sticky w → sticky (step w (page, ev)).
Proof.
  intros Hev Hw. destruct ev; simpl; try done.
  - unfold advance. eapply sticky_view; [|by apply sticky_runDue]. done.
  - destruct (domReadyListener w); [|done].
    destruct (setup_cases page w) as [(_ & elements & _ & ->)|(_ & _ & [-> | ->])];
      try by eapply sticky_view; [|exact Hw].
    apply sticky_resolutionPass. by eapply sticky_view; [|exact Hw].
  - destruct (observer (this w)); [|done].
    eapply sticky_view; [|exact Hw]. unfold resolutionView, observerCallback.
    unfold debouncedUpdate, with_this. simpl.
    destruct (intake_resolution page entries (this w)) as [Hc Hl].
    destruct (_debounceTimer _); simpl; by rewrite Hc, Hl.
  - eapply sticky_view; [|exact Hw]. unfold resolutionView. simpl.
    by destruct (observe_frame element0 (this w)) as (_ & _ & _ & -> & -> & _).
  - eapply sticky_view; [|exact Hw]. unfold resolutionView. simpl.
    by destruct (unobserve_frame element0 (this w)) as (_ & _ & _ & -> & -> & _).
  - eapply sticky_view; [|exact Hw]. unfold resolutionView.
    by destruct (diagnose_frame page verbose w) as (_ & _ & -> & -> & _ & _ & -> & _).
Qed.

Lemma sticky_run trace : ∀ w,
  Forall (λ pe : Page * Event, pe.2 ≠ Call_destroy) trace → sticky w →
  sticky (run trace w).
Proof.
  induction trace as [|[page ev] trace IH]; intros w Hnd Hw; [done|].
  apply Forall_cons in Hnd as [Hev Hnd]. simpl. apply IH; [done|].
  by apply sticky_step.
Qed.

Lemma sticky_new page now o w :
  new_ScrollySystem page now o = Normal w → sticky w.
Proof.
  intros [[_ ->]|(_ & _ & elements & _ & ->)]%new_ScrollySystem_Normal;
    unfold sticky; simpl; (split; [done|]); (split; [done|]).
  - intros _ Hex. by apply Exists_nil in Hex.
  - intros _ Hex. apply Exists_cons in Hex as [Hex|Hex]; [done|].
    by apply Exists_nil in Hex.
Qed.

Example sampleWorld_constructed :
  new_ScrollySystem (samplePage topsA) 1000 no_options = Normal sampleWorld.
Proof. reflexivity. Qed.

Example untaggedTrace_notifies_null :
  last (effects (run untaggedTrace sampleWorld))
  = Some (DispatchEvent {| current := None; previous := Some "intro";
                           d_timestamp := 1110;
                           d_instanceId := "scrolly-1000-k3x9q2m1z" |}).
Proof. by vm_compute. Qed.

(** Against C2 as worded: an element without the trigger attribute enters
    the Visible Set with a null identifier; when it is resolved the current
    identifier is null again. *)
Lemma C2_untagged_element_resolves_null :
  ¬ never_null_after_visible (run untaggedTrace sampleWorld).
Proof.
  intros Hclaim. apply Hclaim; [|by vm_compute].
  vm_compute. apply Exists_cons_tl, Exists_cons_hd. discriminate.
Qed.

(** C2, amended. For every sequence of events with no [destroy()] call,
    [getCurrentTriggerId()] returns null as long as no resolution pass has
    read a non-empty Visible Set; and, provided every entry read by the
    resolution passes carried an identifier (the visible elements had the
    trigger attribute), it returns a non-null identifier at every point after
    a pass has read a non-empty Visible Set.  A resolution pass over an empty
    Visible Set re-emits [lastValidTriggerId] when it is set, which leaves it
    the current identifier and notifies nothing, and does nothing when it is
    null; either way it returns. *)
Theorem C2_sticky_identifier
    (page0 : Page) (now : Z) (o : Options) (w0 : World) (trace : list (Page * Event)) :
  new_ScrollySystem page0 now o = Normal w0 →
  Forall (λ pe : Page * Event, pe.2 ≠ Call_destroy) trace →
  let w := run trace w0 in
  (Forall emptyPass (passes w) → getCurrentTriggerId w = None)
  ∧ (Forall taggedPass (passes w) → Exists visiblePass (passes w) →
     is_Some (getCurrentTriggerId w))
  ∧ (∀ page, visibleElements (this w) = [] →
       updateCurrentTrigger page w
       = match lastValidTriggerId (this w) with
         | Some id => setCurrentTrigger (Some id) w
         | None => (Normal (), w)
         end
       ∧ (updateCurrentTrigger page w).1 = Normal ()
       ∧ getCurrentTriggerId (updateCurrentTrigger page w).2 = lastValidTriggerId (this w)
       ∧ effects (updateCurrentTrigger page w).2 = effects w).
Proof.
  intros Hnew Hnd w.
  assert (Hsticky : sticky w) by (eapply sticky_run, sticky_new; done).
  destruct Hsticky as (Hlast & Hnull & Hsome).
  split; [exact Hnull|]. split; [exact Hsome|].
  intros page Hvis. unfold updateCurrentTrigger, getCurrentTriggerId. rewrite Hvis.
  split; [done|].
  destruct (lastValidTriggerId (this w)) as [id|] eqn:Hl; [|simpl; by rewrite <- Hlast].
  rewrite Hlast, setCurrentTrigger_same. done.
Qed.

Example scenario_stays_on_section1 :
  getCurrentTriggerId (run scenarioTrace sampleWorld) = Some "section1"
  ∧ visibleElements (this (run scenarioTrace sampleWorld)) = []
  ∧ length (effects (run scenarioTrace sampleWorld)) = 2%nat.
Proof. by vm_compute. Qed.

Lemma C2_sticky_identifier_witness :
  let w := run scenarioTrace sampleWorld in
  (Forall emptyPass (passes w) → getCurrentTriggerId w = None)
  ∧ (Forall taggedPass (passes w) → Exists visiblePass (passes w) →
     is_Some (getCurrentTriggerId w))
  ∧ (∀ page, visibleElements (this w) = [] →
       updateCurrentTrigger page w
       = match lastValidTriggerId (this w) with
         | Some id => setCurrentTrigger (Some id) w
         | None => (Normal (), w)
         end
       ∧ (updateCurrentTrigger page w).1 = Normal ()
       ∧ getCurrentTriggerId (updateCurrentTrigger page w).2 = lastValidTriggerId (this w)
       ∧ effects (updateCurrentTrigger page w).2 = effects w).
Proof.
  apply (C2_sticky_identifier (samplePage topsA) 1000 no_options sampleWorld scenarioTrace).
  - reflexivity.
  - unfold scenarioTrace. repeat constructor; simpl; discriminate.
Defined.

(** ** Debounce coalescing *)

(** A delay below 2^31 ms reaches the timer as it is. *)
Lemma to_long_small d : timerDelay d → Z.max 0 (to_long d) = d.
Proof.
  unfold timerDelay, to_long. intros Hd.
  rewrite Z.mod_small by lia. lia.
Qed.

Example to_long_wraps : to_long 2147483648 = -2147483648.
Proof. reflexivity. Qed.

Lemma earliest_None l : earliest l = None → l = [].
Proof.
  destruct l as [|tm l]; [done|]. simpl.
  destruct (earliest l); [case_bool_decide|]; done.
Qed.

Lemma earliest_Some l tm :
  earliest l = Some tm → tm ∈ l ∧ ∀ x, x ∈ l → due tm ≤ due x.
Proof.
  revert tm. induction l as [|y l IH]; intros tm; [done|]. simpl.
  destruct (earliest l) as [tm'|] eqn:E.
  - destruct (IH tm' eq_refl) as [Hin Hmin].
    case_bool_decide; intros [= <-].
    + split; [by right|]. intros x [->|Hx]%elem_of_cons; [lia|auto].
    + split; [by left|]. intros x [->|Hx]%elem_of_cons; [lia|].
      specialize (Hmin x Hx). lia.
  - apply earliest_None in E as ->. intros [= <-].
    split; [by left|]. by intros x ->%list_elem_of_singleton.
Qed.

(** With unique ids, removing by id removes exactly that timer. *)
Lemma filter_tid_length (l : list Timer) tm :
  tm ∈ l → (length (filter (λ x, tid x ≠ tid tm) l) < length l)%nat.
Proof.
  induction l as [|y l IH]; intros Hin; [by apply elem_of_nil in Hin|].
  apply elem_of_cons in Hin as [<-|Hin].
  - rewrite filter_cons_False by naive_solver. simpl.
    pose proof (length_filter (λ x, tid x ≠ tid tm) l). lia.
  - rewrite filter_cons. specialize (IH Hin). destruct (decide _); simpl; lia.
Qed.

Lemma NoDup_tid_eq (l : list Timer) x y :
  NoDup (tid <$> l) → x ∈ l → y ∈ l → tid x = tid y → x = y.
Proof.
  induction l as [|z l IH]; intros Hnd Hx Hy Heq; [by apply elem_of_nil in Hx|].
  rewrite fmap_cons in Hnd. apply NoDup_cons in Hnd as [Hz Hnd].
  apply elem_of_cons in Hx as [->|Hx]; apply elem_of_cons in Hy as [->|Hy]; auto.
  - exfalso. apply Hz. rewrite Heq. by apply list_elem_of_fmap_2.
  - exfalso. apply Hz. rewrite <- Heq. by apply list_elem_of_fmap_2.
Qed.

Lemma NoDup_tid_filter (P : Timer → Prop) `{∀ x, Decision (P x)} (l : list Timer) :
  NoDup (tid <$> l) → NoDup (tid <$> filter P l).
Proof.
  induction l as [|z l IH]; [done|]. rewrite fmap_cons. intros [Hz Hnd]%NoDup_cons.
  rewrite filter_cons. destruct (decide (P z)); [|auto].
  rewrite fmap_cons. apply NoDup_cons. split; [|auto].
  intros (y & Hy & Hin)%list_elem_of_fmap. apply list_elem_of_filter in Hin as [_ Hin].
  apply Hz. rewrite Hy. by apply list_elem_of_fmap_2.
Qed.

(** At most one debounce timer is pending. *)
Lemma pendingUpdates_unique w tm :
  timersOk w → tm ∈ timers w → isUpdate tm → pendingUpdates w = [tm].
Proof.
  intros (Hnd & _ & Hnamed) Hin Hupd. unfold pendingUpdates.
  rewrite Forall_forall in Hnamed.
  assert (Hsame : ∀ x, x ∈ timers w → isUpdate x → x = tm).
  { intros x Hx Hxu. apply (NoDup_tid_eq (timers w)); [done..|].
    pose proof (Hnamed x Hx Hxu). pose proof (Hnamed tm Hin Hupd). congruence. }
  clear Hnamed. induction (timers w) as [|y l IH]; [by apply elem_of_nil in Hin|].
  rewrite fmap_cons in Hnd. apply NoDup_cons in Hnd as [Hy Hnd].
  rewrite filter_cons. destruct (decide (isUpdate y)) as [Hyu|Hyu].
  - assert (y = tm) as -> by (apply Hsame; [by left | done]).
    f_equal. apply filter_none, Forall_forall. intros x Hx Hxu.
    assert (x = tm) as -> by (apply Hsame; [by right | done]).
    apply Hy. by apply list_elem_of_fmap_2.
  - apply elem_of_cons in Hin as [->|Hin]; [done|].
    apply IH; [done..|]. intros x Hx. apply Hsame. by right.
Qed.

Lemma pendingUpdates_cases w :
  timersOk w →
  pendingUpdates w = [] ∨ ∃ tm, pendingUpdates w = [tm] ∧ tm ∈ timers w ∧ isUpdate tm.
Proof.
  intros Hok. destruct (pendingUpdates w) as [|tm l] eqn:E; [by left|]. right.
  assert (Hin : tm ∈ pendingUpdates w) by (rewrite E; by left).
  apply list_elem_of_filter in Hin as [Hupd Hin].
  exists tm. split; [|done]. rewrite <- E. by apply pendingUpdates_unique.
Qed.

(** What the timer tasks leave alone. *)
Lemma runTask_frame page k w :
  let w' := runTask page k w in
  timers w' = timers w ∧ nextTimerId w' = nextTimerId w ∧ clock w' = clock w
  ∧ _debounceTimer (this w') = _debounceTimer (this w)
  ∧ config (this w') = config (this w) ∧ observer (this w') = observer (this w)
  ∧ passTimes w' = passTimes w ++ (if decide (k = DebouncedUpdate) then [clock w] else []).
Proof.
  destruct k as [|key]; simpl.
  - unfold resolutionPass, passTimes.
    destruct (updateCurrentTrigger_frame page (record_pass w))
      as (_ & -> & -> & -> & _ & -> & -> & -> & -> & _).
    unfold record_pass. simpl. by rewrite fmap_app.
  - unfold passTimes. simpl. by rewrite app_nil_r.
Qed.

Lemma timersOk_filter (P : Timer → Prop) `{∀ x, Decision (P x)} w w' :
  timers w' = filter P (timers w) → nextTimerId w' = nextTimerId w →
  _debounceTimer (this w') = _debounceTimer (this w) →
  timersOk w → timersOk w'.
Proof.
  intros Ht Hn Hd (Hnd & Hlt & Hnamed). unfold timersOk. rewrite Ht, Hn, Hd.
  split; [by apply NoDup_tid_filter|].
  rewrite !Forall_forall in *. split.
  - intros x [_ Hx]%list_elem_of_filter. auto.
  - intros x [_ Hx]%list_elem_of_filter. auto.
Qed.

Lemma filter_implied {A} (P Q : A → Prop) `{∀ x, Decision (P x)} `{∀ x, Decision (Q x)}
    (l : list A) :
  (∀ x, x ∈ l → P x → Q x) → filter P (filter Q l) = filter P l.
Proof.
  induction l as [|y l IH]; intros Himp; [done|].
  assert (Htl : ∀ x, x ∈ l → P x → Q x) by (intros x Hx; apply Himp; by right).
  rewrite (filter_cons Q). destruct (decide (Q y)) as [Hq|Hq].
  - rewrite !filter_cons. destruct (decide (P y)); by rewrite IH.
  - rewrite filter_cons_False; [by apply IH|].
    intros Hp. apply Hq, Himp; [by left | done].
Qed.

Ltac split_frame :=
  split; [done|]; split; [done|]; split; [done|]; split; [lia|]; done.

(** Running the due timers: the pending debounce timer, if it is due, fires
    once, at its due time; nothing else adds a resolution pass. *)
Lemma runDue_spec page limit fuel : ∀ w,
  timersOk w → (length (timers w) ≤ fuel)%nat →
  Forall (λ tm, clock w ≤ due tm) (pendingUpdates w) →
  let r := runDue fuel page limit w in
  timersOk r
  ∧ pendingUpdates r = filter (λ tm, limit < due tm) (pendingUpdates w)
  ∧ passTimes r = passTimes w ++ (due <$> filter (λ tm, due tm ≤ limit) (pendingUpdates w))
  ∧ clock w ≤ clock r ≤ Z.max (clock w) limit
  ∧ config (this r) = config (this w) ∧ observer (this r) = observer (this w).
Proof.
  induction fuel as [|fuel IH]; intros w Hok Hlen Hclock.
  { assert (Hnil : timers w = []) by (apply nil_length_inv; lia).
    unfold pendingUpdates. simpl. rewrite Hnil. simpl. rewrite app_nil_r.
    split_frame. }
  simpl. destruct (earliest (timers w)) as [tm0|] eqn:Hearly.
  2: { apply earliest_None in Hearly. unfold pendingUpdates. rewrite Hearly. simpl.
       rewrite app_nil_r. split_frame. }
  apply earliest_Some in Hearly as [Hin0 Hmin].
  case_bool_decide as Hdue.
  2: { (* nothing is due *)
       assert (Hlate : ∀ x, x ∈ pendingUpdates w → limit < due x).
       { intros x [_ Hx]%list_elem_of_filter. specialize (Hmin x Hx). lia. }
       rewrite (filter_none (λ tm, due tm ≤ limit)).
       2: { apply Forall_forall. intros x Hx. specialize (Hlate x Hx). lia. }
       simpl. rewrite app_nil_r.
       assert (Hall : filter (λ tm, limit < due tm) (pendingUpdates w) = pendingUpdates w).
       { clear -Hlate. induction (pendingUpdates w) as [|y l IHl]; [done|].
         rewrite filter_cons_True by (apply Hlate; by left).
         f_equal. apply IHl. intros x Hx. apply Hlate. by right. }
       rewrite Hall. split_frame. }
  set (w1 := set_clock (Z.max (clock w) (due tm0))
               (set_timers (filter (λ x, tid x ≠ tid tm0) (timers w)) w)).
  destruct (runTask_frame page (task tm0) w1) as (Ht & Hn & Hc & Hd & Hcfg & Hobs & Hp).
  set (w2 := runTask page (task tm0) w1) in *.
  assert (Hok2 : timersOk w2).
  { by apply (timersOk_filter (λ x, tid x ≠ tid tm0) w w2). }
  assert (Hlen2 : (length (timers w2) ≤ fuel)%nat).
  { rewrite Ht. simpl. pose proof (filter_tid_length (timers w) tm0 Hin0). lia. }
  destruct (decide (isUpdate tm0)) as [Hupd|Hupd].
  - (* the debounce timer fires *)
    assert (Hpend : pendingUpdates w = [tm0]) by by apply pendingUpdates_unique.
    assert (Hpend2 : pendingUpdates w2 = []).
    { unfold pendingUpdates. rewrite Ht. simpl. apply filter_none, Forall_forall.
      intros x [Hne Hx]%list_elem_of_filter Hxu.
      assert (Hx' : x ∈ pendingUpdates w) by by apply list_elem_of_filter.
      rewrite Hpend in Hx'. apply list_elem_of_singleton in Hx' as ->. done. }
    rewrite Hpend in Hclock. apply Forall_cons in Hclock as [Hclock _].
    destruct (IH w2 Hok2 Hlen2) as (Hokr & Hpr & Hpassr & Hclr & Hcfgr & Hobsr).
    { rewrite Hpend2. constructor. }
    rewrite Hpend2 in Hpr, Hpassr. simpl in Hpr, Hpassr. rewrite app_nil_r in Hpassr.
    rewrite Hpend. rewrite filter_cons_False by lia.
    rewrite filter_cons_True by done. simpl.
    rewrite Hpassr, Hp, Hcfgr, Hobsr, Hcfg, Hobs.
    rewrite decide_True by done. rewrite Hc in Hclr. subst w1. simpl in *.
    split; [done|]. split; [done|]. split; [|split; [lia|done]].
    do 3 f_equal. lia.
  - (* a cache eviction fires *)
    assert (Hpend2 : pendingUpdates w2 = pendingUpdates w).
    { unfold pendingUpdates. rewrite Ht. simpl. apply filter_implied.
      intros x Hx Hxu Heq. apply Hupd.
      by rewrite <- (NoDup_tid_eq (timers w) x tm0 (proj1 Hok) Hx Hin0 Heq). }
    destruct (IH w2 Hok2 Hlen2) as (Hokr & Hpr & Hpassr & Hclr & Hcfgr & Hobsr).
    { rewrite Hpend2, Hc. subst w1. simpl. rewrite Forall_forall in *.
      intros x Hx. specialize (Hclock x Hx).
      apply list_elem_of_filter in Hx as [_ Hx]. specialize (Hmin x Hx). lia. }
    rewrite Hpend2 in Hpr, Hpassr.
    rewrite Hpr, Hpassr, Hp, Hcfgr, Hobsr, Hcfg, Hobs.
    rewrite decide_False by done. rewrite app_nil_r.
    rewrite Hc in Hclr. subst w1. simpl in *. split_frame.
Qed.

Lemma advance_spec page (inclusive : bool) t w :
  timersOk w → clock w ≤ t →
  Forall (λ tm, clock w ≤ due tm) (pendingUpdates w) →
  let limit := if inclusive then t else t - 1 in
  let r := advance page inclusive t w in
  timersOk r
  ∧ pendingUpdates r = filter (λ tm, limit < due tm) (pendingUpdates w)
  ∧ passTimes r = passTimes w ++ (due <$> filter (λ tm, due tm ≤ limit) (pendingUpdates w))
  ∧ clock r = t
  ∧ config (this r) = config (this w) ∧ observer (this r) = observer (this w).
Proof.
  intros Hok Hnow Hclock limit. unfold advance. fold limit.
  destruct (runDue_spec page limit (length (timers w)) w Hok (le_n _) Hclock)
    as (Hokr & Hpr & Hpassr & Hclr & Hcfgr & Hobsr).
  simpl. split; [exact Hokr|]. split; [exact Hpr|]. split; [exact Hpassr|].
  split; [|done]. simpl.
  assert (Hlim : limit ≤ t) by (subst limit; destruct inclusive; lia). lia.
Qed.

Lemma intake_frame page entries : ∀ s,
  config (foldl (intake page) s entries) = config s
  ∧ observer (foldl (intake page) s entries) = observer s
  ∧ _debounceTimer (foldl (intake page) s entries) = _debounceTimer s.
Proof.
  induction entries as [|entry entries IH]; intros s; [done|]. simpl.
  destruct (IH (intake page s entry)) as (-> & -> & ->).
  unfold intake. by destruct (isIntersecting entry).
Qed.

(** A call of the debounced function leaves exactly one debounce timer
    pending, due [debounceDelay] (as a [long], and at least 0) after now. *)
Lemma debouncedUpdate_spec w :
  timersOk w →
  let r := debouncedUpdate w in
  timersOk r
  ∧ (∃ tm, pendingUpdates r = [tm]
           ∧ due tm = clock w + Z.max 0 (to_long (debounceDelay (config (this w)))))
  ∧ passTimes r = passTimes w ∧ clock r = clock w
  ∧ config (this r) = config (this w) ∧ observer (this r) = observer (this w).
Proof.
  intros (Hnd & Hlt & Hnamed). unfold debouncedUpdate.
  set (w1 := clearTimeout (_debounceTimer (this w)) w).
  assert (Hw1 : this w1 = this w ∧ clock w1 = clock w ∧ nextTimerId w1 = nextTimerId w
                ∧ passes w1 = passes w).
  { subst w1. unfold clearTimeout. by destruct (_debounceTimer (this w)). }
  destruct Hw1 as (Hthis1 & Hclock1 & Hnext1 & Hpasses1).
  assert (Hsub : ∀ x, x ∈ timers w1 → x ∈ timers w ∧ ¬ isUpdate x).
  { rewrite Forall_forall in Hnamed. subst w1. unfold clearTimeout.
    destruct (_debounceTimer (this w)) as [i|] eqn:Hid; simpl.
    - intros x [Hne Hx]%list_elem_of_filter. split; [done|].
      intros Hxu. specialize (Hnamed x Hx Hxu). congruence.
    - intros x Hx. split; [done|]. intros Hxu. by specialize (Hnamed x Hx Hxu). }
  assert (Hnd1 : NoDup (tid <$> timers w1)).
  { subst w1. unfold clearTimeout. destruct (_debounceTimer (this w)); [|done].
    simpl. by apply NoDup_tid_filter. }
  unfold setTimeout. simpl. rewrite Hthis1, Hclock1, Hnext1.
  set (tmN := {| tid := nextTimerId w;
                 due := clock w + Z.max 0 (to_long (debounceDelay (config (this w))));
                 task := DebouncedUpdate |}).
  rewrite Forall_forall in Hlt.
  split; [|split; [|by unfold passTimes; simpl; rewrite Hpasses1]].
  - unfold timersOk. simpl. split; [|split].
    + rewrite fmap_app. apply NoDup_app. split; [done|]. split; [|apply NoDup_singleton].
      intros i (x & -> & Hx)%list_elem_of_fmap Hi. simpl in Hi.
      apply list_elem_of_singleton in Hi.
      destruct (Hsub x Hx) as [Hx' _]. specialize (Hlt x Hx'). lia.
    + apply Forall_app. split; [|by repeat constructor].
      apply Forall_forall. intros x Hx.
      destruct (Hsub x Hx) as [Hx' _]. specialize (Hlt x Hx'). lia.
    + apply Forall_app. split; [|by repeat constructor].
      apply Forall_forall. intros x Hx Hxu. by destruct (Hsub x Hx).
  - exists tmN. split; [|done]. unfold pendingUpdates. simpl.
    rewrite filter_app, filter_none; [done|].
    apply Forall_forall. intros x Hx. by destruct (Hsub x Hx).
Qed.

Lemma observerCallback_spec page entries w :
  timersOk w →
  let r := observerCallback page entries w in
  timersOk r
  ∧ (∃ tm, pendingUpdates r = [tm]
           ∧ due tm = clock w + Z.max 0 (to_long (debounceDelay (config (this w)))))
  ∧ passTimes r = passTimes w ∧ clock r = clock w
  ∧ config (this r) = config (this w) ∧ observer (this r) = observer (this w).
Proof.
  intros Hok. unfold observerCallback.
  destruct (intake_frame page entries (this w)) as (Hcfg & Hobs & Hd).
  set (w' := with_this (λ s, foldl (intake page) s entries) w).
  assert (Hok' : timersOk w').
  { unfold timersOk, w'. simpl. by rewrite Hd. }
  destruct (debouncedUpdate_spec w' Hok') as (Hokr & Hpend & Hpass & Hclock & Hcfgr & Hobsr).
  split; [done|]. split; [|split; [done|split; [done|]]].
  - destruct Hpend as (tm & Htm & Hdue). exists tm. split; [done|].
    rewrite Hdue. unfold w'. simpl. by rewrite Hcfg.
  - rewrite Hcfgr, Hobsr. unfold w'. simpl. by rewrite Hcfg, Hobs.
Qed.

Lemma run_app tr1 tr2 w : run (tr1 ++ tr2) w = run tr2 (run tr1 w).
Proof. unfold run. apply foldl_app. Qed.

Lemma deliver_cons a rest : deliver (a :: rest) = arrive a ++ deliver rest.
Proof. reflexivity. Qed.

Lemma run_arrive a w :
  run (arrive a) w
  = match observer (this (advance (pageThen a) (timersFirst a) (arrivesAt a) w)) with
    | Some _ => observerCallback (pageThen a) (batch a)
                  (advance (pageThen a) (timersFirst a) (arrivesAt a) w)
    | None => advance (pageThen a) (timersFirst a) (arrivesAt a) w
    end.
Proof. reflexivity. Qed.

(** One more batch: the pending timer fires first if it is due, and the
    batch arms a new one. *)
Lemma arrive_spec wait a w :
  timersOk w → is_Some (observer (this w)) →
  Z.max 0 (to_long (debounceDelay (config (this w)))) = wait →
  clock w ≤ arrivesAt a →
  Forall (λ tm, clock w ≤ due tm) (pendingUpdates w) →
  let limit := if timersFirst a then arrivesAt a else arrivesAt a - 1 in
  armed wait (arrivesAt a) (run (arrive a) w)
  ∧ passTimes (run (arrive a) w)
    = passTimes w ++ (due <$> filter (λ tm, due tm ≤ limit) (pendingUpdates w)).
Proof.
  intros Hok Hobs Hwait Hnow Hclock limit. rewrite run_arrive.
  destruct (advance_spec (pageThen a) (timersFirst a) (arrivesAt a) w Hok Hnow Hclock)
    as (Hok1 & _ & Hpass1 & Hclock1 & Hcfg1 & Hobs1).
  set (w1 := advance (pageThen a) (timersFirst a) (arrivesAt a) w) in *.
  rewrite <- Hobs1 in Hobs. destruct (observer (this w1)) as [o|] eqn:Ho; [|by destruct Hobs].
  destruct (observerCallback_spec (pageThen a) (batch a) w1 Hok1)
    as (Hok2 & (tm & Htm & Hdue) & Hpass2 & Hclock2 & Hcfg2 & Hobs2).
  split.
  - split; [done|]. split; [by rewrite Hobs2, Ho|].
    split; [by rewrite Hcfg2, Hcfg1|]. split; [by rewrite Hclock2|].
    exists tm. split; [done|]. by rewrite Hdue, Hclock1, Hcfg1, Hwait.
  - by rewrite Hpass2, Hpass1.
Qed.

Lemma arrive_armed wait t a w :
  armed wait t w → t ≤ arrivesAt a →
  let limit := if timersFirst a then arrivesAt a else arrivesAt a - 1 in
  armed wait (arrivesAt a) (run (arrive a) w)
  ∧ passTimes (run (arrive a) w)
    = passTimes w ++ (if decide (t + wait ≤ limit) then [t + wait] else []).
Proof.
  intros (Hok & Hobs & Hwait & Hclock & tm & Htm & Hdue) Hle limit.
  destruct (arrive_spec wait a w Hok Hobs Hwait) as [Harmed Hpass].
  { lia. }
  { rewrite Htm. repeat constructor. lia. }
  split; [done|]. rewrite Hpass, Htm. fold limit. f_equal.
  destruct (decide (t + wait ≤ limit)) as [Hd|Hd].
  - rewrite filter_cons_True by lia. rewrite filter_nil. simpl. by rewrite Hdue.
  - rewrite filter_cons_False by lia. by rewrite filter_nil.
Qed.

Lemma default_last_cons (t t' : Z) ts :
  default t (last (t' :: ts)) = default t' (last ts).
Proof.
  revert t t'. induction ts as [|u ts IH]; intros t t'; [done|].
  rewrite last_cons_cons. by rewrite (IH t u), (IH t' u).
Qed.

(** Batches in quick succession keep re-arming the timer: no pass runs. *)
Lemma arrivesBefore_limit delay t a :
  arrivesBefore delay t a →
  t ≤ arrivesAt a
  ∧ ¬ t + delay ≤ (if timersFirst a then arrivesAt a else arrivesAt a - 1).
Proof.
  intros [Hle [Hlt|[Heq Hbatch]]]; (split; [done|]).
  - destruct (timersFirst a); lia.
  - rewrite Hbatch. lia.
Qed.

Lemma arrivesAfter_limit delay t a :
  0 ≤ delay → arrivesAfter delay t a →
  t ≤ arrivesAt a
  ∧ t + delay ≤ (if timersFirst a then arrivesAt a else arrivesAt a - 1).
Proof.
  intros Hdelay [Hlt|[Heq Htimer]]; (split; [lia|]).
  - destruct (timersFirst a); lia.
  - rewrite Htimer. lia.
Qed.

Lemma deliver_near wait : ∀ rest t w,
  armed wait t w → near wait t rest →
  armed wait (default t (last (arrivesAt <$> rest))) (run (deliver rest) w)
  ∧ passTimes (run (deliver rest) w) = passTimes w.
Proof.
  induction rest as [|a rest IH]; intros t w Harmed Hnear; [done|].
  destruct Hnear as [[Hle Hlt]%arrivesBefore_limit Hnear].
  rewrite deliver_cons, run_app.
  destruct (arrive_armed wait t a w Harmed Hle) as [Harmed1 Hpass1].
  rewrite decide_False in Hpass1 by done.
  rewrite app_nil_r in Hpass1.
  destruct (IH (arrivesAt a) _ Harmed1 Hnear) as [Harmed2 Hpass2].
  rewrite Hpass2, Hpass1. split; [|done].
  by rewrite fmap_cons, default_last_cons.
Qed.

Lemma allButLast_last t ts : allButLast t ts ++ [default t (last ts)] = t :: ts.
Proof.
  revert t. induction ts as [|t' ts IH]; intros t; [done|].
  simpl. f_equal. by rewrite default_last_cons.
Qed.

(** Batches far apart: the timer of each fires before the next arrives. *)
Lemma deliver_apart wait : ∀ rest t w,
  armed wait t w → apart wait t rest →
  armed wait (default t (last (arrivesAt <$> rest))) (run (deliver rest) w)
  ∧ passTimes (run (deliver rest) w)
    = passTimes w ++ ((λ t', t' + wait) <$> allButLast t (arrivesAt <$> rest)).
Proof.
  induction rest as [|a rest IH]; intros t w Harmed Hapart.
  { simpl. by rewrite app_nil_r. }
  assert (Hwait : 0 ≤ wait) by (destruct Harmed as (_ & _ & <- & _); lia).
  destruct Hapart as [[Hle Hlt]%arrivesAfter_limit Hapart]; [|done].
  rewrite deliver_cons, run_app.
  destruct (arrive_armed wait t a w Harmed Hle) as [Harmed1 Hpass1].
  rewrite decide_True in Hpass1 by done.
  destruct (IH (arrivesAt a) _ Harmed1 Hapart) as [Harmed2 Hpass2].
  rewrite Hpass2, Hpass1. split.
  - by rewrite fmap_cons, default_last_cons.
  - rewrite fmap_cons. simpl. by rewrite <- app_assoc.
Qed.

(** After the last batch the pending timer fires at its due time. *)
Lemma advance_armed wait t page inclusive tEnd w :
  armed wait t w → t + wait < tEnd →
  passTimes (advance page inclusive tEnd w) = passTimes w ++ [t + wait].
Proof.
  intros (Hok & _ & Hwait & Hclock & tm & Htm & Hdue) Hend.
  assert (0 ≤ wait) by lia.
  destruct (advance_spec page inclusive tEnd w Hok) as (_ & _ & Hpass & _).
  { lia. }
  { rewrite Htm. repeat constructor. lia. }
  rewrite Hpass, Htm. rewrite filter_cons_True by (destruct inclusive; lia).
  rewrite filter_nil. simpl. by rewrite Hdue.
Qed.

(** Against C4 as worded: the host takes the delay of a timer as a 32-bit
    integer, and [debounceDelay] reaches it as given.  With a delay of 2^31 ms
    the timers are due at once: of two batches 5 ms apart each gets its own
    resolution pass, and none waits for the delay. *)
Lemma C4_long_delay_runs_every_pass :
  ¬ coalesces worldLongDelay
      {| arrivesAt := 1005; timersFirst := true; pageThen := samplePage topsA;
         batch := [enter 1%nat] |}
      (tail twoBatches) (samplePage topsA) 2147484659.
Proof.
  intros Hclaim.
  assert (Hpasses : passTimes (run (deliver twoBatches
                                     ++ [(samplePage topsA, Advance true 2147484659)])
                                 worldLongDelay)
                    = [1000; 1005; 1010]) by by vm_compute.
  unfold coalesces in Hclaim. cbv zeta in Hclaim.
  change ({| arrivesAt := 1005; timersFirst := true; pageThen := samplePage topsA;
             batch := [enter 1%nat] |} :: tail twoBatches) with twoBatches in Hclaim.
  rewrite Hpasses in Hclaim.
  assert (Hfalse : [1000; 1005; 1010] = passTimes worldLongDelay ++ [2147484658]).
  { apply Hclaim; vm_compute; repeat split; discriminate. }
  vm_compute in Hfalse. discriminate Hfalse.
Qed.

(** C4, amended. For a [debounceDelay] that the host's timers take as it
    is (from 0 to 2^31 - 1 ms) and every N ≥ 1 (the batches
    [first :: rest]), starting with no debounce timer pending: when each
    batch arrives while the timer of the previous one is pending (less than
    [debounceDelay] ms after it, or exactly [debounceDelay] ms after it
    when the host delivers the batch before it runs the timer due at that
    instant), every batch cancels and replaces the pending timer (one timer
    is pending after the last batch) and exactly one resolution pass runs,
    [debounceDelay] ms after the last batch; when each batch arrives after
    the timer of the previous one has run (more than [debounceDelay] ms
    after it, or exactly [debounceDelay] ms after it when the host runs the
    timer first), exactly N resolution passes run, one [debounceDelay] ms
    after each batch. *)
Theorem C4_debounce_coalescing
    (w0 : World) (first : Arrival) (rest : list Arrival)
    (pageEnd : Page) (inclusiveEnd : bool) (tEnd : Z) :
  timersOk w0 → pendingUpdates w0 = [] → is_Some (observer (this w0)) →
  timerDelay (debounceDelay (config (this w0))) →
  clock w0 ≤ arrivesAt first →
  let delay := debounceDelay (config (this w0)) in
  let tLast := default (arrivesAt first) (last (arrivesAt <$> rest)) in
  tLast + delay < tEnd →
  let w := run (deliver (first :: rest) ++ [(pageEnd, Advance inclusiveEnd tEnd)]) w0 in
  (near delay (arrivesAt first) rest →
   passTimes w = passTimes w0 ++ [tLast + delay]
   ∧ ∃ tm, pendingUpdates (run (deliver (first :: rest)) w0) = [tm]
           ∧ due tm = tLast + delay)
  ∧ (apart delay (arrivesAt first) rest →
     passTimes w = passTimes w0 ++ ((λ a, arrivesAt a + delay) <$> first :: rest)).
Proof.
  intros Hok Hquiet Hobs Hdelay Hnow delay tLast Hend w.
  assert (Hwait : Z.max 0 (to_long (debounceDelay (config (this w0)))) = delay)
    by by apply to_long_small.
  destruct (arrive_spec delay first w0 Hok Hobs Hwait Hnow) as [Harmed1 Hpass1].
  { rewrite Hquiet. constructor. }
  rewrite Hquiet, filter_nil, fmap_nil, app_nil_r in Hpass1.
  assert (Hw : w = advance pageEnd inclusiveEnd tEnd
                     (run (deliver rest) (run (arrive first) w0))).
  { subst w. by rewrite deliver_cons, !run_app. }
  split.
  - intros Hnear.
    destruct (deliver_near delay rest _ _ Harmed1 Hnear) as [Harmed2 Hpass2].
    split.
    + rewrite Hw, (advance_armed _ _ _ _ _ _ Harmed2 Hend). by rewrite Hpass2, Hpass1.
    + rewrite deliver_cons, run_app. by destruct Harmed2 as (_ & _ & _ & _ & Hpending).
  - intros Hapart.
    destruct (deliver_apart delay rest _ _ Harmed1 Hapart) as [Harmed2 Hpass2].
    rewrite Hw, (advance_armed _ _ _ _ _ _ Harmed2 Hend), Hpass2, Hpass1.
    rewrite <- !app_assoc. f_equal.
    change [default (arrivesAt first) (last (arrivesAt <$> rest)) + delay]
      with ((λ t', t' + delay) <$> [default (arrivesAt first) (last (arrivesAt <$> rest))]).
    rewrite <- fmap_app, allButLast_last.
    change (arrivesAt first :: (arrivesAt <$> rest)) with (arrivesAt <$> first :: rest).
    by rewrite <- list_fmap_compose.
Qed.

Example burst_runs_one_pass :
  passTimes (run (deliver burst ++ [(samplePage topsA, Advance true 1100)]) sampleWorld)
  = [1000; 1029].
Proof. by vm_compute. Qed.

Example spread_runs_three_passes :
  passTimes (run (deliver spread ++ [(samplePage topsA, Advance true 1100)]) sampleWorld)
  = [1000; 1015; 1030; 1050].
Proof. by vm_compute. Qed.

(** Two batches exactly [debounceDelay] = 10 ms apart: one pass when the
    host delivers the second batch before it runs the timer due at that
    instant, two passes when it runs the timer first. *)
Example gap_of_exactly_the_delay :
  passTimes
    (run (deliver [{| arrivesAt := 1005; timersFirst := true;
                      pageThen := samplePage topsA; batch := [enter 1%nat] |};
                   {| arrivesAt := 1015; timersFirst := false;
                      pageThen := samplePage topsA; batch := [enter 2%nat] |}]
          ++ [(samplePage topsA, Advance true 1100)]) sampleWorld)
  = [1000; 1025]
  ∧ passTimes
      (run (deliver [{| arrivesAt := 1005; timersFirst := true;
                        pageThen := samplePage topsA; batch := [enter 1%nat] |};
                     {| arrivesAt := 1015; timersFirst := true;
                        pageThen := samplePage topsA; batch := [enter 2%nat] |}]
            ++ [(samplePage topsA, Advance true 1100)]) sampleWorld)
    = [1000; 1015; 1025].
Proof. by vm_compute. Qed.

Lemma sampleWorld_listening :
  timersOk sampleWorld ∧ pendingUpdates sampleWorld = []
  ∧ is_Some (observer (this sampleWorld)).
Proof.
  split; [|split].
  - unfold timersOk. vm_compute. repeat constructor.
  - by vm_compute.
  - vm_compute. by eexists.
Defined.

Lemma C4_debounce_coalescing_witness :
  (passTimes (run (deliver burst ++ [(samplePage topsA, Advance true 1100)]) sampleWorld)
   = passTimes sampleWorld ++ [1029]
   ∧ ∃ tm, pendingUpdates (run (deliver burst) sampleWorld) = [tm] ∧ due tm = 1029)
  ∧ passTimes (run (deliver spread ++ [(samplePage topsA, Advance true 1100)]) sampleWorld)
    = passTimes sampleWorld ++ [1015; 1030; 1050].
Proof.
  destruct sampleWorld_listening as (Hok & Hquiet & Hobs).
  split.
  - refine (proj1 (C4_debounce_coalescing sampleWorld
              {| arrivesAt := 1005; timersFirst := true; pageThen := samplePage topsA;
                 batch := [enter 1%nat] |}
              (tail burst) (samplePage topsA) true 1100 Hok Hquiet Hobs _ _ _) _).
    + vm_compute. split; [discriminate | reflexivity].
    + vm_compute. discriminate.
    + vm_compute. reflexivity.
    + unfold near, arrivesBefore. simpl. repeat split; try lia; left; lia.
  - refine (proj2 (C4_debounce_coalescing sampleWorld
              {| arrivesAt := 1005; timersFirst := true; pageThen := samplePage topsA;
                 batch := [enter 1%nat] |}
              (tail spread) (samplePage topsA) true 1100 Hok Hquiet Hobs _ _ _) _).
    + vm_compute. split; [discriminate | reflexivity].
    + vm_compute. discriminate.
    + vm_compute. reflexivity.
    + unfold apart, arrivesAfter. simpl. repeat split; left; lia.
Defined.

(** The timer table of every world reached from a construction is well
    formed, so the theorem above applies to any such world in which no
    debounce timer is pending and the observer exists. *)
Lemma timersOk_runDue page limit fuel : ∀ w, timersOk w → timersOk (runDue fuel page limit w).
Proof.
  induction fuel as [|fuel IH]; intros w Hok; [done|]. simpl.
  destruct (earliest (timers w)) as [tm0|]; [|done].
  case_bool_decide; [|done]. apply IH.
  match goal with
  | |- timersOk (runTask _ _ ?x) =>
      destruct (runTask_frame page (task tm0) x) as (Ht & Hn & _ & Hd & _)
  end.
  by eapply (timersOk_filter (λ x, tid x ≠ tid tm0) w).
Qed.

Lemma timersOk_same w w' :
  timers w' = timers w → nextTimerId w' = nextTimerId w →
  _debounceTimer (this w') = _debounceTimer (this w) →
  timersOk w → timersOk w'.
Proof. unfold timersOk. by intros -> -> ->. Qed.

Lemma timersOk_resolutionPass page w : timersOk w → timersOk (resolutionPass page w).2.
Proof.
  destruct (runTask_frame page DebouncedUpdate w) as (Ht & Hn & _ & Hd & _).
  by apply timersOk_same.
Qed.

Lemma timersOk_diagnose page verbose w : timersOk w → timersOk (diagnose page verbose w).2.
Proof.
  intros (Hnd & Hlt & Hnamed). unfold diagnose.
  destruct (_diagnosticCache (this w) !! cacheKeyOf verbose); [done|].
  destruct (collectIssues page (config (this w))) as [[elements issues]|]; [|done].
  rewrite Forall_forall in Hlt.
  assert (Hgen : ∀ w1, timers w1 = timers w → nextTimerId w1 = nextTimerId w →
                 _debounceTimer (this w1) = _debounceTimer (this w) →
                 timersOk (setTimeout (EvictDiagnostic (cacheKeyOf verbose)) 5000 w1).2).
  { intros w1 Ht Hn Hd. unfold setTimeout, timersOk. simpl. rewrite Ht, Hn, Hd.
    split; [|split].
    - rewrite fmap_app. apply NoDup_app. split; [done|]. split; [|apply NoDup_singleton].
      intros i (x & -> & Hx)%list_elem_of_fmap Hi. simpl in Hi.
      apply list_elem_of_singleton in Hi. specialize (Hlt x Hx). lia.
    - apply Forall_app. split; [|by repeat constructor].
      apply Forall_forall. intros x Hx. specialize (Hlt x Hx). lia.
    - apply Forall_app. split; [done|]. by repeat constructor. }
  cbv zeta.
  match goal with
  | |- timersOk (let '(_, w3) := setTimeout ?k ?n ?x in (_, w3)).2 =>
      specialize (Hgen x); destruct (setTimeout k n x) as [i w3] eqn:E
  end.
  simpl in *. apply Hgen; by destruct (debug (config (this w)) || verbose).
Qed.

Lemma timersOk_step page ev w : timersOk w → timersOk (step w (page, ev)).
Proof.
  intros Hok. destruct ev; simpl.
  - unfold advance. eapply timersOk_same; [| | |by apply timersOk_runDue]; done.
  - destruct (domReadyListener w); [|done].
    destruct (setup_cases page w) as [(_ & elements & _ & ->)|(_ & _ & [-> | ->])];
      try (by eapply timersOk_same; [| | |exact Hok]).
    apply timersOk_resolutionPass. by eapply timersOk_same; [| | |exact Hok].
  - destruct (observer (this w)); [|done]. by apply observerCallback_spec.
  - eapply timersOk_same; [| | |exact Hok]; try done. simpl.
    by destruct (observe_frame element0 (this w)) as (_ & _ & _ & _ & _ & ->).
  - eapply timersOk_same; [| | |exact Hok]; try done. simpl.
    by destruct (unobserve_frame element0 (this w)) as (_ & _ & _ & _ & _ & ->).
  - done.
  - by apply timersOk_diagnose.
  - unfold destroy.
    set (w1 := match _debounceTimer (this w) with Some _ => _ | None => _ end).
    assert (Hok1 : timersOk w1).
    { subst w1. destruct (_debounceTimer (this w)) as [id|] eqn:Hid; [|done].
      destruct (decide (id = 0%nat)); [done|].
      by apply (timersOk_filter (λ tm, tid tm ≠ id) w). }
    eapply timersOk_same; [| | |exact Hok1]; try done. simpl.
    by destruct (observer (this w1)).
Qed.

Lemma timersOk_reachable page0 now o w0 trace :
  new_ScrollySystem page0 now o = Normal w0 → timersOk (run trace w0).
Proof.
  intros Hnew.
  assert (Hok : timersOk w0).
  { apply new_ScrollySystem_Normal in Hnew as [[_ ->]|(_ & _ & elements & _ & ->)];
      unfold timersOk; simpl; repeat constructor. }
  clear Hnew. revert w0 Hok.
  induction trace as [|[page ev] trace IH]; intros w0 Hok; [done|].
  simpl. by apply IH, timersOk_step.
Qed.

(** * Invariants of the reachable worlds, and further properties *)

(** ** Visibility-event intake *)

Lemma Map_get_set {V} (k k' : Element) (v : V) m :
  Map_get k' (Map_set k v m) = if decide (k = k') then Some v else Map_get k' m.
Proof.
  induction m as [|[k0 v0] m IH]; simpl.
  - by destruct (decide (k = k')).
  - destruct (decide (k0 = k)) as [->|Hne]; simpl.
    + by destruct (decide (k = k')).
    + rewrite IH. destruct (decide (k0 = k')) as [->|]; [|done].
      by rewrite decide_False by done.
Qed.

Lemma Map_get_delete {V} (k k' : Element) (m : list (Element * V)) :
  Map_get k' (Map_delete k m) = if decide (k = k') then None else Map_get k' m.
Proof.
  induction m as [|[k0 v0] m IH]; simpl.
  - by destruct (decide (k = k')).
  - destruct (decide (k0 = k)) as [->|Hne]; simpl.
    + rewrite IH. destruct (decide (k = k')); [done|]. done.
    + rewrite IH. destruct (decide (k0 = k')) as [->|]; [|done].
      by rewrite decide_False by done.
Qed.

Lemma Map_set_keys {V} (k : Element) (v : V) m :
  (Map_set k v m).*1 = if decide (k ∈ m.*1) then m.*1 else m.*1 ++ [k].
Proof.
  induction m as [|[k0 v0] m IH].
  - destruct (decide (k ∈ ([] : list (Element * V)).*1)) as [Hin|_]; [|done].
    by apply elem_of_nil in Hin.
  - cbn [Map_set]. destruct (decide (k0 = k)) as [->|Hne].
    + rewrite decide_True; [done|]. rewrite fmap_cons. by left.
    + rewrite !fmap_cons, IH. cbn [fst].
      destruct (decide (k ∈ m.*1)) as [Hin|Hnotin].
      * rewrite decide_True; [done|]. by right.
      * rewrite decide_False; [done|].
        intros [->|?]%elem_of_cons; done.
Qed.

Lemma Map_delete_keys {V} (k : Element) (m : list (Element * V)) :
  (Map_delete k m).*1 = filter (λ k', k' ≠ k) m.*1.
Proof.
  induction m as [|[k0 v0] m IH]; [done|]. cbn [Map_delete]. rewrite fmap_cons.
  cbn [fst]. destruct (decide (k0 = k)) as [->|Hne].
  - rewrite filter_cons_False by naive_solver. done.
  - rewrite filter_cons_True by done. rewrite fmap_cons. cbn [fst]. by rewrite IH.
Qed.

Lemma debouncedUpdate_this w :
  visibleElements (this (debouncedUpdate w)) = visibleElements (this w)
  ∧ currentTriggerId (this (debouncedUpdate w)) = currentTriggerId (this w)
  ∧ lastValidTriggerId (this (debouncedUpdate w)) = lastValidTriggerId (this w)
  ∧ observer (this (debouncedUpdate w)) = observer (this w)
  ∧ config (this (debouncedUpdate w)) = config (this w)
  ∧ _diagnosticCache (this (debouncedUpdate w)) = _diagnosticCache (this w)
  ∧ effects (debouncedUpdate w) = effects w
  ∧ passes (debouncedUpdate w) = passes w
  ∧ domReadyListener (debouncedUpdate w) = domReadyListener w.
Proof.
  unfold debouncedUpdate, clearTimeout. by destruct (_debounceTimer (this w)).
Qed.

(** X1. Within one batch the last event about an element wins: after the
    observer's callback has taken a batch in, an element whose last entry in
    the batch is intersecting is in the Visible Set with the value of its
    trigger attribute, one whose last entry is not intersecting is absent,
    and an element the batch does not mention is as it was. *)
Theorem intake_last_event_wins
    (page : Page) (entries : list IOEntry) (w : World) (e : Element) :
  Map_get e (visibleElements (this (observerCallback page entries w)))
  = match lastReport e entries with
    | Some true => Some (getAttribute page e (triggerAttribute (config (this w))))
    | Some false => None
    | None => Map_get e (visibleElements (this w))
    end.
Proof.
  unfold observerCallback.
  destruct (debouncedUpdate_this (with_this (λ s, foldl (intake page) s entries) w))
    as (-> & _).
  change (this (with_this (λ s, foldl (intake page) s entries) w))
    with (foldl (intake page) (this w) entries).
  generalize (this w). clear w. intros s. unfold lastReport.
  induction entries as [|entry entries IH] using rev_ind; [done|].
  rewrite foldl_app, filter_app. cbn [foldl].
  destruct (intake_frame page entries s) as (Hcfg & _).
  unfold intake at 1. rewrite Hcfg.
  destruct (decide (target entry = e)) as [He|He].
  - rewrite filter_cons_True by done. rewrite filter_nil, last_snoc.
    cbn [fmap option_fmap option_map].
    destruct (isIntersecting entry); simpl.
    + rewrite Map_get_set, decide_True by done. by rewrite He.
    + by rewrite Map_get_delete, decide_True.
  - rewrite filter_cons_False by done. rewrite filter_nil, app_nil_r.
    destruct (isIntersecting entry); simpl.
    + by rewrite Map_get_set, decide_False.
    + by rewrite Map_get_delete, decide_False.
Qed.

(** X2. Iteration order of the Visible Set, which decides ties between
    equal top coordinates: an element reported intersecting while it is
    already in the Visible Set keeps its place (only its value is
    refreshed), a new one is appended at the end, and an element reported
    not intersecting is removed without disturbing the order of the rest. *)
Theorem intake_iteration_order (page : Page) (s : ScrollySystem) (entry : IOEntry) :
  (visibleElements (intake page s entry)).*1
  = if isIntersecting entry
    then if decide (target entry ∈ (visibleElements s).*1)
         then (visibleElements s).*1
         else (visibleElements s).*1 ++ [target entry]
    else filter (λ e, e ≠ target entry) (visibleElements s).*1.
Proof.
  unfold intake. destruct (isIntersecting entry); simpl.
  - apply Map_set_keys.
  - apply Map_delete_keys.
Qed.

(** ** Invariants of every reachable world *)

(** What holds before the due timers run and is kept by each of them holds
    afterwards. *)
Lemma runDue_preserves (P : World → Prop) page limit :
  (∀ w tm, P w →
     P (runTask page (task tm)
          (set_clock (Z.max (clock w) (due tm))
             (set_timers (filter (λ x, tid x ≠ tid tm) (timers w)) w)))) →
  ∀ fuel w, P w → P (runDue fuel page limit w).
Proof.
  intros Hstep. induction fuel as [|fuel IH]; intros w Hw; [done|]. simpl.
  destruct (earliest (timers w)) as [tm|]; [|done].
  case_bool_decide; [|done]. by apply IH, Hstep.
Qed.

(** With the two identifiers equal, a pass over an empty Visible Set changes
    nothing. *)
Lemma updateCurrentTrigger_empty_synced page w :
  visibleElements (this w) = [] →
  lastValidTriggerId (this w) = currentTriggerId (this w) →
  updateCurrentTrigger page w = (Normal (), w).
Proof.
  intros Hvis Hsync. unfold updateCurrentTrigger. rewrite Hvis, Hsync.
  destruct (currentTriggerId (this w)) as [id|] eqn:Hcur; [|done].
  rewrite <- Hcur. apply setCurrentTrigger_same.
Qed.

Lemma coherent_same w w' :
  this w' = this w → nextTimerId w' = nextTimerId w → coherent w → coherent w'.
Proof. unfold coherent. by intros -> ->. Qed.

Lemma coherent_resolutionPass page w : coherent w → coherent (resolutionPass page w).2.
Proof.
  intros (Hsync & Hnd & Hnone & Hn & Hd). unfold resolutionPass.
  destruct (updateCurrentTrigger_frame page (record_pass w))
    as (Hvis & Hobs & _ & Hdeb & _ & _ & _ & _ & Hnext & _).
  unfold coherent. rewrite Hvis, Hobs, Hdeb, Hnext.
  destruct (visibleElements (this w)) as [|first rest] eqn:Hv.
  - rewrite updateCurrentTrigger_empty_synced by done. simpl. rewrite Hv. done.
  - destruct (updateCurrentTrigger_nonempty page (record_pass w) first rest Hv)
      as [-> ->].
    simpl. rewrite Hv. split; [done|]. split; [done|]. split; [|done].
    intros Ho. by destruct (Hnone Ho).
Qed.

Lemma coherent_set_observer o w :
  coherent w → coherent (with_this (set_observer (Some o)) w).
Proof. intros (H1 & H2 & H3 & H4 & H5). unfold coherent. simpl. done. Qed.

Lemma intake_keys_NoDup page entries : ∀ s,
  NoDup (visibleElements s).*1 →
  NoDup (visibleElements (foldl (intake page) s entries)).*1.
Proof.
  induction entries as [|entry entries IH]; intros s Hnd; [done|]. simpl.
  apply IH. rewrite intake_iteration_order.
  destruct (isIntersecting entry).
  - destruct (decide _) as [Hin|Hnotin]; [done|].
    apply NoDup_app. split; [done|]. split; [|apply NoDup_singleton].
    intros x Hx ->%list_elem_of_singleton. done.
  - by apply NoDup_filter.
Qed.

Lemma coherent_step page ev w : coherent w → coherent (step w (page, ev)).
Proof.
  intros Hw. destruct ev; simpl.
  - unfold advance. eapply coherent_same; [done..|].
    apply runDue_preserves; [|done]. intros w1 tm Hw1. destruct (task tm); simpl.
    + apply coherent_resolutionPass. by eapply coherent_same; [| |exact Hw1].
    + destruct Hw1 as (H1 & H2 & H3 & H4 & H5). unfold coherent. simpl. auto 10.
  - destruct (domReadyListener w); [|done].
    destruct (setup_cases page w) as [(_ & elements & _ & ->)|(_ & _ & [-> | ->])];
      [|done|by apply coherent_set_observer].
    by apply coherent_resolutionPass, coherent_set_observer.
  - destruct (observer (this w)) as [o|] eqn:Ho; [|done].
    destruct Hw as (H1 & H2 & H3 & H4 & H5).
    unfold observerCallback.
    set (w' := with_this (λ s, foldl (intake page) s entries) w).
    destruct (debouncedUpdate_this w') as (Hv & Hc & Hlv & Hob & _).
    destruct (intake_frame page entries (this w)) as (_ & Hobs' & _).
    destruct (intake_resolution page entries (this w)) as [Hc' Hl'].
    unfold coherent. rewrite Hv, Hc, Hlv, Hob. subst w'. simpl.
    rewrite Hc', Hl', Hobs', Ho.
    split; [done|]. split; [by apply intake_keys_NoDup|]. split; [done|].
    unfold debouncedUpdate, setTimeout, clearTimeout.
    destruct (_debounceTimer (foldl (intake page) (this w) entries)); simpl;
      (split; [lia | intros [= ?]; lia]).
  - destruct Hw as (H1 & H2 & H3 & H4 & H5).
    unfold coherent, with_this, observe. simpl.
    destruct (observer (this w)) as [o|] eqn:Ho, element0; simpl; rewrite ?Ho;
      by auto 10.
  - destruct Hw as (H1 & H2 & H3 & H4 & H5).
    unfold coherent, with_this, unobserve. simpl.
    destruct (observer (this w)) as [o|] eqn:Ho, element0; simpl; rewrite ?Ho;
      try (by auto 10).
    split; [done|]. split; [|done].
    rewrite Map_delete_keys. by apply NoDup_filter.
  - done.
  - destruct Hw as (H1 & H2 & H3 & H4 & H5).
    destruct (diagnose_frame page verbose w) as (Ho & Hv & Hc & Hl & _ & Hd & _).
    unfold coherent. rewrite Ho, Hv, Hc, Hl, Hd.
    split; [done|]. split; [done|]. split; [done|]. split; [|done].
    unfold diagnose. destruct (_diagnosticCache (this w) !! cacheKeyOf verbose); [done|].
    destruct (collectIssues page (config (this w))) as [[elements issues]|]; [|done].
    simpl. destruct (debug (config (this w)) || verbose); simpl; lia.
  - destruct Hw as (H1 & H2 & H3 & H4 & H5).
    assert (Hnext : nextTimerId (destroy w) = nextTimerId w).
    { unfold destroy. destruct (_debounceTimer (this w)) as [id|]; [|done].
      by destruct (decide (id = 0%nat)). }
    unfold coherent. rewrite destroy_this, Hnext. simpl.
    split; [done|]. split; [constructor|]. done.
Qed.

Lemma coherent_new page now o w : new_ScrollySystem page now o = Normal w → coherent w.
Proof.
  intros [[_ ->]|(_ & _ & elements & _ & ->)]%new_ScrollySystem_Normal;
    unfold coherent; simpl; repeat split; try done; try lia; constructor.
Qed.

Lemma coherent_run trace : ∀ w, coherent w → coherent (run trace w).
Proof.
  induction trace as [|[page ev] trace IH]; intros w Hw; [done|].
  simpl. by apply IH, coherent_step.
Qed.

(** X3. In every world an instance can reach, [destroy()] included,
    [lastValidTriggerId] equals [currentTriggerId]; so the sticky fallback of
    a resolution pass over an empty Visible Set never changes anything and
    never notifies: the pass returns and leaves the world as it was. *)
Theorem fallback_pass_is_silent
    (page0 : Page) (now : Z) (o : Options) (w0 : World)
    (trace : list (Page * Event)) (page : Page) :
  new_ScrollySystem page0 now o = Normal w0 →
  let w := run trace w0 in
  lastValidTriggerId (this w) = currentTriggerId (this w)
  ∧ (visibleElements (this w) = [] → updateCurrentTrigger page w = (Normal (), w)).
Proof.
  intros Hnew w.
  assert (Hc : coherent w) by (apply coherent_run; by eapply coherent_new).
  destruct Hc as (Hsync & _). split; [done|].
  intros Hvis. by apply updateCurrentTrigger_empty_synced.
Qed.

Lemma fallback_pass_is_silent_witness :
  let w := run scenarioTrace sampleWorld in
  lastValidTriggerId (this w) = currentTriggerId (this w)
  ∧ (visibleElements (this w) = [] →
     updateCurrentTrigger (samplePage topsA) w = (Normal (), w)).
Proof.
  apply (fallback_pass_is_silent (samplePage topsA) 1000 no_options sampleWorld
           scenarioTrace (samplePage topsA)).
  reflexivity.
Defined.

(** X4. Each new batch replaces the pending debounce timer: in every
    reachable world at most one debounce timer is pending, and the Visible
    Set holds at most one entry per element. *)
Theorem one_pending_debounce_timer
    (page0 : Page) (now : Z) (o : Options) (w0 : World) (trace : list (Page * Event)) :
  new_ScrollySystem page0 now o = Normal w0 →
  (length (pendingUpdates (run trace w0)) ≤ 1)%nat
  ∧ NoDup (visibleElements (this (run trace w0))).*1.
Proof.
  intros Hnew. split.
  - destruct (pendingUpdates_cases (run trace w0)) as [->|(tm & -> & _)];
      [by eapply timersOk_reachable | simpl; lia | simpl; lia].
  - assert (Hc : coherent (run trace w0)) by (apply coherent_run; by eapply coherent_new).
    by destruct Hc as (_ & Hnd & _).
Qed.

Lemma one_pending_debounce_timer_witness :
  (length (pendingUpdates (run (deliver burst) sampleWorld)) ≤ 1)%nat
  ∧ NoDup (visibleElements (this (run (deliver burst) sampleWorld))).*1.
Proof.
  apply (one_pending_debounce_timer (samplePage topsA) 1000 no_options sampleWorld
           (deliver burst)).
  reflexivity.
Defined.

(** ** What resets the current identifier *)

(** A pass keeps the two identifiers equal, and keeps a current identifier
    when the entries it reads are tagged. *)
Lemma resolutionPass_keeps page w :
  lastValidTriggerId (this w) = currentTriggerId (this w) →
  let w' := (resolutionPass page w).2 in
  let pass := {| pass_time := clock w; pass_visible := visibleElements (this w) |} in
  lastValidTriggerId (this w') = currentTriggerId (this w')
  ∧ passes w' = passes w ++ [pass]
  ∧ (taggedPass pass → is_Some (currentTriggerId (this w)) →
     is_Some (currentTriggerId (this w'))).
Proof.
  intros Hsync. unfold resolutionPass. cbv zeta.
  destruct (updateCurrentTrigger_frame page (record_pass w))
    as (_ & _ & _ & _ & _ & _ & _ & -> & _).
  destruct (visibleElements (this w)) as [|first rest] eqn:Hvis.
  - rewrite updateCurrentTrigger_empty_synced by done. simpl. by rewrite Hvis.
  - destruct (updateCurrentTrigger_nonempty page (record_pass w) first rest Hvis)
      as [-> ->].
    simpl. rewrite Hvis. split; [done|]. split; [done|].
    intros Htag _. unfold taggedPass in Htag. simpl in Htag.
    destruct (reduce_higher page first rest) as (i & Hi & _).
    rewrite Forall_lookup in Htag. exact (Htag i _ Hi).
Qed.

Lemma keptFrom_same w w' :
  passes w' = passes w → currentTriggerId (this w') = currentTriggerId (this w) →
  lastValidTriggerId (this w') = lastValidTriggerId (this w) →
  lastValidTriggerId (this w) = currentTriggerId (this w) → keptFrom w w'.
Proof.
  intros Hp Hc Hl Hsync. exists []. rewrite app_nil_r, Hc, Hl. done.
Qed.

Lemma keptFrom_resolutionPass page w w1 :
  keptFrom w w1 → keptFrom w (resolutionPass page w1).2.
Proof.
  intros (extra & Hp & Hsync & Hkeep).
  destruct (resolutionPass_keeps page w1 Hsync) as (Hsync' & Hp' & Hkeep').
  exists (extra ++ [{| pass_time := clock w1; pass_visible := visibleElements (this w1) |}]).
  rewrite Hp', Hp, app_assoc. split; [done|]. split; [done|].
  intros [Hextra Hlast]%Forall_app Hcur.
  apply Forall_cons in Hlast as [Hlast _]. auto.
Qed.

Lemma keptFrom_host w w1 w2 :
  currentTriggerId (this w2) = currentTriggerId (this w1) →
  lastValidTriggerId (this w2) = lastValidTriggerId (this w1) →
  passes w2 = passes w1 → keptFrom w w1 → keptFrom w w2.
Proof. unfold keptFrom. by intros -> -> ->. Qed.

(** No event but [destroy()] loses a current identifier, as long as the
    passes it runs read tagged entries. *)
Lemma keptFrom_step page ev w :
  lastValidTriggerId (this w) = currentTriggerId (this w) → ev ≠ Call_destroy →
  keptFrom w (step w (page, ev)).
Proof.
  intros Hsync Hev.
  assert (Hrefl : keptFrom w w) by by apply keptFrom_same.
  destruct ev; simpl; try done.
  - unfold advance.
    apply (keptFrom_host w (runDue (length (timers w)) page
                              (if inclusive then t else t - 1) w)); [done..|].
    apply (runDue_preserves (keptFrom w)); [|done].
    intros w1 tm Hw1. destruct (task tm); simpl.
    + apply keptFrom_resolutionPass. by eapply keptFrom_host; [| | |exact Hw1].
    + by eapply keptFrom_host; [| | |exact Hw1].
  - destruct (domReadyListener w); [|done].
    destruct (setup_cases page w) as [(_ & elements & _ & ->)|(_ & _ & [-> | ->])];
      [|done|by apply keptFrom_same].
    apply keptFrom_resolutionPass. by apply keptFrom_same.
  - destruct (observer (this w)); [|done]. unfold observerCallback.
    destruct (debouncedUpdate_this (with_this (λ s, foldl (intake page) s entries) w))
      as (_ & Hc & Hl & _ & _ & _ & _ & Hp & _).
    destruct (intake_resolution page entries (this w)) as [Hc' Hl'].
    apply keptFrom_same; [by rewrite Hp| | |done].
    + rewrite Hc. simpl. by rewrite Hc'.
    + rewrite Hl. simpl. by rewrite Hl'.
  - destruct (observe_frame element0 (this w)) as (_ & _ & _ & Hc & Hl & _).
    by apply keptFrom_same.
  - destruct (unobserve_frame element0 (this w)) as (_ & _ & _ & Hc & Hl & _).
    by apply keptFrom_same.
  - destruct (diagnose_frame page verbose w) as (_ & _ & Hc & Hl & _ & _ & Hp & _).
    by apply keptFrom_same.
Qed.

(** Against C10 as worded: without any [destroy()], the resolution pass
    that resolves an element without the trigger attribute takes the current
    identifier from "intro" back to null. *)
Lemma C10_untagged_pass_resets :
  ¬ only_destroy_resets worldUntaggedVisible (samplePage topsA, Advance true 1200).
Proof.
  intros Hclaim.
  assert (Hdestroy : Advance true 1200 = Call_destroy); [|discriminate Hdestroy].
  apply Hclaim; by vm_compute.
Qed.

(** C10, amended. Immediately after [destroy()] returns,
    [getCurrentTriggerId()] returns null, the Visible Set is empty,
    [lastValidTriggerId] is null and the diagnostic cache is empty, whatever
    had been resolved and emitted before.  And in every world an instance
    can reach, as long as the resolution passes read entries that carry an
    identifier (the visible elements have the trigger attribute),
    [destroy()] is the one operation or event that takes the current
    identifier from a value back to null. *)
Theorem C10_destroy_resets
    (w1 : World) (page0 : Page) (now : Z) (o : Options) (w0 : World)
    (trace : list (Page * Event)) (pe : Page * Event) :
  new_ScrollySystem page0 now o = Normal w0 →
  (getCurrentTriggerId (destroy w1) = None
   ∧ visibleElements (this (destroy w1)) = []
   ∧ lastValidTriggerId (this (destroy w1)) = None
   ∧ _diagnosticCache (this (destroy w1)) = ∅)
  ∧ (let w := run trace w0 in
     Forall taggedPass (drop (length (passes w)) (passes (step w pe))) →
     only_destroy_resets w pe).
Proof.
  intros Hnew. split.
  { unfold getCurrentTriggerId. by rewrite destroy_this. }
  intros w Htagged Hcur Hnull. destruct pe as [page ev]. simpl.
  assert (Hdec : ev = Call_destroy ∨ ev ≠ Call_destroy)
    by (destruct ev; (by left) || (by right)).
  destruct Hdec as [|Hev]; [done|]. exfalso.
  assert (Hc : coherent w) by (apply coherent_run; by eapply coherent_new).
  destruct Hc as (Hsync & _).
  destruct (keptFrom_step page ev w Hsync Hev) as (extra & Hp & _ & Hkeep).
  rewrite Hp, drop_app_length in Htagged.
  unfold getCurrentTriggerId in *.
  destruct (Hkeep Htagged) as [id Hid]; [|congruence].
  by destruct (currentTriggerId (this w)).
Qed.

Lemma C10_destroy_resets_witness :
  (getCurrentTriggerId (destroy worldIntro) = None
   ∧ visibleElements (this (destroy worldIntro)) = []
   ∧ lastValidTriggerId (this (destroy worldIntro)) = None
   ∧ _diagnosticCache (this (destroy worldIntro)) = ∅)
  ∧ (Forall taggedPass
       (drop (length (passes (run (take 3 scenarioTrace) sampleWorld)))
          (passes (step (run (take 3 scenarioTrace) sampleWorld)
                     (samplePage topsA, Advance true 1200)))) →
     only_destroy_resets (run (take 3 scenarioTrace) sampleWorld)
       (samplePage topsA, Advance true 1200)).
Proof.
  apply (C10_destroy_resets worldIntro (samplePage topsA) 1000 no_options sampleWorld
           (take 3 scenarioTrace) (samplePage topsA, Advance true 1200)).
  reflexivity.
Defined.

(** In that world "intro" is current and a pass is pending; the pass reads
    two tagged entries and moves the identifier to "section1". *)
Example tagged_pass_keeps_an_identifier :
  let w := run (take 3 scenarioTrace) sampleWorld in
  let w' := step w (samplePage topsA, Advance true 1200) in
  getCurrentTriggerId w = Some "intro"
  ∧ drop (length (passes w)) (passes w')
    = [{| pass_time := 1110;
          pass_visible := [(1%nat, Some "intro"); (2%nat, Some "section1")] |}]
  ∧ getCurrentTriggerId w' = Some "section1".
Proof. by vm_compute. Qed.

Example destroy_after_resolution :
  getCurrentTriggerId worldIntro = Some "intro"
  ∧ getCurrentTriggerId (destroy worldIntro) = None.
Proof. by vm_compute. Qed.

(** With tagged sections only, the scenario's current identifier survives
    every event. *)
Example scenario_identifier_survives :
  getCurrentTriggerId <$> [run (take 2 scenarioTrace) sampleWorld;
                           run (take 4 scenarioTrace) sampleWorld;
                           run scenarioTrace sampleWorld]
  = [Some "intro"; Some "section1"; Some "section1"].
Proof. by vm_compute. Qed.

(** ** Before the page is ready *)

Lemma dormant_same w w' :
  this w' = this w → effects w' = effects w → dormant w → dormant w'.
Proof. unfold dormant. by intros -> ->. Qed.

Lemma dormant_resolutionPass page w : dormant w → dormant (resolutionPass page w).2.
Proof.
  intros (Ho & Hv & Hc & Hl & Hd & Hcb). unfold resolutionPass.
  rewrite updateCurrentTrigger_empty_synced; [done|done|simpl; congruence].
Qed.

Lemma dormant_step page ev w :
  ev ≠ DOMContentLoaded → dormant w → dormant (step w (page, ev)).
Proof.
  intros Hev Hw. destruct ev; simpl; try done.
  - unfold advance. eapply dormant_same; [done..|].
    apply runDue_preserves; [|done]. intros w1 tm Hw1. destruct (task tm); simpl.
    + apply dormant_resolutionPass. by eapply dormant_same; [| |exact Hw1].
    + destruct Hw1 as (H1 & H2 & H3 & H4 & H5 & H6). by unfold dormant.
  - pose proof Hw as (Ho & _). by rewrite Ho.
  - pose proof Hw as (Ho & _).
    rewrite with_this_fixed; [done|]. unfold observe. by rewrite Ho.
  - pose proof Hw as (Ho & _).
    rewrite with_this_fixed; [done|]. unfold unobserve. by rewrite Ho.
  - destruct Hw as (Ho & Hv & Hc & Hl & Hd & Hcb).
    destruct (diagnose_frame page verbose w) as (Ho' & Hv' & Hc' & Hl' & _).
    unfold dormant. rewrite Ho', Hv', Hc', Hl'.
    split; [done|]. split; [done|]. split; [done|]. split; [done|].
    unfold diagnose. destruct (_diagnosticCache (this w) !! cacheKeyOf verbose); [done|].
    destruct (collectIssues page (config (this w))) as [[elements issues]|]; [|done].
    simpl. destruct (debug (config (this w)) || verbose); simpl; [|done].
    unfold dispatched, calledBack. rewrite !omap_app. simpl.
    unfold dispatched, calledBack in Hd, Hcb. by rewrite Hd, Hcb.
  - destruct Hw as (Ho & Hv & Hc & Hl & Hd & Hcb).
    assert (Heff : effects (destroy w) = effects w).
    { unfold destroy. destruct (_debounceTimer (this w)) as [id|]; [|done].
      by destruct (decide (id = 0%nat)). }
    unfold dormant. rewrite destroy_this, Heff. simpl. by rewrite Ho.
Qed.

(** X5. While the page is loading, [setup()] is deferred and there is no
    observer: until [DOMContentLoaded] fires, [observe()] and [unobserve()]
    are silently dropped, the Visible Set stays empty,
    [getCurrentTriggerId()] is null and nothing is notified. *)
Theorem nothing_tracked_before_ready
    (page0 : Page) (now : Z) (o : Options) (w0 : World) (trace : list (Page * Event)) :
  loading page0 = true →
  new_ScrollySystem page0 now o = Normal w0 →
  Forall (λ pe : Page * Event, pe.2 ≠ DOMContentLoaded) trace →
  let w := run trace w0 in
  observer (this w) = None
  ∧ visibleElements (this w) = []
  ∧ getCurrentTriggerId w = None
  ∧ dispatched (effects w) = []
  ∧ calledBack (effects w) = [].
Proof.
  intros Hload Hnew Hnot w.
  assert (Hd0 : dormant w0).
  { revert Hnew. unfold new_ScrollySystem, init. rewrite Hload. by intros [= <-]. }
  assert (Hd : dormant w).
  { subst w. clear Hnew. revert w0 Hd0.
    induction trace as [|[page ev] trace IH]; intros w0 Hd0; [done|].
    apply Forall_cons in Hnot as [Hev Hnot]. simpl. apply IH; [done|].
    by apply dormant_step. }
  destruct Hd as (H1 & H2 & H3 & _ & H5 & H6). done.
Qed.

Lemma nothing_tracked_before_ready_witness :
  let w := run earlyCalls loadingWorld in
  observer (this w) = None
  ∧ visibleElements (this w) = []
  ∧ getCurrentTriggerId w = None
  ∧ dispatched (effects w) = []
  ∧ calledBack (effects w) = [].
Proof.
  apply (nothing_tracked_before_ready loadingPage 1000 no_options loadingWorld earlyCalls).
  - reflexivity.
  - reflexivity.
  - unfold earlyCalls. repeat constructor; simpl; discriminate.
Defined.

(** X6. Deferring [setup()] to [DOMContentLoaded] gives the instance that
    immediate setup gives: construction on a loading page always completes,
    without an observer and with the listener registered, and when the event
    reaches the document (now ready) the instance becomes exactly the one
    constructed on the ready page, but for the listener, which stays
    registered.  If the host cannot set the observer up then, the immediate
    construction throws whereas the deferred instance stays: without an
    observer when the host could not create one, with an observer that
    watches nothing when it is the selector that does not parse. *)
Theorem deferred_setup_matches_immediate (p : Page) (now : Z) (o : Options) :
  ∃ w0, new_ScrollySystem (with_loading true p) now o = Normal w0
        ∧ observer (this w0) = None
        ∧ domReadyListener w0 = true
        ∧ step w0 (with_loading false p, DOMContentLoaded)
          = match new_ScrollySystem (with_loading false p) now o with
            | Normal w => set_domReadyListener true w
            | Throw _ =>
                if hasIntersectionObserver p
                   && acceptsObserverOptions p (threshold (merge_config o))
                                               (rootMargin (merge_config o))
                then with_this (set_observer (Some {| targets := ∅ |})) w0
                else w0
            end.
Proof.
  exists (set_domReadyListener true (fresh (with_loading true p) now o)).
  split; [done|]. split; [done|]. split; [done|].
  unfold new_ScrollySystem, init, step, setup, setupObserver. simpl.
  destruct (hasIntersectionObserver p); simpl; [|done].
  destruct (acceptsObserverOptions p _ _); simpl; [|done].
  destruct (querySelectorAll p _) as [elements|error]; simpl; done.
Qed.

Example deferred_setup_on_sample_page :
  step loadingWorld (samplePage topsA, DOMContentLoaded)
  = set_domReadyListener true sampleWorld.
Proof. by vm_compute. Qed.

(** The listener stays registered: when the event reaches the document
    again, [setup()] runs again.  It puts a new observer, which watches the
    matches of the selector only, in the place of the earlier one (which is
    not disconnected), and runs a resolution pass at once. *)
Example second_DOMContentLoaded_reruns_setup :
  let w := run [(samplePage topsA, DOMContentLoaded);
                (samplePage topsA, Call_observe (Some 7%nat));
                (samplePage topsA, Intersections [enter 1%nat; enter 7%nat])]
               loadingWorld in
  let w' := step w (samplePage topsA, DOMContentLoaded) in
  observer (this w) = Some {| targets := {[7; 1; 2]}%nat |}
  ∧ observer (this w') = Some {| targets := {[1; 2]}%nat |}
  ∧ (visibleElements (this w')).*1 = [1; 7]%nat
  ∧ getCurrentTriggerId w = None
  ∧ getCurrentTriggerId w' = Some "intro"
  ∧ length (passes w') = 2%nat.
Proof. by vm_compute. Qed.

(** ** The diagnostic cache *)

Lemma diagnose_caches page verbose w report :
  (diagnose page verbose w).1 = Normal report →
  _diagnosticCache (this (diagnose page verbose w).2) !! cacheKeyOf verbose = Some report.
Proof.
  unfold diagnose.
  destruct (_diagnosticCache (this w) !! cacheKeyOf verbose) as [r|] eqn:Hhit.
  { simpl. by intros [= <-]. }
  destruct (collectIssues page (config (this w))) as [[elements issues]|]; [|done].
  simpl. intros [= <-].
  destruct (debug (config (this w)) || verbose); simpl; by rewrite lookup_insert_eq.
Qed.

(** What a [diagnose] that computes a report adds to the timer table: the
    eviction of its key, due 5000 ms later. *)
Lemma diagnose_timers page verbose w report :
  _diagnosticCache (this w) !! cacheKeyOf verbose = None →
  (diagnose page verbose w).1 = Normal report →
  timers (diagnose page verbose w).2
  = timers w ++ [{| tid := nextTimerId w; due := clock w + 5000;
                    task := EvictDiagnostic (cacheKeyOf verbose) |}].
Proof.
  intros Hmiss. unfold diagnose. rewrite Hmiss.
  destruct (collectIssues page (config (this w))) as [[elements issues]|]; [|done].
  intros _. simpl. by destruct (debug (config (this w)) || verbose).
Qed.

(** X7. A report is cached under its [verbose] key: after a [diagnose()]
    that returned a report, a second [diagnose()] with the same argument,
    made before the entry is evicted, returns the very same report and
    changes nothing, even though the page has changed in the meantime. *)
Theorem diagnose_cached_report_is_reused
    (page page' : Page) (verbose : bool) (w : World) (report : Report) :
  (diagnose page verbose w).1 = Normal report →
  diagnose page' verbose (diagnose page verbose w).2
  = (Normal report, (diagnose page verbose w).2).
Proof.
  intros Hreport. pose proof (diagnose_caches page verbose w report Hreport) as Hcached.
  set (w1 := (diagnose page verbose w).2) in *.
  clearbody w1. unfold diagnose. by rewrite Hcached.
Qed.

Lemma diagnose_cached_report_is_reused_witness :
  ∃ report, (diagnose (samplePage topsA) false sampleWorld).1 = Normal report
            ∧ diagnose emptyPage false (diagnose (samplePage topsA) false sampleWorld).2
              = (Normal report, (diagnose (samplePage topsA) false sampleWorld).2).
Proof.
  eexists. split; [reflexivity|].
  apply (diagnose_cached_report_is_reused (samplePage topsA) emptyPage false sampleWorld).
  reflexivity.
Defined.

(** The cached report is stale: on the empty page a fresh one would be an
    error report. *)
Example stale_report_after_page_change :
  status <$> (diagnose emptyPage false (diagnose (samplePage topsA) false sampleWorld).2).1
  = Normal "ok"
  ∧ status <$> (diagnose emptyPage false sampleWorld).1 = Normal "error".
Proof. by vm_compute. Qed.

(** The same, knowing that the timer that runs is pending and due. *)
Lemma runDue_preserves_fired (P : World → Prop) page limit :
  (∀ w tm, tm ∈ timers w → due tm ≤ limit → P w →
     P (runTask page (task tm)
          (set_clock (Z.max (clock w) (due tm))
             (set_timers (filter (λ x, tid x ≠ tid tm) (timers w)) w)))) →
  ∀ fuel w, P w → P (runDue fuel page limit w).
Proof.
  intros Hstep. induction fuel as [|fuel IH]; intros w Hw; [done|]. simpl.
  destruct (earliest (timers w)) as [tm|] eqn:Hearly; [|done].
  apply earliest_Some in Hearly as [Hin _].
  case_bool_decide; [|done]. by apply IH, Hstep.
Qed.

(** X8. A report stays cached for 5 seconds: when no eviction timer for
    its key is pending from before, a [diagnose()] that computes a report at
    time [clock w] makes every [diagnose()] with the same key return that
    report as long as less than 5000 ms have passed. *)
Theorem diagnose_report_cached_for_five_seconds
    (page page' page'' : Page) (verbose inclusive : bool) (t : Z) (w : World)
    (report : Report) :
  _diagnosticCache (this w) !! cacheKeyOf verbose = None →
  Forall (λ tm, task tm ≠ EvictDiagnostic (cacheKeyOf verbose)) (timers w) →
  t < clock w + 5000 →
  freshReport page (config (this w)) (clock w) = Normal report →
  (diagnose page verbose w).1 = Normal report
  ∧ (diagnose page'' verbose
       (advance page' inclusive t (diagnose page verbose w).2)).1
    = Normal report.
Proof.
  intros Hmiss Hstale Ht Hfresh.
  assert (Hfirst : (diagnose page verbose w).1 = Normal report)
    by by rewrite diagnose_result, Hmiss.
  split; [done|].
  set (limit := if inclusive then t else t - 1).
  assert (Hlimit : limit < clock w + 5000) by (subst limit; destruct inclusive; lia).
  pose (P := λ w' : World,
          _diagnosticCache (this w') !! cacheKeyOf verbose = Some report
          ∧ Forall (λ tm, task tm = EvictDiagnostic (cacheKeyOf verbose) → limit < due tm)
                   (timers w')).
  assert (HP1 : P (diagnose page verbose w).2).
  { split; [by apply diagnose_caches|].
    rewrite (diagnose_timers page verbose w report) by done.
    apply Forall_app. split.
    - eapply Forall_impl; [exact Hstale|]. intros tm Hne Heq. done.
    - repeat constructor. simpl. intros _. lia. }
  assert (HP2 : P (runDue (length (timers (diagnose page verbose w).2)) page' limit
                     (diagnose page verbose w).2)).
  { apply runDue_preserves_fired; [|exact HP1].
    intros w1 tm Hin Hdue [Hc Hall].
    assert (Hnot : task tm ≠ EvictDiagnostic (cacheKeyOf verbose)).
    { intros Heq. rewrite Forall_forall in Hall. specialize (Hall tm Hin Heq). lia. }
    destruct (runTask_frame page' (task tm)
                (set_clock (Z.max (clock w1) (due tm))
                   (set_timers (filter (λ x, tid x ≠ tid tm) (timers w1)) w1)))
      as (Htm & _).
    split.
    - destruct (task tm) as [|k] eqn:Htask; simpl.
      + unfold resolutionPass.
        match goal with
        | |- _diagnosticCache (this (updateCurrentTrigger ?pg ?x).2) !! _ = _ =>
            destruct (updateCurrentTrigger_frame pg x) as (_ & _ & _ & _ & -> & _)
        end.
        done.
      + rewrite lookup_delete_ne; [done|]. congruence.
    - rewrite Htm. simpl. rewrite Forall_forall in *.
      intros x [_ Hx]%list_elem_of_filter. auto. }
  rewrite diagnose_result. unfold advance. fold limit. simpl.
  destruct HP2 as [-> _]. done.
Qed.

Lemma diagnose_report_cached_for_five_seconds_witness :
  ∃ report,
    (diagnose (samplePage topsA) false sampleWorld).1 = Normal report
    ∧ (diagnose emptyPage false
         (advance (samplePage topsA) true 5999
            (diagnose (samplePage topsA) false sampleWorld).2)).1
      = Normal report.
Proof.
  eexists.
  apply (diagnose_report_cached_for_five_seconds (samplePage topsA) (samplePage topsA)
           emptyPage false true 5999 sampleWorld).
  - by vm_compute.
  - vm_compute. constructor.
  - vm_compute. reflexivity.
  - reflexivity.
Defined.

(** Running the due timers evicts a key whose eviction timer is due. *)
Lemma runDue_evicts key page limit : ∀ fuel w,
  NoDup (tid <$> timers w) → (length (timers w) ≤ fuel)%nat →
  (_diagnosticCache (this w) !! key = None
   ∨ ∃ tm, tm ∈ timers w ∧ task tm = EvictDiagnostic key ∧ due tm ≤ limit) →
  _diagnosticCache (this (runDue fuel page limit w)) !! key = None.
Proof.
  induction fuel as [|fuel IH]; intros w Hnd Hlen Hq.
  { assert (Hnil : timers w = []) by (apply nil_length_inv; lia).
    destruct Hq as [Hq|(tm & Hin & _)]; [done|].
    rewrite Hnil in Hin. by apply elem_of_nil in Hin. }
  simpl. destruct (earliest (timers w)) as [tm0|] eqn:Hearly.
  2: { apply earliest_None in Hearly. destruct Hq as [Hq|(tm & Hin & _)]; [done|].
       rewrite Hearly in Hin. by apply elem_of_nil in Hin. }
  apply earliest_Some in Hearly as [Hin0 Hmin].
  case_bool_decide as Hdue.
  2: { destruct Hq as [Hq|(tm & Hin & _ & Hd)]; [done|].
       specialize (Hmin tm Hin). lia. }
  set (w1 := set_clock (Z.max (clock w) (due tm0))
               (set_timers (filter (λ x, tid x ≠ tid tm0) (timers w)) w)).
  destruct (runTask_frame page (task tm0) w1) as (Ht & _).
  apply IH.
  - rewrite Ht. simpl. by apply NoDup_tid_filter.
  - rewrite Ht. simpl. pose proof (filter_tid_length (timers w) tm0 Hin0). lia.
  - assert (Hcache : ∀ k, _diagnosticCache (this w) !! k = None →
                     _diagnosticCache (this (runTask page (task tm0) w1)) !! k = None).
    { intros k Hk. destruct (task tm0) as [|k0]; simpl.
      - unfold resolutionPass.
        match goal with
        | |- _diagnosticCache (this (updateCurrentTrigger ?pg ?x).2) !! _ = _ =>
            destruct (updateCurrentTrigger_frame pg x) as (_ & _ & _ & _ & -> & _)
        end.
        done.
      - destruct (decide (k0 = k)) as [->|Hne];
          [by rewrite lookup_delete_eq | by rewrite lookup_delete_ne]. }
    destruct Hq as [Hq|(tm & Hin & Htask & Hd)]; [left; by apply Hcache|].
    destruct (decide (tid tm = tid tm0)) as [Heq|Hne].
    + left. assert (tm = tm0) as -> by by apply (NoDup_tid_eq (timers w)).
      rewrite Htask. simpl. by rewrite lookup_delete_eq.
    + right. exists tm. rewrite Ht. simpl. split; [|done].
      by apply list_elem_of_filter.
Qed.

(** X9. A cached report is evicted once 5000 ms have passed: whatever else
    is pending, a [diagnose()] made at time [clock w] leaves nothing cached
    under its key after the clock has passed [clock w + 5000], so the next
    [diagnose()] computes a fresh report from the page as it is then (or
    throws, if that page cannot be diagnosed). *)
Theorem diagnose_report_evicted_after_five_seconds
    (page page' page'' : Page) (verbose inclusive : bool) (t : Z) (w : World) :
  timersOk w →
  _diagnosticCache (this w) !! cacheKeyOf verbose = None →
  clock w + 5000 < t →
  let w' := advance page' inclusive t (diagnose page verbose w).2 in
  _diagnosticCache (this w') !! cacheKeyOf verbose = None
  ∧ (diagnose page'' verbose w').1 = freshReport page'' (config (this w)) t.
Proof.
  intros Hok Hmiss Ht w'.
  assert (Hnone : _diagnosticCache (this w') !! cacheKeyOf verbose = None).
  { subst w'. unfold advance. simpl. apply runDue_evicts.
    - by apply timersOk_diagnose.
    - done.
    - destruct (diagnose page verbose w).1 as [report|error] eqn:Hfirst.
      + right. rewrite (diagnose_timers page verbose w report) by done.
        eexists. split; [apply elem_of_app; right; by left|]. simpl.
        split; [done|]. destruct inclusive; lia.
      + left. by rewrite (diagnose_throws page verbose w error). }
  split; [done|].
  assert (Hcfg : config (this w') = config (this w)).
  { subst w'. unfold advance. simpl.
    transitivity (config (this (diagnose page verbose w).2));
      [|by destruct (diagnose_frame page verbose w) as (_ & _ & _ & _ & -> & _)].
    apply (runDue_preserves (λ w1, config (this w1)
                                   = config (this (diagnose page verbose w).2)));
      [|done].
    intros w1 tm Hw1.
    by destruct (runTask_frame page' (task tm)
                   (set_clock (Z.max (clock w1) (due tm))
                      (set_timers (filter (λ x, tid x ≠ tid tm) (timers w1)) w1)))
      as (_ & _ & _ & _ & -> & _). }
  assert (Hclock : clock w' = t).
  { subst w'. unfold advance. simpl.
    assert (Hle : clock (runDue (length (timers (diagnose page verbose w).2)) page'
                           (if inclusive then t else t - 1) (diagnose page verbose w).2)
                  ≤ t); [|lia].
    apply (runDue_preserves_fired (λ w1, clock w1 ≤ t)).
    - intros w1 tm _ Hdue Hw1.
      destruct (runTask_frame page' (task tm)
                  (set_clock (Z.max (clock w1) (due tm))
                     (set_timers (filter (λ x, tid x ≠ tid tm) (timers w1)) w1)))
        as (_ & _ & -> & _).
      simpl. destruct inclusive; lia.
    - destruct (diagnose_frame page verbose w) as (_ & _ & _ & _ & _ & _ & _ & ->). lia. }
  by rewrite diagnose_result, Hnone, Hcfg, Hclock.
Qed.

Lemma diagnose_report_evicted_after_five_seconds_witness :
  let w' := advance (samplePage topsA) true 6001
              (diagnose (samplePage topsA) false sampleWorld).2 in
  _diagnosticCache (this w') !! cacheKeyOf false = None
  ∧ (diagnose emptyPage false w').1
    = freshReport emptyPage (config (this sampleWorld)) 6001.
Proof.
  apply (diagnose_report_evicted_after_five_seconds (samplePage topsA) (samplePage topsA)
           emptyPage false true 6001 sampleWorld).
  - exact (proj1 sampleWorld_listening).
  - by vm_compute.
  - vm_compute. reflexivity.
Defined.

(** ** After teardown *)

Lemma destroy_host w :
  effects (destroy w) = effects w ∧ passes (destroy w) = passes w
  ∧ clock (destroy w) = clock w
  ∧ timers (destroy w)
    = match _debounceTimer (this w) with
      | Some id => if decide (id = 0%nat) then timers w
                   else filter (λ tm, tid tm ≠ id) (timers w)
      | None => timers w
      end.
Proof.
  unfold destroy. destruct (_debounceTimer (this w)) as [id|]; [|done].
  by destruct (decide (id = 0%nat)).
Qed.

Lemma destroy_cancels_debounce w :
  timersOk w → _debounceTimer (this w) ≠ Some 0%nat → pendingUpdates (destroy w) = [].
Proof.
  intros (_ & _ & Hnamed) Hnz. unfold pendingUpdates.
  destruct (destroy_host w) as (_ & _ & _ & ->).
  rewrite Forall_forall in Hnamed. apply filter_none, Forall_forall.
  destruct (_debounceTimer (this w)) as [id|] eqn:Hid.
  - destruct (decide (id = 0%nat)) as [->|Hne]; [done|].
    intros x [Hx Hin]%list_elem_of_filter Hxu.
    specialize (Hnamed x Hin Hxu). congruence.
  - intros x Hin Hxu. by specialize (Hnamed x Hin Hxu).
Qed.

Lemma stopped_advance ps es page inclusive t w :
  stopped ps es w → stopped ps es (advance page inclusive t w).
Proof.
  intros Hw. unfold advance.
  assert (Hr : stopped ps es (runDue (length (timers w)) page
                                (if inclusive then t else t - 1) w)).
  { apply runDue_preserves_fired; [|done].
    intros w1 tm Hin _ (Hpend & Hp & He & Hv & Hc).
    assert (Hnu : ∀ x, x ∈ timers w1 → ¬ isUpdate x).
    { intros x Hx Hxu.
      assert (Hx' : x ∈ pendingUpdates w1) by by apply list_elem_of_filter.
      rewrite Hpend in Hx'. by apply elem_of_nil in Hx'. }
    destruct (task tm) as [|key] eqn:Htask; [by destruct (Hnu tm Hin)|].
    unfold stopped. simpl. split; [|done].
    apply filter_none, Forall_forall.
    intros x [_ Hx]%list_elem_of_filter. by apply Hnu. }
  destruct Hr as (H1 & H2 & H3 & H4 & H5). by unfold stopped.
Qed.

(** X10. [destroy()] cancels the pending debounce timer: on an instance
    that has been destroyed, the mere passage of time runs no resolution
    pass and notifies nothing, however long; the Visible Set stays empty and
    [getCurrentTriggerId()] stays null. *)
Theorem nothing_runs_after_destroy
    (page0 : Page) (now : Z) (o : Options) (w0 : World)
    (before later : list (Page * Event)) :
  new_ScrollySystem page0 now o = Normal w0 →
  Forall isAdvance later →
  let w := destroy (run before w0) in
  passes (run later w) = passes (run before w0)
  ∧ effects (run later w) = effects (run before w0)
  ∧ visibleElements (this (run later w)) = []
  ∧ getCurrentTriggerId (run later w) = None.
Proof.
  intros Hnew Hlater w.
  assert (Hok : timersOk (run before w0)) by by eapply timersOk_reachable.
  assert (Hc : coherent (run before w0)) by (apply coherent_run; by eapply coherent_new).
  destruct Hc as (_ & _ & _ & _ & Hnz).
  assert (Hs : stopped (passes (run before w0)) (effects (run before w0)) w).
  { subst w. destruct (destroy_host (run before w0)) as (He & Hp & _).
    unfold stopped. rewrite destroy_cancels_debounce, destroy_this by done. done. }
  assert (Hs' : stopped (passes (run before w0)) (effects (run before w0)) (run later w)).
  { clearbody w. clear Hnew Hok Hnz. revert w Hs.
    induction later as [|[page ev] later IH]; intros w Hs; [done|].
    apply Forall_cons in Hlater as [Hev Hlater]. simpl. apply IH; [done|].
    destruct ev; try done. by apply stopped_advance. }
  by destruct Hs' as (_ & H2 & H3 & H4 & H5).
Qed.

Lemma nothing_runs_after_destroy_witness :
  let w := destroy (run (deliver burst) sampleWorld) in
  let later := [(samplePage topsA, Advance true 1029);
                (samplePage topsA, Advance false 9000)] in
  passes (run later w) = passes (run (deliver burst) sampleWorld)
  ∧ effects (run later w) = effects (run (deliver burst) sampleWorld)
  ∧ visibleElements (this (run later w)) = []
  ∧ getCurrentTriggerId (run later w) = None.
Proof.
  apply (nothing_runs_after_destroy (samplePage topsA) 1000 no_options sampleWorld
           (deliver burst)
           [(samplePage topsA, Advance true 1029); (samplePage topsA, Advance false 9000)]).
  - reflexivity.
  - repeat constructor.
Defined.

(** The debounce timer that [destroy()] cancels would have run a pass. *)
Example burst_pass_runs_without_destroy :
  length (passes (run [(samplePage topsA, Advance true 1029)]
                    (run (deliver burst) sampleWorld)))
  = S (length (passes (run (deliver burst) sampleWorld))).
Proof. by vm_compute. Qed.

(** ** The chain of notifications *)

Lemma chained_snoc prev ds d :
  chained prev (ds ++ [d])
  ↔ chained prev ds ∧ previous d = lastCurrent prev ds ∧ current d ≠ lastCurrent prev ds.
Proof.
  revert prev. induction ds as [|d0 ds IH]; intros prev; simpl.
  - unfold lastCurrent. simpl. tauto.
  - rewrite IH. unfold lastCurrent. simpl. tauto.
Qed.

Lemma lastCurrent_snoc prev ds d : lastCurrent prev (ds ++ [d]) = current d.
Proof. unfold lastCurrent. by rewrite foldl_app. Qed.

Lemma notified_same w w' :
  effects w' = effects w → currentTriggerId (this w') = currentTriggerId (this w) →
  config (this w') = config (this w) → notified w → notified w'.
Proof. unfold notified, changes. by intros -> -> ->. Qed.

Lemma notified_setCurrentTrigger id w : notified w → notified (setCurrentTrigger id w).2.
Proof.
  intros (Hchain & Hlast & Hsent & Hnone). unfold notified, changes in *.
  rewrite setCurrentTrigger_effects, setCurrentTrigger_current.
  destruct (setCurrentTrigger_frame id w) as (_ & _ & _ & -> & _).
  destruct (decide (currentTriggerId (this w) = id)) as [<-|Hne].
  { by rewrite app_nil_r. }
  unfold notifications, dispatched, calledBack in *. rewrite !omap_app.
  destruct (onChange (config (this w))) as [callback|]; simpl in *.
  - assert (Hc : chained None
                   (omap (λ e, match e with OnChangeCall d => Some d | _ => None end)
                         (effects w) ++ [changeTo id w])).
    { apply chained_snoc. simpl. rewrite Hlast. naive_solver. }
    destruct (returns (callback (changeTo id w))) eqn:Hret; simpl;
      (split; [done|]); (split; [by rewrite lastCurrent_snoc|]); (split; [|done]);
      rewrite filter_app, <- Hsent; f_equal.
    + by rewrite filter_cons_True.
    + rewrite filter_cons_False; [done|]. by rewrite Hret.
  - split; [|split; [|split; [done|]]].
    + apply chained_snoc. simpl. rewrite Hlast. naive_solver.
    + by rewrite lastCurrent_snoc.
    + intros _. rewrite Hnone by done. done.
Qed.

Lemma notified_resolutionPass page w : notified w → notified (resolutionPass page w).2.
Proof.
  intros Hw. unfold resolutionPass, updateCurrentTrigger.
  change (visibleElements (this (record_pass w))) with (visibleElements (this w)).
  change (lastValidTriggerId (this (record_pass w))) with (lastValidTriggerId (this w)).
  destruct (visibleElements (this w)) as [|first rest].
  - destruct (lastValidTriggerId (this w)).
    + apply notified_setCurrentTrigger. by eapply notified_same; [| | |exact Hw].
    + by eapply notified_same; [| | |exact Hw].
  - apply notified_setCurrentTrigger. by eapply notified_same; [| | |exact Hw].
Qed.

Lemma notified_step page ev w :
  ev ≠ Call_destroy → notified w → notified (step w (page, ev)).
Proof.
  intros Hev Hw. destruct ev; simpl; try done.
  - unfold advance.
    apply (notified_same (runDue (length (timers w)) page
                            (if inclusive then t else t - 1) w)); [done..|].
    apply (runDue_preserves notified); [|done].
    intros w1 tm Hw1. destruct (task tm); simpl.
    + apply notified_resolutionPass. by eapply notified_same; [| | |exact Hw1].
    + by eapply notified_same; [| | |exact Hw1].
  - destruct (domReadyListener w); [|done].
    destruct (setup_cases page w) as [(_ & elements & _ & ->)|(_ & _ & [-> | ->])];
      try by eapply notified_same; [| | |exact Hw].
    apply notified_resolutionPass. by eapply notified_same; [| | |exact Hw].
  - destruct (observer (this w)); [|done].
    unfold observerCallback.
    destruct (debouncedUpdate_this (with_this (λ s, foldl (intake page) s entries) w))
      as (_ & Hc & _ & _ & Hcfg & _ & He & _).
    destruct (intake_resolution page entries (this w)) as [Hc' _].
    destruct (intake_frame page entries (this w)) as (Hcfg' & _).
    eapply notified_same; [| | |exact Hw].
    + by rewrite He.
    + rewrite Hc. simpl. by rewrite Hc'.
    + rewrite Hcfg. simpl. by rewrite Hcfg'.
  - destruct (observe_frame element0 (this w)) as (_ & Hcfg & _ & Hc & _).
    by eapply notified_same; [| | |exact Hw].
  - destruct (unobserve_frame element0 (this w)) as (_ & Hcfg & _ & Hc & _).
    by eapply notified_same; [| | |exact Hw].
  - destruct (diagnose_frame page verbose w) as (_ & _ & Hc & _ & Hcfg & _).
    assert (He : dispatched (effects (diagnose page verbose w).2) = dispatched (effects w)
                 ∧ calledBack (effects (diagnose page verbose w).2) = calledBack (effects w)).
    { unfold diagnose. destruct (_diagnosticCache (this w) !! cacheKeyOf verbose); [done|].
      destruct (collectIssues page (config (this w))) as [[elements issues]|]; [|done].
      simpl. destruct (debug (config (this w)) || verbose); simpl; [|done].
      unfold dispatched, calledBack. rewrite !omap_app. simpl. by rewrite !app_nil_r. }
    destruct He as [Hd Hcb]. unfold notified, changes in *. by rewrite Hc, Hcfg, Hd, Hcb.
Qed.

Lemma notified_new page now o w : new_ScrollySystem page now o = Normal w → notified w.
Proof.
  intros [[_ ->]|(_ & _ & elements & _ & ->)]%new_ScrollySystem_Normal;
    unfold notified, changes; simpl; by destruct (opt_onChange o).
Qed.

(** X11. Without [destroy()], the changes of the current identifier are
    notified in a chain: the first has [previous] null, each has [current]
    different from [previous], each one's [previous] is the [current] of the
    one before, and [getCurrentTriggerId()] is the [current] of the last one
    (null when nothing was notified).  When an [onChange] callback is
    configured it is called for every change, in order, and the event is
    broadcast for exactly those calls that returned (a call that throws
    loses its broadcast); without a callback the event is broadcast for
    every change and nothing is called. *)
Theorem notifications_form_a_chain
    (page0 : Page) (now : Z) (o : Options) (w0 : World) (trace : list (Page * Event)) :
  new_ScrollySystem page0 now o = Normal w0 →
  Forall (λ pe : Page * Event, pe.2 ≠ Call_destroy) trace →
  let w := run trace w0 in
  chained None (changes w)
  ∧ getCurrentTriggerId w = lastCurrent None (changes w)
  ∧ dispatched (effects w) = broadcastsOf (onChange (config (this w))) (changes w)
  ∧ (onChange (config (this w)) = None → calledBack (effects w) = []).
Proof.
  intros Hnew Hnd w.
  assert (Hn : notified w).
  { subst w. apply notified_new in Hnew. clear page0 now o. revert w0 Hnew.
    induction trace as [|[page ev] trace IH]; intros w0 Hw0; [done|].
    apply Forall_cons in Hnd as [Hev Hnd]. simpl. apply IH; [done|].
    by apply notified_step. }
  destruct Hn as (H1 & H2 & H3 & H4). done.
Qed.

Lemma notifications_form_a_chain_witness :
  let w := run scenarioTrace worldFailing in
  chained None (changes w)
  ∧ getCurrentTriggerId w = lastCurrent None (changes w)
  ∧ dispatched (effects w) = broadcastsOf (onChange (config (this w))) (changes w)
  ∧ (onChange (config (this w)) = None → calledBack (effects w) = []).
Proof.
  apply (notifications_form_a_chain (samplePage topsA) 1000
           (with_onChange failingCallback no_options) worldFailing scenarioTrace).
  - reflexivity.
  - unfold scenarioTrace. repeat constructor; simpl; discriminate.
Defined.

(** In the scenario, the callback that throws on "section1" is called for
    both changes; only "intro" is broadcast. *)
Example failing_callback_in_the_scenario :
  let w := run scenarioTrace worldFailing in
  (λ d, (previous d, current d)) <$> calledBack (effects w)
  = [(None, Some "intro"); (Some "intro", Some "section1")]
  ∧ (λ d, (previous d, current d)) <$> dispatched (effects w) = [(None, Some "intro")]
  ∧ getCurrentTriggerId w = Some "section1".
Proof. by vm_compute. Qed.

(** [destroy()] resets the current identifier without notifying, so the
    next notification does not continue the chain. *)
Example destroy_breaks_the_chain :
  (λ d, (previous d, current d))
    <$> dispatched (effects (run [(samplePage topsA, Call_destroy);
                                  (samplePage topsA, Call_observe (Some 2%nat));
                                  (samplePage topsA, Intersections [enter 2%nat]);
                                  (samplePage topsA, Advance true 1300)] worldIntro))
  = [(None, Some "intro"); (None, Some "section1")].
Proof. by vm_compute. Qed.

(** ** The Visible Set holds observed elements only *)

Lemma runTask_tracked page k w :
  visibleElements (this (runTask page k w)) = visibleElements (this w)
  ∧ observer (this (runTask page k w)) = observer (this w).
Proof.
  destruct k; simpl; [|done]. unfold resolutionPass.
  by destruct (updateCurrentTrigger_frame page (record_pass w)) as (-> & -> & _).
Qed.

Lemma intake_keys_from page entries : ∀ s e,
  e ∈ (visibleElements (foldl (intake page) s entries)).*1 →
  e ∈ (visibleElements s).*1
  ∨ ∃ entry, entry ∈ entries ∧ isIntersecting entry = true ∧ target entry = e.
Proof.
  induction entries as [|entry entries IH]; intros s e He; [by left|].
  simpl in He. apply IH in He as [He|(en & Hin & Hi & Ht)].
  - rewrite intake_iteration_order in He.
    destruct (isIntersecting entry) eqn:Hint.
    + destruct (decide _); [by left|].
      apply elem_of_app in He as [He|He]; [by left|].
      apply list_elem_of_singleton in He. right. exists entry.
      split; [by left|]. done.
    + apply list_elem_of_filter in He as [_ He]. by left.
  - right. exists en. split; [by right|]. done.
Qed.

Lemma visibleAreObserved_step page ev w :
  reportsObserved w ev → coherent w → visibleAreObserved w →
  visibleAreObserved (step w (page, ev)).
Proof.
  intros Hhost Hc Hw. destruct ev; simpl.
  - unfold advance, visibleAreObserved. simpl.
    assert (Hsame : visibleElements (this (runDue (length (timers w)) page
                       (if inclusive then t else t - 1) w)) = visibleElements (this w)
                    ∧ observer (this (runDue (length (timers w)) page
                       (if inclusive then t else t - 1) w)) = observer (this w)).
    { apply (runDue_preserves (λ w1, visibleElements (this w1) = visibleElements (this w)
                                     ∧ observer (this w1) = observer (this w))); [|done].
      intros w1 tm [Hv Ho].
      match goal with
      | |- context [runTask page (task tm) ?x] =>
          destruct (runTask_tracked page (task tm) x) as [-> ->]
      end.
      done. }
    destruct Hsame as [-> ->]. exact Hw.
  - destruct (domReadyListener w) eqn:Hl; [|done].
    destruct Hc as (_ & _ & Hnone & _).
    destruct (Hnone Hhost) as [Hvis _].
    assert (Hempty : ∀ w', visibleElements (this w') = [] → visibleAreObserved w').
    { intros w' Hv e He. rewrite Hv in He. by apply elem_of_nil in He. }
    apply Hempty.
    destruct (setup_cases page w) as [(_ & elements & _ & ->)|(_ & _ & [-> | ->])];
      [|done..].
    unfold resolutionPass.
    match goal with
    | |- visibleElements (this (updateCurrentTrigger ?pg ?x).2) = _ =>
        destruct (updateCurrentTrigger_frame pg x) as (-> & _)
    end.
    done.
  - destruct (observer (this w)) as [o|] eqn:Ho; [|done].
    unfold visibleAreObserved, observerCallback.
    destruct (debouncedUpdate_this (with_this (λ s, foldl (intake page) s entries) w))
      as (-> & _ & _ & -> & _).
    simpl. destruct (intake_frame page entries (this w)) as (_ & -> & _).
    intros e He. exists o. split; [done|].
    apply intake_keys_from in He as [He|(en & Hin & Hi & <-)].
    + destruct (Hw e He) as (o' & Ho' & Hin). congruence.
    + specialize (Hhost o Ho). rewrite Forall_forall in Hhost. by apply Hhost.
  - intros x Hx.
    change (this (with_this (observe element0) w)) with (observe element0 (this w)) in *.
    destruct (observe_frame element0 (this w)) as (Hv & _). rewrite Hv in Hx.
    destruct (Hw x Hx) as (o' & Ho' & Hin).
    unfold observe. rewrite Ho'.
    destruct element0; simpl; (eexists; split; [done|]); simpl; [|done].
    apply elem_of_union. by right.
  - intros x Hx.
    change (this (with_this (unobserve element0) w))
      with (unobserve element0 (this w)) in *.
    unfold unobserve in *.
    destruct (observer (this w)) as [o'|] eqn:Ho; [|exact (Hw x Hx)].
    destruct element0 as [e0|].
    + simpl in *. rewrite Map_delete_keys in Hx.
      apply list_elem_of_filter in Hx as [Hne Hx].
      destruct (Hw x Hx) as (o'' & Ho'' & Hin).
      eexists. split; [done|]. simpl. simplify_eq.
      apply elem_of_difference. split; [done|].
      by intros ?%elem_of_singleton.
    + destruct (Hw x Hx) as (o'' & Ho'' & Hin). exists o''. split; [congruence|done].
  - exact Hw.
  - unfold visibleAreObserved.
    by destruct (diagnose_frame page verbose w) as (-> & -> & _).
  - intros e He. rewrite destroy_this in He. simpl in He. by apply elem_of_nil in He.
Qed.

Lemma new_visible_empty page now o w :
  new_ScrollySystem page now o = Normal w → visibleElements (this w) = [].
Proof.
  by intros [[_ ->]|(_ & _ & elements & _ & ->)]%new_ScrollySystem_Normal.
Qed.

(** X12. As long as the host reports intersections only for elements the
    observer watches, and [DOMContentLoaded] does not reach the document
    again once the observer exists (a second one would put a new observer,
    which watches the matches of the selector only, in its place), every
    element in the Visible Set is registered with the observer, in every
    reachable world: [unobserve()] evicts what it unregisters and
    [destroy()] clears both. *)
Theorem visible_elements_are_observed
    (page0 : Page) (now : Z) (o : Options) (w0 : World) (trace : list (Page * Event)) :
  new_ScrollySystem page0 now o = Normal w0 →
  hostDiscipline trace w0 →
  visibleAreObserved (run trace w0).
Proof.
  intros Hnew Hhost.
  assert (Hc : coherent w0) by by eapply coherent_new.
  assert (Hv : visibleAreObserved w0).
  { pose proof (new_visible_empty page0 now o w0 Hnew) as Hvis.
    intros e He. rewrite Hvis in He. by apply elem_of_nil in He. }
  clear Hnew. revert w0 Hhost Hc Hv.
  induction trace as [|[page ev] trace IH]; intros w0 Hhost Hc Hv; [done|].
  destruct Hhost as [Hev Hhost]. simpl. apply IH; [done| |].
  - by apply coherent_step.
  - by apply visibleAreObserved_step.
Qed.

Lemma visible_elements_are_observed_witness :
  hostDiscipline scenarioTrace sampleWorld
  ∧ visibleAreObserved (run scenarioTrace sampleWorld).
Proof.
  assert (Hhost : hostDiscipline scenarioTrace sampleWorld).
  { unfold scenarioTrace, hostDiscipline, reportsObserved.
    repeat split; intros o Ho; vm_compute in Ho; injection Ho as <-;
      repeat constructor; intros _; vm_compute; reflexivity. }
  split; [exact Hhost|].
  exact (visible_elements_are_observed (samplePage topsA) 1000 no_options sampleWorld
           scenarioTrace eq_refl Hhost).
Defined.

(** Without the second condition the property fails: the observer put in
    place by a second [setup()] does not watch the element that
    [observe()] had registered with the earlier one, which stays in the
    Visible Set. *)
Example rerun_forgets_a_registration :
  let w := run [(samplePage topsA, DOMContentLoaded);
                (samplePage topsA, Call_observe (Some 7%nat));
                (samplePage topsA, Intersections [enter 1%nat; enter 7%nat]);
                (samplePage topsA, DOMContentLoaded)]
               loadingWorld in
  ¬ visibleAreObserved w.
Proof.
  intros w Hv.
  assert (Hvis : (visibleElements (this w)).*1 = [1; 7]%nat) by by vm_compute.
  assert (Hobs : observer (this w) = Some {| targets := {[1; 2]}%nat |})
    by by vm_compute.
  destruct (Hv 7%nat) as (o & Ho & Hin).
  - rewrite Hvis. set_solver.
  - rewrite Hobs in Ho. injection Ho as <-. simpl in Hin.
    rewrite elem_of_union, !elem_of_singleton in Hin. by destruct Hin.
Qed.

(** ** A resolution pass is idempotent *)

Lemma set_lastValidTriggerId_same s :
  set_lastValidTriggerId (lastValidTriggerId s) s = s.
Proof. by destruct s. Qed.

(** X13. Running [updateCurrentTrigger()] a second time over the same
    Visible Set and layout changes nothing: the same entry is resolved, the
    identifiers are already set, and nothing is notified again; the second
    pass returns even when the first one threw in the callback. *)
Theorem resolution_pass_idempotent (page : Page) (w : World) :
  updateCurrentTrigger page (updateCurrentTrigger page w).2
  = (Normal (), (updateCurrentTrigger page w).2).
Proof.
  set (w1 := (updateCurrentTrigger page w).2).
  destruct (updateCurrentTrigger_frame page w) as (Hvis & _). fold w1 in Hvis.
  destruct (visibleElements (this w)) as [|first rest] eqn:Hv.
  - assert (Hl : lastValidTriggerId (this w1) = lastValidTriggerId (this w)
                 ∧ (lastValidTriggerId (this w) ≠ None →
                    currentTriggerId (this w1) = lastValidTriggerId (this w))).
    { subst w1. unfold updateCurrentTrigger. rewrite Hv.
      destruct (lastValidTriggerId (this w)) as [id|] eqn:Hlast; [|done].
      destruct (setCurrentTrigger_frame (Some id) w) as (_ & -> & _).
      split; [done|]. intros _. apply setCurrentTrigger_current. }
    destruct Hl as [Hl Hc].
    unfold updateCurrentTrigger at 1. rewrite Hvis, Hl.
    destruct (lastValidTriggerId (this w)) as [id|] eqn:Hlast; [|done].
    rewrite <- Hc by done. apply setCurrentTrigger_same.
  - destruct (updateCurrentTrigger_nonempty page w first rest Hv) as [Hl Hc].
    fold w1 in Hl, Hc.
    unfold updateCurrentTrigger at 1. rewrite Hvis. cbv zeta.
    rewrite <- Hl. rewrite (with_this_fixed _ w1) by apply set_lastValidTriggerId_same.
    rewrite Hl, <- Hc. apply setCurrentTrigger_same.
Qed.

(** ** What the diagnostics report *)

Lemma count_severity_elem sev issue issues :
  issue ∈ issues → severity issue = sev → (1 ≤ count_severity sev issues)%nat.
Proof.
  intros Hin Hsev. unfold count_severity.
  assert (Hf : issue ∈ filter (λ i, severity i = sev) issues) by by apply list_elem_of_filter.
  destruct (filter (λ i, severity i = sev) issues); [by apply elem_of_nil in Hf|simpl; lia].
Qed.

(** One issue of severity error decides the status and costs 3 points. *)
Lemma error_issue_decides issue issues :
  issue ∈ issues → severity issue = "error" →
  _determineStatus issues = "error" ∧ (_calculatePerformanceScore issues <= 7)%Q.
Proof.
  intros Hin Hsev. split.
  - unfold _determineStatus.
    assert (Hsome : some_severity "error" issues = true).
    { apply some_severity_Exists, Exists_exists. eauto. }
    by rewrite Hsome.
  - unfold _calculatePerformanceScore, Math_max.
    destruct (Qle_bool 0 (foldl deduct 10%Q issues)); [|done].
    rewrite foldl_deduct.
    pose proof (count_severity_elem "error" issue issues Hin Hsev) as Hone.
    assert (H1 : (1 <= qn (count_severity "error" issues))%Q).
    { unfold qn. change 1%Q with (inject_Z 1). rewrite <- Zle_Qle. lia. }
    pose proof (qn_nonneg (count_severity "warning" issues)) as H2.
    pose proof (qn_nonneg (count_severity "info" issues)) as H3.
    set (a := qn _) in *. set (b := qn _) in *. set (c := qn _) in *.
    clearbody a b c. lra.
Qed.

(** Without a body the environment cannot be checked; with one, the
    checks return. *)
Lemma _checkEnvironment_Normal page environmentIssues :
  _checkEnvironment page = Normal environmentIssues → hasBody page = true.
Proof. unfold _checkEnvironment. by destruct (hasBody page). Qed.

Lemma _checkEnvironment_errors page environmentIssues :
  _checkEnvironment page = Normal environmentIssues →
  (Z.max (bodyScrollHeight page) (htmlScrollHeight page) ≤ innerHeight page →
   mkIssue "no_scroll" "error" None ∈ environmentIssues)
  ∧ (overflow (bodyStyle page) = "hidden" ∨ overflow (htmlStyle page) = "hidden" →
     mkIssue "overflow_hidden" "error" None ∈ environmentIssues)
  ∧ (hasIntersectionObserver page = false →
     mkIssue "no_intersection_observer" "error" None ∈ environmentIssues).
Proof.
  unfold _checkEnvironment. destruct (hasBody page); [|done]. simpl.
  intros [= <-]. split; [|split].
  - intros Hh. repeat case_bool_decide; simpl;
      destruct (viewportMeta page), (hasIntersectionObserver page); simpl;
      rewrite ?elem_of_app, ?elem_of_cons; tauto.
  - intros Hh. repeat case_bool_decide; simpl;
      destruct (viewportMeta page), (hasIntersectionObserver page); simpl;
      rewrite ?elem_of_app, ?elem_of_cons; tauto.
  - intros ->. repeat case_bool_decide; simpl; destruct (viewportMeta page); simpl;
      rewrite ?elem_of_app, ?elem_of_cons; tauto.
Qed.

(** X14. A page that cannot work is reported as an error: when nothing
    matches the selector, the document is not taller than the viewport, the
    body or the root element has [overflow: hidden], or the host lacks
    IntersectionObserver, a [diagnose()] that computes its report gives
    status 'error' and a performance score of at most 7. *)
Theorem unusable_page_is_an_error
    (page : Page) (verbose : bool) (w : World) (report : Report) :
  _diagnosticCache (this w) !! cacheKeyOf verbose = None →
  unusablePage page (config (this w)) →
  (diagnose page verbose w).1 = Normal report →
  status report = "error" ∧ (performanceScore (summary report) <= 7)%Q.
Proof.
  intros Hmiss Hbad. rewrite diagnose_result, Hmiss. intros Hreport.
  apply freshReport_Normal in Hreport
    as (elements & elementIssues & performanceIssues & environmentIssues
        & Hq & Hel & Hperf & Henv & ->).
  cbn [status summary performanceScore].
  assert (Hex : ∃ issue, issue ∈ elementIssues ++ performanceIssues ++ environmentIssues
                         ∧ severity issue = "error").
  { destruct (_checkEnvironment_errors page _ Henv) as (Hscroll & Hoverflow & Hio).
    destruct Hbad as [Hnone|[Hh|[Hb|[Hh|Hi]]]].
    - exists (mkIssue "no_elements" "error" None). split; [|done].
      apply elem_of_app. left. unfold validateElements in Hel. rewrite Hnone in Hel.
      simpl in Hel. injection Hel as <-. by left.
    - exists (mkIssue "no_scroll" "error" None). split; [|done].
      rewrite !elem_of_app. auto.
    - exists (mkIssue "overflow_hidden" "error" None). split; [|done].
      rewrite !elem_of_app. auto.
    - exists (mkIssue "overflow_hidden" "error" None). split; [|done].
      rewrite !elem_of_app. auto.
    - exists (mkIssue "no_intersection_observer" "error" None). split; [|done].
      rewrite !elem_of_app. auto. }
  destruct Hex as (issue & Hin & Hsev). by apply (error_issue_decides issue).
Qed.

Lemma unusable_page_is_an_error_witness :
  ∃ report, (diagnose emptyPage false sampleWorld).1 = Normal report
            ∧ status report = "error"
            ∧ (performanceScore (summary report) <= 7)%Q.
Proof.
  eexists. split; [reflexivity|].
  apply (unusable_page_is_an_error emptyPage false sampleWorld).
  - by vm_compute.
  - left. reflexivity.
  - reflexivity.
Defined.

Lemma checkPerformance_no_element page cfg performanceIssues :
  checkPerformance page cfg = Normal performanceIssues →
  Forall (λ issue, element issue = None ∧ severity issue ≠ "error") performanceIssues.
Proof.
  unfold checkPerformance.
  destruct (querySelectorAll page (selector cfg)) as [elements|]; [|done]. simpl.
  intros [= <-]. repeat case_match; simpl; repeat constructor; done.
Qed.

Lemma _checkEnvironment_no_element page environmentIssues :
  _checkEnvironment page = Normal environmentIssues →
  Forall (λ issue, element issue = None) environmentIssues.
Proof.
  unfold _checkEnvironment. destruct (hasBody page); [|done]. simpl.
  intros [= <-]. repeat case_match; simpl; repeat constructor; done.
Qed.

Lemma countProblematic_none issues :
  Forall (λ issue, element issue = None) issues → _countProblematicElements issues = 0%nat.
Proof.
  intros Hall. unfold _countProblematicElements.
  assert (Hfold : ∀ acc : gset Element,
            foldl (λ acc issue, match element issue with
                                | Some el => {[el]} ∪ acc
                                | None => acc
                                end) acc issues = acc).
  { induction Hall as [|issue issues Hi _ IH]; intros acc; [done|].
    simpl. rewrite Hi. apply IH. }
  rewrite Hfold. apply size_empty.
Qed.

(** X15. When nothing matches the selector, [validateElements()] returns
    early with the single issue "no_elements": the computed report starts
    with it, carries only the performance and environment issues after it,
    and counts 0 elements and 0 problematic elements. *)
Theorem empty_page_report (page : Page) (verbose : bool) (w : World) (report : Report) :
  _diagnosticCache (this w) !! cacheKeyOf verbose = None →
  querySelectorAll page (selector (config (this w))) = Normal [] →
  (diagnose page verbose w).1 = Normal report →
  validateElements page (config (this w)) = Normal [mkIssue "no_elements" "error" None]
  ∧ (∃ performanceIssues environmentIssues,
       checkPerformance page (config (this w)) = Normal performanceIssues
       ∧ _checkEnvironment page = Normal environmentIssues
       ∧ issues report
         = mkIssue "no_elements" "error" None :: performanceIssues ++ environmentIssues)
  ∧ totalElements (summary report) = 0%nat
  ∧ problematicElements (summary report) = 0%nat.
Proof.
  intros Hmiss Hnone. rewrite diagnose_result, Hmiss. intros Hreport.
  apply freshReport_Normal in Hreport
    as (elements & elementIssues & performanceIssues & environmentIssues
        & Hq & Hel & Hperf & Henv & ->).
  assert (Hfirst : validateElements page (config (this w))
                   = Normal [mkIssue "no_elements" "error" None]).
  { unfold validateElements. by rewrite Hnone. }
  rewrite Hfirst in Hel. injection Hel as <-.
  rewrite Hnone in Hq. injection Hq as <-.
  split; [done|]. split; [by exists performanceIssues, environmentIssues|].
  split; [done|]. cbn [summary problematicElements].
  apply countProblematic_none. constructor; [done|].
  apply Forall_app. split; [|by eapply _checkEnvironment_no_element].
  eapply Forall_impl; [by eapply checkPerformance_no_element|]. by intros issue [? _].
Qed.

Lemma empty_page_report_witness :
  ∃ report,
    (diagnose emptyPage false sampleWorld).1 = Normal report
    ∧ issues report = [mkIssue "no_elements" "error" None]
    ∧ totalElements (summary report) = 0%nat
    ∧ problematicElements (summary report) = 0%nat.
Proof.
  eexists. split; [reflexivity|].
  destruct (empty_page_report emptyPage false sampleWorld _
              ltac:(by vm_compute) eq_refl eq_refl)
    as (_ & _ & Htotal & Hproblematic).
  split; [reflexivity|]. split; [exact Htotal | exact Hproblematic].
Defined.

(** X16. The performance heuristics alone never make a report an error and
    cost at most 2.5 points: [checkPerformance()], when its query returns,
    yields at most three issues, none of severity error and none attached to
    an element. *)
Theorem performance_checks_are_mild
    (page : Page) (cfg : Config) (performanceIssues : list Issue) :
  checkPerformance page cfg = Normal performanceIssues →
  (length performanceIssues ≤ 3)%nat
  ∧ Forall (λ issue, element issue = None ∧ severity issue ≠ "error") performanceIssues
  ∧ _determineStatus performanceIssues ≠ "error"
  ∧ (15 # 2 <= _calculatePerformanceScore performanceIssues)%Q.
Proof.
  intros Hperf. split; [|split; [by eapply checkPerformance_no_element|]];
    revert Hperf; unfold checkPerformance;
    (destruct (querySelectorAll page (selector cfg)) as [elements|]; [|done]); simpl;
    intros [= <-].
  - repeat case_match; simpl; lia.
  - repeat case_match; by vm_compute.
Qed.

Lemma performance_checks_are_mild_witness :
  ∃ performanceIssues,
    checkPerformance (samplePage topsA)
      (with_threshold (Scalar 1) (merge_config (with_debounceDelay 250 no_options)))
    = Normal performanceIssues
    ∧ (length performanceIssues ≤ 3)%nat
    ∧ Forall (λ issue, element issue = None ∧ severity issue ≠ "error") performanceIssues
    ∧ _determineStatus performanceIssues ≠ "error"
    ∧ (15 # 2 <= _calculatePerformanceScore performanceIssues)%Q.
Proof.
  eexists. split; [reflexivity|].
  apply (performance_checks_are_mild (samplePage topsA)
           (with_threshold (Scalar 1) (merge_config (with_debounceDelay 250 no_options)))).
  reflexivity.
Defined.

(** ** Problematic elements are tracked elements *)

Lemma validateElement_within page cfg (S : list Element) acc el :
  el ∈ S →
  Forall (λ issue, ∀ e, element issue = Some e → e ∈ S) acc.1 →
  Forall (λ issue, ∀ e, element issue = Some e → e ∈ S)
         (validateElement page cfg acc el).1.
Proof.
  destruct acc as [issues ids]. simpl. intros Hel Hacc. unfold validateElement.
  assert (Hnew : ∀ ty sev, Forall (λ issue, ∀ e, element issue = Some e → e ∈ S)
                                  [mkIssue ty sev (Some el)]).
  { intros ty sev. constructor; [|done]. simpl. by intros e [= <-]. }
  repeat case_match; simplify_eq/=; rewrite ?Forall_app; repeat split;
    try exact Hacc; by apply Hnew.
Qed.

Lemma validateElements_within page cfg elements elementIssues :
  querySelectorAll page (selector cfg) = Normal elements →
  validateElements page cfg = Normal elementIssues →
  Forall (λ issue, ∀ e, element issue = Some e → e ∈ elements) elementIssues.
Proof.
  unfold validateElements. intros ->. simpl. intros [= <-]. case_bool_decide.
  - constructor; [|done]. simpl. by intros e.
  - set (S := elements).
    assert (Hgen : ∀ els acc, (∀ e, e ∈ els → e ∈ S) →
        Forall (λ issue, ∀ e, element issue = Some e → e ∈ S) acc.1 →
        Forall (λ issue, ∀ e, element issue = Some e → e ∈ S)
               (foldl (validateElement page cfg) acc els).1).
    { induction els as [|el els IH]; intros acc Hsub Hacc; [done|].
      simpl. apply IH; [intros e He; apply Hsub; by right|].
      apply validateElement_within; [apply Hsub; by left | done]. }
    by apply Hgen.
Qed.

Lemma size_list_to_set_le (l : list Element) :
  (size (list_to_set l : gset Element) ≤ length l)%nat.
Proof.
  induction l as [|x l IH].
  { change (list_to_set [] : gset Element) with (∅ : gset Element).
    rewrite size_empty. simpl. lia. }
  rewrite list_to_set_cons, size_union_alt, size_singleton. simpl.
  pose proof (subseteq_size (list_to_set l ∖ {[x]}) (list_to_set l : gset Element)) as Hle.
  assert (Hsub : (list_to_set l ∖ {[x]} : gset Element) ⊆ list_to_set l).
  { intros y Hy. by apply elem_of_difference in Hy as [Hy _]. }
  specialize (Hle Hsub). lia.
Qed.

Lemma countProblematic_le issues (l : list Element) :
  Forall (λ issue, ∀ e, element issue = Some e → e ∈ l) issues →
  (_countProblematicElements issues ≤ length l)%nat.
Proof.
  intros Hall. unfold _countProblematicElements.
  assert (Hfold : ∀ acc : gset Element, acc ⊆ list_to_set l →
            foldl (λ acc issue, match element issue with
                                | Some el => {[el]} ∪ acc
                                | None => acc
                                end) acc issues ⊆ list_to_set l).
  { induction Hall as [|issue issues Hi _ IH]; intros acc Hacc; [done|].
    simpl. apply IH. destruct (element issue) as [el|]; [|done].
    intros y [Hy|Hy]%elem_of_union; [|by apply Hacc].
    apply elem_of_singleton in Hy as ->. apply elem_of_list_to_set. by apply Hi. }
  pose proof (subseteq_size _ _ (Hfold ∅ (empty_subseteq _))) as Hle.
  pose proof (size_list_to_set_le l). lia.
Qed.

(** X17. In a computed report the number of problematic elements never
    exceeds the number of tracked elements: every issue that names an
    element names one that matches the selector, and each element is counted
    once however many issues it has. *)
Theorem problematic_elements_are_tracked
    (page : Page) (verbose : bool) (w : World) (report : Report) :
  _diagnosticCache (this w) !! cacheKeyOf verbose = None →
  (diagnose page verbose w).1 = Normal report →
  ∃ elements,
    querySelectorAll page (selector (config (this w))) = Normal elements
    ∧ totalElements (summary report) = length elements
    ∧ (problematicElements (summary report) ≤ totalElements (summary report))%nat
    ∧ Forall (λ issue, ∀ e, element issue = Some e → e ∈ elements) (issues report).
Proof.
  intros Hmiss. rewrite diagnose_result, Hmiss. intros Hreport.
  apply freshReport_Normal in Hreport
    as (elements & elementIssues & performanceIssues & environmentIssues
        & Hq & Hel & Hperf & Henv & ->).
  exists elements. split; [done|]. split; [done|].
  cbn [summary problematicElements totalElements issues].
  assert (Hall : Forall (λ issue, ∀ e, element issue = Some e → e ∈ elements)
                   (elementIssues ++ performanceIssues ++ environmentIssues)).
  { apply Forall_app. split; [by eapply validateElements_within|].
    apply Forall_app. split.
    - eapply Forall_impl; [by eapply checkPerformance_no_element|].
      intros issue [Hnone _] e He. congruence.
    - eapply Forall_impl; [by eapply _checkEnvironment_no_element|].
      intros issue Hnone e He. congruence. }
  split; [by apply countProblematic_le | done].
Qed.

Lemma problematic_elements_are_tracked_witness :
  ∃ report elements,
    (diagnose repeatedPage false sampleWorld).1 = Normal report
    ∧ querySelectorAll repeatedPage (selector (config (this sampleWorld))) = Normal elements
    ∧ totalElements (summary report) = length elements
    ∧ (problematicElements (summary report) ≤ totalElements (summary report))%nat
    ∧ Forall (λ issue, ∀ e, element issue = Some e → e ∈ elements) (issues report).
Proof.
  destruct (problematic_elements_are_tracked repeatedPage false sampleWorld _
              ltac:(by vm_compute) eq_refl) as (elements & Hq & Hrest).
  eexists. exists elements. split; [reflexivity|]. split; [exact Hq | exact Hrest].
Defined.

(** ** Missing and duplicate identifiers *)

(** What one step of the loop of [validateElements] adds: the issue about
    the identifier, then issues of other types. *)
Lemma validateElement_shape page cfg issues (ids : gset string) el :
  ∃ others,
    Forall (λ issue, ¬ isIdIssue issue) others
    ∧ validateElement page cfg (issues, ids) el
      = (issues
         ++ match triggerOf page cfg el with
            | None => [mkIssue "missing_trigger_id" "error" (Some el)]
            | Some id => if decide (id ∈ ids)
                         then [mkIssue "duplicate_trigger_id" "error" (Some el)]
                         else []
            end
         ++ others,
         match triggerOf page cfg el with
         | None => ids
         | Some id => {[id]} ∪ ids
         end).
Proof.
  assert (Hother : ∀ ty sev o, ty ≠ "missing_trigger_id" → ty ≠ "duplicate_trigger_id" →
                   ¬ isIdIssue (mkIssue ty sev o)).
  { intros ty sev o H1 H2. unfold isIdIssue. simpl. tauto. }
  unfold validateElement, triggerOf, falsy.
  destruct (getAttribute page el (triggerAttribute cfg)) as [id|]; simpl.
  - destruct (decide (id = "")) as [->|Hne]; simpl.
    + repeat case_match; simplify_eq/=; rewrite <- ?app_assoc; simpl;
        first [ (eexists; split; [|reflexivity]); repeat constructor; by apply Hother
              | exists []; split; [constructor | by rewrite ?app_nil_r] ].
    + rewrite bool_decide_eq_false_2 by done.
      destruct (decide (id ∈ ids)) as [Hin|Hnotin].
      * rewrite bool_decide_eq_true_2 by done.
        assert (Hids : {[id]} ∪ ids = ids).
        { apply set_eq. intros y. rewrite elem_of_union, elem_of_singleton.
          split; [intros [->|?]; done | tauto]. }
        rewrite Hids.
        repeat case_match; simplify_eq/=; rewrite <- ?app_assoc; simpl;
          first [ (eexists; split; [|reflexivity]); repeat constructor; by apply Hother
              | exists []; split; [constructor | by rewrite ?app_nil_r] ].
      * rewrite bool_decide_eq_false_2 by done.
        repeat case_match; simplify_eq/=; rewrite <- ?app_assoc; simpl;
          first [ (eexists; split; [|reflexivity]); repeat constructor; by apply Hother
              | exists []; split; [constructor | by rewrite ?app_nil_r] ].
  - repeat case_match; simplify_eq/=; rewrite <- ?app_assoc; simpl;
      first [ (eexists; split; [|reflexivity]); repeat constructor; by apply Hother
              | exists []; split; [constructor | by rewrite ?app_nil_r] ].
Qed.

Lemma snoc_split {A} (l l1 l2 : list A) (x el : A) :
  l ++ [x] = l1 ++ el :: l2 →
  (l2 = [] ∧ l1 = l ∧ el = x) ∨ ∃ l2', l2 = l2' ++ [x] ∧ l = l1 ++ el :: l2'.
Proof.
  intros Heq. destruct l2 as [|y l2 _] using rev_ind.
  - left. apply (app_inj_tail l l1 x el) in Heq as [-> ->]. done.
  - right. exists l2.
    change (l1 ++ el :: l2 ++ [y]) with (l1 ++ (el :: l2) ++ [y]) in Heq.
    rewrite app_assoc in Heq. apply app_inj_tail in Heq as [-> ->]. done.
Qed.

(** The loop of [validateElements] over a prefix [l] of the elements. *)
Lemma validateElements_loop page cfg l :
  let r := foldl (validateElement page cfg) ([], ∅) l in
  (∀ id, id ∈ r.2 ↔ ∃ el', el' ∈ l ∧ triggerOf page cfg el' = Some id)
  ∧ (∀ el, mkIssue "missing_trigger_id" "error" (Some el) ∈ r.1
           ↔ el ∈ l ∧ triggerOf page cfg el = None)
  ∧ (∀ el, mkIssue "duplicate_trigger_id" "error" (Some el) ∈ r.1
           ↔ ∃ l1 l2 el' id, l = l1 ++ el :: l2 ∧ el' ∈ l1
                             ∧ triggerOf page cfg el = Some id
                             ∧ triggerOf page cfg el' = Some id).
Proof.
  induction l as [|x l IH] using rev_ind.
  { simpl. split; [|split].
    - intros id. split; [intros Hin; by apply elem_of_empty in Hin|].
      intros (el' & Hin & _). by apply elem_of_nil in Hin.
    - intros el. split; [intros Hin; by apply elem_of_nil in Hin|].
      intros [Hin _]. by apply elem_of_nil in Hin.
    - intros el. split; [intros Hin; by apply elem_of_nil in Hin|].
      intros (l1 & l2 & el' & id & Heq & _). by destruct l1. }
  cbv zeta in *. rewrite foldl_app. simpl.
  destruct (foldl (validateElement page cfg) ([], ∅) l) as [issues ids].
  simpl in IH. destruct IH as (Hids & Hmissing & Hdup).
  destruct (validateElement_shape page cfg issues ids x) as (others & Hothers & ->).
  simpl. rewrite Forall_forall in Hothers.
  assert (Hno : ∀ ty el, (ty = "missing_trigger_id" ∨ ty = "duplicate_trigger_id") →
                mkIssue ty "error" (Some el) ∉ others).
  { intros ty el Hty Hin. by apply (Hothers _ Hin). }
  split; [|split].
  - intros id. destruct (triggerOf page cfg x) as [idx|] eqn:Hx.
    + rewrite elem_of_union, elem_of_singleton, Hids. split.
      * intros [->|(el' & Hin & Hel')].
        -- exists x. split; [apply elem_of_app; right; by left | done].
        -- exists el'. split; [apply elem_of_app; by left | done].
      * intros (el' & [Hin|Hin]%elem_of_app & Hel').
        -- right. eauto.
        -- apply list_elem_of_singleton in Hin as ->. left. congruence.
    + rewrite Hids. split.
      * intros (el' & Hin & Hel'). exists el'. split; [apply elem_of_app; by left | done].
      * intros (el' & [Hin|Hin]%elem_of_app & Hel'); [eauto|].
        apply list_elem_of_singleton in Hin as ->. congruence.
  - intros el. rewrite !elem_of_app, Hmissing. split.
    + intros [[Hin Hnone]|[Hin|Hin]].
      * split; [by left | done].
      * destruct (triggerOf page cfg x) as [idx|] eqn:Hx.
        -- destruct (decide (idx ∈ ids));
             [apply list_elem_of_singleton in Hin; discriminate Hin
             | by apply elem_of_nil in Hin].
        -- apply list_elem_of_singleton in Hin. injection Hin as ->.
           split; [right; by left | done].
      * by destruct (Hno "missing_trigger_id" el (or_introl eq_refl)).
    + intros [[Hin|Hin] Hnone]; [by left|].
      apply list_elem_of_singleton in Hin as ->. right. left.
      rewrite Hnone. by left.
  - intros el. rewrite !elem_of_app, Hdup. split.
    + intros [(l1 & l2 & el' & id & -> & Hin & He & He')|[Hin|Hin]].
      * exists l1, (l2 ++ [x]), el', id. by rewrite <- app_assoc.
      * destruct (triggerOf page cfg x) as [idx|] eqn:Hx;
          [|apply list_elem_of_singleton in Hin; discriminate Hin].
        destruct (decide (idx ∈ ids)) as [Hidx|]; [|by apply elem_of_nil in Hin].
        apply list_elem_of_singleton in Hin. injection Hin as ->.
        apply Hids in Hidx as (el' & Hel' & Hid').
        exists l, [], el', idx. done.
      * by destruct (Hno "duplicate_trigger_id" el (or_intror eq_refl)).
    + intros (l1 & l2 & el' & id & Heq & Hin & He & He').
      apply snoc_split in Heq as [(-> & -> & ->)|(l2' & -> & ->)].
      * right. left. rewrite He.
        rewrite decide_True; [by left|]. apply Hids. eauto.
      * left. exists l1, l2', el', id. done.
Qed.

(** X18. When its query returns, [validateElements()] reports
    "missing_trigger_id" for exactly the selected elements whose trigger
    attribute is absent or empty, and "duplicate_trigger_id" for exactly the
    selected elements whose (non-empty) identifier is also the identifier of
    an element selected before them; the first element that carries an
    identifier is never reported as a duplicate. *)
Theorem missing_and_duplicate_identifiers
    (page : Page) (cfg : Config) (elements : list Element) (el : Element) :
  querySelectorAll page (selector cfg) = Normal elements →
  ∃ elementIssues,
    validateElements page cfg = Normal elementIssues
    ∧ (mkIssue "missing_trigger_id" "error" (Some el) ∈ elementIssues
       ↔ el ∈ elements ∧ triggerOf page cfg el = None)
    ∧ (mkIssue "duplicate_trigger_id" "error" (Some el) ∈ elementIssues
       ↔ ∃ l1 l2 el' id, elements = l1 ++ el :: l2
                         ∧ el' ∈ l1
                         ∧ triggerOf page cfg el = Some id
                         ∧ triggerOf page cfg el' = Some id).
Proof.
  intros Hq. unfold validateElements. rewrite Hq. simpl.
  eexists. split; [reflexivity|]. case_bool_decide as Hlen.
  - apply nil_length_inv in Hlen. rewrite Hlen. split.
    + split; [intros Hin; apply list_elem_of_singleton in Hin; discriminate Hin|].
      intros [Hin _]. by apply elem_of_nil in Hin.
    + split; [intros Hin; apply list_elem_of_singleton in Hin; discriminate Hin|].
      intros (l1 & l2 & el' & id & Heq & _). by destruct l1.
  - destruct (validateElements_loop page cfg elements) as (_ & Hmissing & Hdup).
    split; [apply Hmissing | apply Hdup].
Qed.

Lemma missing_and_duplicate_identifiers_witness :
  ∃ elementIssues,
    validateElements repeatedPage (merge_config no_options) = Normal elementIssues
    ∧ (mkIssue "missing_trigger_id" "error" (Some 3%nat) ∈ elementIssues
       ↔ 3%nat ∈ [1; 2; 3]%nat ∧ triggerOf repeatedPage (merge_config no_options) 3%nat = None)
    ∧ (mkIssue "duplicate_trigger_id" "error" (Some 3%nat) ∈ elementIssues
       ↔ ∃ l1 l2 el' id, [1; 2; 3]%nat = l1 ++ 3%nat :: l2
                         ∧ el' ∈ l1
                         ∧ triggerOf repeatedPage (merge_config no_options) 3%nat = Some id
                         ∧ triggerOf repeatedPage (merge_config no_options) el' = Some id).
Proof.
  apply (missing_and_duplicate_identifiers repeatedPage (merge_config no_options)
           [1; 2; 3]%nat 3%nat).
  reflexivity.
Defined.

(** The second of two sections called "intro" is the duplicate; a section
    with an empty attribute is reported as missing its identifier. *)
Example duplicate_and_empty_identifiers :
  validateElements repeatedPage (merge_config no_options)
  = Normal [mkIssue "duplicate_trigger_id" "error" (Some 2%nat);
            mkIssue "missing_trigger_id" "error" (Some 3%nat)].
Proof. by vm_compute. Qed.

(** ** What the pass of a burst reads *)

(** Passes are only appended, and each pass that runs while time advances
    reads the Visible Set as it is: timers do not change it. *)
Lemma advance_passes page (inclusive : bool) t w :
  ∃ extra, passes (advance page inclusive t w) = passes w ++ extra
           ∧ Forall (λ p, pass_visible p = visibleElements (this w)) extra
           ∧ visibleElements (this (advance page inclusive t w)) = visibleElements (this w).
Proof.
  unfold advance. simpl.
  apply (runDue_preserves
           (λ w1, ∃ extra, passes w1 = passes w ++ extra
                           ∧ Forall (λ p, pass_visible p = visibleElements (this w)) extra
                           ∧ visibleElements (this w1) = visibleElements (this w))).
  - intros w1 tm (extra & Hp & Hall & Hv). destruct (task tm); simpl.
    + unfold resolutionPass.
      match goal with
      | |- context [(updateCurrentTrigger page ?x).2] =>
          destruct (updateCurrentTrigger_frame page x)
            as (-> & _ & _ & _ & _ & _ & _ & -> & _)
      end.
      simpl. exists (extra ++ [{| pass_time := Z.max (clock w1) (due tm);
                                  pass_visible := visibleElements (this w1) |}]).
      rewrite Hp, app_assoc. split; [done|]. split; [|done].
      apply Forall_app. split; [done|]. by repeat constructor.
    + exists extra. done.
  - exists []. by rewrite app_nil_r.
Qed.

Lemma arrive_passes a w :
  is_Some (observer (this w)) →
  passTimes (run (arrive a) w) = passTimes w → passes (run (arrive a) w) = passes w.
Proof.
  intros Hobs Htimes. rewrite run_arrive in *.
  destruct (advance_passes (pageThen a) (timersFirst a) (arrivesAt a) w)
    as (extra & Hp & _ & _).
  set (w1 := advance (pageThen a) (timersFirst a) (arrivesAt a) w) in *.
  assert (Hsame : passes (match observer (this w1) with
                          | Some _ => observerCallback (pageThen a) (batch a) w1
                          | None => w1
                          end) = passes w1).
  { destruct (observer (this w1)); [|done]. unfold observerCallback.
    by destruct (debouncedUpdate_this
                   (with_this (λ s, foldl (intake (pageThen a)) s (batch a)) w1))
      as (_ & _ & _ & _ & _ & _ & _ & -> & _). }
  unfold passTimes in Htimes. rewrite Hsame, Hp in *.
  rewrite fmap_app in Htimes.
  assert (Hnil : extra = []).
  { apply (f_equal length) in Htimes. rewrite length_app, !length_fmap in Htimes.
    apply nil_length_inv. lia. }
  by rewrite Hnil, app_nil_r.
Qed.

Lemma deliver_near_passes wait : ∀ rest t w,
  armed wait t w → near wait t rest →
  passes (run (deliver rest) w) = passes w.
Proof.
  induction rest as [|a rest IH]; intros t w Harmed Hnear; [done|].
  destruct Hnear as [[Hle Hlt]%arrivesBefore_limit Hnear].
  rewrite deliver_cons, run_app.
  destruct (arrive_armed wait t a w Harmed Hle) as [Harmed1 Hpass1].
  rewrite decide_False in Hpass1 by done.
  rewrite app_nil_r in Hpass1.
  rewrite (IH (arrivesAt a) _ Harmed1 Hnear).
  apply arrive_passes; [|done]. by destruct Harmed as (_ & Hobs & _).
Qed.

(** X19. For a [debounceDelay] that the host's timers take as it is (from
    0 to 2^31 - 1 ms), the one resolution pass of a burst runs after every
    batch of the burst has been folded into the Visible Set: it reads the
    Visible Set as the last batch left it. *)
Theorem burst_pass_reads_final_visible_set
    (w0 : World) (first : Arrival) (rest : list Arrival)
    (pageEnd : Page) (inclusiveEnd : bool) (tEnd : Z) :
  timersOk w0 → pendingUpdates w0 = [] → is_Some (observer (this w0)) →
  timerDelay (debounceDelay (config (this w0))) →
  clock w0 ≤ arrivesAt first →
  let delay := debounceDelay (config (this w0)) in
  let tLast := default (arrivesAt first) (last (arrivesAt <$> rest)) in
  near delay (arrivesAt first) rest →
  tLast + delay < tEnd →
  let delivered := run (deliver (first :: rest)) w0 in
  passes (run (deliver (first :: rest) ++ [(pageEnd, Advance inclusiveEnd tEnd)]) w0)
  = passes w0 ++ [{| pass_time := tLast + delay;
                     pass_visible := visibleElements (this delivered) |}].
Proof.
  intros Hok Hquiet Hobs Hdelay Hnow delay tLast Hnear Hend delivered.
  assert (Hwait : Z.max 0 (to_long (debounceDelay (config (this w0)))) = delay)
    by by apply to_long_small.
  destruct (arrive_spec delay first w0 Hok Hobs Hwait Hnow) as [Harmed1 Hpass1].
  { rewrite Hquiet. constructor. }
  rewrite Hquiet, filter_nil, fmap_nil, app_nil_r in Hpass1.
  assert (Hp1 : passes (run (arrive first) w0) = passes w0) by by apply arrive_passes.
  destruct (deliver_near delay rest _ _ Harmed1 Hnear) as [Harmed2 _].
  pose proof (deliver_near_passes delay rest _ _ Harmed1 Hnear) as Hp2.
  assert (Hd : delivered = run (deliver rest) (run (arrive first) w0)).
  { subst delivered. by rewrite deliver_cons, run_app. }
  rewrite run_app. fold delivered. rewrite Hd in *.
  set (wd := run (deliver rest) (run (arrive first) w0)) in *.
  change (run [(pageEnd, Advance inclusiveEnd tEnd)] wd)
    with (advance pageEnd inclusiveEnd tEnd wd).
  pose proof (advance_armed _ _ pageEnd inclusiveEnd tEnd _ Harmed2 Hend) as Htimes.
  destruct (advance_passes pageEnd inclusiveEnd tEnd wd) as (extra & Hp & Hall & _).
  unfold passTimes in Htimes. rewrite Hp, fmap_app in Htimes.
  apply app_inv_head in Htimes.
  destruct extra as [|p [|p' extra]]; try discriminate Htimes.
  rewrite Hp, Hp2, Hp1. f_equal. apply Forall_cons in Hall as [Hvis _].
  destruct p as [pt pv]. simpl in *. injection Htimes as ->. by rewrite Hvis.
Qed.

Lemma burst_pass_reads_final_visible_set_witness :
  passes (run (deliver burst ++ [(samplePage topsA, Advance true 1100)]) sampleWorld)
  = passes sampleWorld
    ++ [{| pass_time := 1029;
           pass_visible := visibleElements (this (run (deliver burst) sampleWorld)) |}].
Proof.
  destruct sampleWorld_listening as (Hok & Hquiet & Hobs).
  refine (burst_pass_reads_final_visible_set sampleWorld
            {| arrivesAt := 1005; timersFirst := true; pageThen := samplePage topsA;
               batch := [enter 1%nat] |}
            (tail burst) (samplePage topsA) true 1100 Hok Hquiet Hobs _ _ _ _).
  - vm_compute. split; [discriminate | reflexivity].
  - vm_compute. discriminate.
  - unfold near, arrivesBefore. simpl. repeat split; try lia; left; lia.
  - vm_compute. reflexivity.
Defined.

(** With a delay of 2^31 ms the timers are due at once, and the pass of the
    first batch has run before the second batch arrives. *)
Example long_delay_pass_reads_first_batch_only :
  pass_visible
    <$> passes (run (deliver twoBatches ++ [(samplePage topsA, Advance true 1100)])
                  worldLongDelay)
  = [[]; [(1%nat, Some "intro")];
     [(1%nat, Some "intro"); (2%nat, Some "section1")]].
Proof. by vm_compute. Qed.

(** ** The delay as the timer takes it *)

(** X20. Whatever the [debounceDelay], the debounce scheduler waits for
    the delay as the host's timer takes it: [debounceDelay] converted to a
    32-bit integer, and 0 when that is negative.  Batches that arrive while
    the timer of the previous one is pending cause one resolution pass, that
    long after the last batch; batches that arrive after the timer of the
    previous one has run cause one pass each.  In particular a delay from
    2^31 to 2^32 - 1 ms is a wait of 0 ms. *)
Theorem debounce_waits_as_the_timer_does
    (w0 : World) (first : Arrival) (rest : list Arrival)
    (pageEnd : Page) (inclusiveEnd : bool) (tEnd : Z) :
  timersOk w0 → pendingUpdates w0 = [] → is_Some (observer (this w0)) →
  clock w0 ≤ arrivesAt first →
  let wait := Z.max 0 (to_long (debounceDelay (config (this w0)))) in
  let tLast := default (arrivesAt first) (last (arrivesAt <$> rest)) in
  tLast + wait < tEnd →
  let w := run (deliver (first :: rest) ++ [(pageEnd, Advance inclusiveEnd tEnd)]) w0 in
  (near wait (arrivesAt first) rest → passTimes w = passTimes w0 ++ [tLast + wait])
  ∧ (apart wait (arrivesAt first) rest →
     passTimes w = passTimes w0 ++ ((λ a, arrivesAt a + wait) <$> first :: rest)).
Proof.
  intros Hok Hquiet Hobs Hnow wait tLast Hend w.
  destruct (arrive_spec wait first w0 Hok Hobs eq_refl Hnow) as [Harmed1 Hpass1].
  { rewrite Hquiet. constructor. }
  rewrite Hquiet, filter_nil, fmap_nil, app_nil_r in Hpass1.
  assert (Hw : w = advance pageEnd inclusiveEnd tEnd
                     (run (deliver rest) (run (arrive first) w0))).
  { subst w. by rewrite deliver_cons, !run_app. }
  split.
  - intros Hnear.
    destruct (deliver_near wait rest _ _ Harmed1 Hnear) as [Harmed2 Hpass2].
    rewrite Hw, (advance_armed _ _ _ _ _ _ Harmed2 Hend). by rewrite Hpass2, Hpass1.
  - intros Hapart.
    destruct (deliver_apart wait rest _ _ Harmed1 Hapart) as [Harmed2 Hpass2].
    rewrite Hw, (advance_armed _ _ _ _ _ _ Harmed2 Hend), Hpass2, Hpass1.
    rewrite <- !app_assoc. f_equal.
    change [default (arrivesAt first) (last (arrivesAt <$> rest)) + wait]
      with ((λ t', t' + wait) <$> [default (arrivesAt first) (last (arrivesAt <$> rest))]).
    rewrite <- fmap_app, allButLast_last.
    change (arrivesAt first :: (arrivesAt <$> rest)) with (arrivesAt <$> first :: rest).
    by rewrite <- list_fmap_compose.
Qed.

Lemma worldLongDelay_listening :
  timersOk worldLongDelay ∧ pendingUpdates worldLongDelay = []
  ∧ is_Some (observer (this worldLongDelay)).
Proof.
  split; [|split].
  - unfold timersOk. vm_compute. repeat constructor.
  - by vm_compute.
  - vm_compute. by eexists.
Defined.

Lemma debounce_waits_as_the_timer_does_witness :
  passTimes (run (deliver twoBatches ++ [(samplePage topsA, Advance true 1100)])
               worldLongDelay)
  = passTimes worldLongDelay ++ [1005; 1010].
Proof.
  destruct worldLongDelay_listening as (Hok & Hquiet & Hobs).
  refine (proj2 (debounce_waits_as_the_timer_does worldLongDelay
            {| arrivesAt := 1005; timersFirst := true; pageThen := samplePage topsA;
               batch := [enter 1%nat] |}
            (tail twoBatches) (samplePage topsA) true 1100 Hok Hquiet Hobs _ _) _).
  - vm_compute. discriminate.
  - vm_compute. reflexivity.
  - unfold apart, arrivesAfter. simpl. repeat split. left. vm_compute. reflexivity.
Defined.

(** ** When the diagnosis fails *)

(** X21. With nothing cached for its key, [diagnose()] returns a report
    exactly when the selector parses and the document has a body; otherwise
    it throws what the host throws, and then it has changed nothing: no
    report is cached, no eviction timer is started, nothing is printed. *)
Theorem diagnose_fails_without_effect (page : Page) (verbose : bool) (w : World) :
  _diagnosticCache (this w) !! cacheKeyOf verbose = None →
  (returns (diagnose page verbose w).1 = true ↔ diagnosable page (config (this w)))
  ∧ (returns (diagnose page verbose w).1 = false → (diagnose page verbose w).2 = w)
  ∧ (returns (diagnose page verbose w).1 = true →
     is_Some (_diagnosticCache (this (diagnose page verbose w).2) !! cacheKeyOf verbose)
     ∧ length (timers (diagnose page verbose w).2) = S (length (timers w))).
Proof.
  intros Hmiss. split; [|split].
  - rewrite diagnose_result, Hmiss. apply freshReport_returns.
  - destruct (diagnose page verbose w).1 as [report|error] eqn:Hfirst; [done|].
    intros _. by eapply diagnose_throws.
  - destruct (diagnose page verbose w).1 as [report|error] eqn:Hfirst; [|done].
    intros _. split.
    + rewrite (diagnose_caches page verbose w report Hfirst). by eexists.
    + rewrite (diagnose_timers page verbose w report Hmiss Hfirst).
      rewrite length_app. simpl. lia.
Qed.

Lemma diagnose_fails_without_effect_witness :
  (returns (diagnose headOnlyPage false sampleWorld).1 = true
   ↔ diagnosable headOnlyPage (config (this sampleWorld)))
  ∧ (returns (diagnose headOnlyPage false sampleWorld).1 = false →
     (diagnose headOnlyPage false sampleWorld).2 = sampleWorld)
  ∧ (returns (diagnose headOnlyPage false sampleWorld).1 = true →
     is_Some (_diagnosticCache (this (diagnose headOnlyPage false sampleWorld).2)
              !! cacheKeyOf false)
     ∧ length (timers (diagnose headOnlyPage false sampleWorld).2)
       = S (length (timers sampleWorld))).
Proof.
  apply (diagnose_fails_without_effect headOnlyPage false sampleWorld).
  by vm_compute.
Defined.

(** With the empty selector the query throws, in [diagnose()] as in the
    deferred [setup()], which leaves an observer that watches nothing. *)
Example empty_selector_fails_later :
  (diagnose (samplePage topsA) false worldEmptySelector).1 = Throw "SyntaxError"
  ∧ (setup (samplePage topsA) worldEmptySelector).1 = Throw "SyntaxError"
  ∧ observer (this (step worldEmptySelector (samplePage topsA, DOMContentLoaded)))
    = Some {| targets := ∅ |}
  ∧ passes (step worldEmptySelector (samplePage topsA, DOMContentLoaded)) = [].
Proof. by vm_compute. Qed.
